(** * PhotoPrism Helper: the batch label engine of the popup

    A shallow embedding of [popup.js] and [storage-utils.js]: the
    instance-scoped store, the label resolver, the batch dispatcher, the
    execution recorder and the failure tracker; of [content.js], the content
    script that answers the popup; and of [config.js], the configuration
    page.  The properties the specification states about them follow, and
    further properties of the code.

    Conventions of the embedding.
    - An [async] function is a computation in the monad [M]: it threads the
      browser-side world, and ends by returning, by throwing, or by never
      settling (a [fetch] that the transport neither resolves nor rejects).
    - What the code only reads from its surroundings (the active tab, the
      content script's answer, the HTTP service, the clock, the order in
      which concurrent calls complete) is an oracle in [Env].
    - JavaScript strings are [string]s; [toLowerCase], [trim] and the
      character class of [createInstanceKey] are modelled on ASCII.
    - Time stamps ([toISOString]) are kept as the millisecond reading they
      print.
    - Logging and rendering are left out; of the display of the popup, the
      status line, the progress reports, the processing flag and the label
      input are kept.

    The file has five parts: the embedding, the vocabulary in which the
    properties are stated, the lemmas, the claims of the specification with
    their examples, and further properties of the code. *)

From Stdlib Require Import ZArith Ascii String List Bool Lia Permutation Sorted.
From stdpp Require Import base option list gmap strings pretty.
Import ListNotations.
Local Open Scope string_scope.
Local Open Scope list_scope.
Local Open Scope Z_scope.
Local Open Scope nat_scope.

(* ===================================================================== *)
(** ** Strings *)
(* ===================================================================== *)

Module Js.

(** [c.toLowerCase()] on one ASCII character. *)
Definition lowerChar (c : ascii) : ascii :=
  let n := nat_of_ascii c in
  if (65 <=? n) && (n <=? 90) then ascii_of_nat (n + 32) else c.

(** [s.toLowerCase()] *)
Fixpoint toLowerCase (s : string) : string :=
  match s with
  | EmptyString => EmptyString
  | String c r => String (lowerChar c) (toLowerCase r)
  end.

(** White space removed by [trim]: TAB, LF, VT, FF, CR and SPACE. *)
Definition isWhite (c : ascii) : bool :=
  let n := nat_of_ascii c in
  ((9 <=? n) && (n <=? 13)) || (n =? 32).

Fixpoint trimStart (s : string) : string :=
  match s with
  | EmptyString => EmptyString
  | String c r => if isWhite c then trimStart r else s
  end.

Fixpoint trimEnd (s : string) : string :=
  match s with
  | EmptyString => EmptyString
  | String c r =>
      match trimEnd r with
      | EmptyString => if isWhite c then EmptyString else String c EmptyString
      | r' => String c r'
      end
  end.

(** [s.trim()] *)
Definition trim (s : string) : string := trimEnd (trimStart s).

(** Truthiness of a string: [!s] holds for the empty string only. *)
Definition truthy (s : string) : bool :=
  match s with EmptyString => false | _ => true end.

(** The class [[a-zA-Z0-9]]. *)
Definition isAlnum (c : ascii) : bool :=
  let n := nat_of_ascii c in
  ((48 <=? n) && (n <=? 57)) || ((65 <=? n) && (n <=? 90))
  || ((97 <=? n) && (n <=? 122)).

(** [s.replace(/[^a-zA-Z0-9]/g, '_')] *)
Fixpoint replaceNonAlnum (s : string) : string :=
  match s with
  | EmptyString => EmptyString
  | String c r => String (if isAlnum c then c else "_"%char) (replaceNonAlnum r)
  end.

(** Insertion into a list sorted by code-unit order, and [Array.prototype.sort]
    with the default comparison. *)
Fixpoint insertSorted (x : string) (l : list string) : list string :=
  match l with
  | [] => [x]
  | y :: r => if String.leb x y then x :: l else y :: insertSorted x r
  end.

Definition sort (l : list string) : list string :=
  foldr insertSorted [] l.

(** The names a plain object inherits from [Object.prototype]: reading one of
    them from an object that has no property of its own under that name
    yields the member of the prototype. *)
Definition objectPrototype : list string :=
  ["constructor"; "__defineGetter__"; "__defineSetter__"; "hasOwnProperty";
   "__lookupGetter__"; "__lookupSetter__"; "isPrototypeOf"; "propertyIsEnumerable";
   "toString"; "valueOf"; "__proto__"; "toLocaleString"].

Definition inherited (name : string) : bool :=
  existsb (String.eqb name) objectPrototype.

End Js.

(* ===================================================================== *)
(** ** Data model *)
(* ===================================================================== *)

Inductive Action := add | remove.

Definition Action_eqb (a b : Action) : bool :=
  match a, b with
  | add, add | remove, remove => true
  | _, _ => false
  end.

(** The object built by [handleAction] and [retryFailedOperation] and handed
    to [saveExecutionResult].  [handleAction] leaves [isRetry] out; an absent
    field reads as [false]. *)
Record ExecutionResult := mkExecutionResult {
  er_action : Action;
  er_labelName : string;
  er_totalCount : nat;
  er_successCount : nat;
  er_failedCount : nat;
  er_failedUids : list string;
  er_startTime : Z;
  er_duration : Z;
  er_error : option string;
  er_isRetry : bool
}.

(** [{ ...executionResult, id }] *)
Record HistoryEntry := mkHistoryEntry {
  he_result : ExecutionResult;
  he_id : string
}.

Record FailedOperation := mkFailedOperation {
  fo_action : Action;
  fo_labelName : string;
  fo_failedUids : list string;
  fo_timestamp : Z;
  fo_retryCount : nat
}.

(** What [chrome.storage.local] holds under the engine's keys. *)
Inductive Value :=
| VLabelCache (cache : gmap string Z)
| VLabels (labels : list string)
| VHistory (history : list HistoryEntry)
| VFailed (groups : list FailedOperation).

(** *** The remote service *)

Inductive Method := GET | POST | DELETE.

Record Request := mkRequest {
  rq_method : Method;
  rq_url : string;
  rq_token : string;
  rq_body : option string   (* the label name posted by [addLabel] *)
}.

Record LabelEntry := mkLabelEntry {
  label_ID : Z;
  label_Name : string;
  label_Slug : string
}.

(** What [getLabelId] hands to [removeLabel]: the number the service or the
    cache gave, or, for a name the cache has no entry of its own for but every
    object inherits, the member of [Object.prototype] of that name. *)
Inductive LabelId :=
| Numeric (id : Z)
| Inherited (member : string).

(** [`${labelId}`]: a number prints in decimal, a built-in function as
    [function name() { [native code] }], and the prototype, read under
    [__proto__], as [[object Object]]. *)
Definition labelIdText (labelId : LabelId) : string :=
  match labelId with
  | Numeric id => pretty id
  | Inherited member =>
      if (member =? "__proto__")%string then "[object Object]"
      else if (member =? "constructor")%string then "function Object() { [native code] }"
      else "function " +:+ member +:+ "() { [native code] }"
  end.

(** A parsed JSON body; only the [Labels] member of a photo is ever read, and
    it may be absent. *)
Record Json := mkJson { json_Labels : option (list LabelEntry) }.

Record Response := mkResponse {
  rs_status : Z;
  rs_text : string;          (* [response.text()] *)
  rs_json : option Json      (* [response.json()]; [None]: not valid JSON *)
}.

(** [response.ok] *)
Definition rs_ok (r : Response) : bool :=
  ((200 <=? rs_status r) && (rs_status r <=? 299))%Z.

Inductive FetchResult :=
| Responded (r : Response)
| NetworkError (message : string)
| NeverSettles.

(** *** The oracles *)

Record Url := mkUrl { url_protocol : string; url_host : string }.

Record Tab := mkTab { tab_url : option string }.

Record PageData := mkPageData { pd_uids : list string; pd_token : string }.

Record Env := mkEnv {
  (** [tabs[0]] of [chrome.tabs.query({active, currentWindow})] *)
  activeTab : option Tab;
  (** [new URL(s)]; [None] when the constructor throws *)
  parseURL : string -> option Url;
  (** the outcome of the message round trip in [getPhotoPrismData]: the
      rejection message, or [response.data] *)
  pageData : string + PageData;
  (** [fetch]: the answer to the [n]-th request issued since the origin of
      the trace *)
  fetchOracle : nat -> Request -> FetchResult;
  (** successive readings of the clock *)
  clock : nat -> Z;
  (** order in which the calls of a batch complete, by position *)
  completionOrder : list nat;
  (** [forceRefreshAllDisplays] is called by [retryFailedOperation] but is
      defined nowhere in the sources at hand; [Some m]: the call throws [m],
      [None]: it returns *)
  forceRefreshAllDisplays_throws : option string
}.

(** *** The world the popup acts on *)

Record World := mkWorld {
  storage : gmap string Value;     (* chrome.storage.local *)
  requests : list Request;         (* requests issued, oldest first *)
  clockReads : nat;                (* readings of the clock taken so far *)
  progress : list (nat * nat);     (* arguments of [updateProgress], oldest first *)
  status : string * bool;          (* last [setStatus] *)
  processing : bool                (* last [setUIProcessingState] *)
}.

Definition withStorage (s : gmap string Value) (w : World) : World :=
  mkWorld s (requests w) (clockReads w) (progress w) (status w) (processing w).
Definition withRequests (r : list Request) (w : World) : World :=
  mkWorld (storage w) r (clockReads w) (progress w) (status w) (processing w).
Definition withClockReads (n : nat) (w : World) : World :=
  mkWorld (storage w) (requests w) n (progress w) (status w) (processing w).
Definition withProgress (p : list (nat * nat)) (w : World) : World :=
  mkWorld (storage w) (requests w) (clockReads w) p (status w) (processing w).
Definition withStatus (s : string * bool) (w : World) : World :=
  mkWorld (storage w) (requests w) (clockReads w) (progress w) s (processing w).
Definition withProcessing (b : bool) (w : World) : World :=
  mkWorld (storage w) (requests w) (clockReads w) (progress w) (status w) b.

(* ===================================================================== *)
(** ** The monad of asynchronous computations *)
(* ===================================================================== *)

Inductive Outcome (A : Type) :=
| Returned (a : A)
| Thrown (message : string)
| Pending.
Arguments Returned {A} a.
Arguments Thrown {A} message.
Arguments Pending {A}.

Definition M (S A : Type) : Type := S -> Outcome A * S.

Definition ret {S A} (a : A) : M S A := fun s => (Returned a, s).

Definition bind {S A B} (m : M S A) (f : A -> M S B) : M S B :=
  fun s =>
    match m s with
    | (Returned a, s') => f a s'
    | (Thrown e, s') => (Thrown e, s')
    | (Pending, s') => (Pending, s')
    end.

Definition throw {S A} (message : string) : M S A := fun s => (Thrown message, s).

(** [try { m } catch (error) { handler(error.message) }] *)
Definition tryCatch {S A} (m : M S A) (handler : string -> M S A) : M S A :=
  fun s =>
    match m s with
    | (Thrown e, s') => handler e s'
    | r => r
    end.

(** [try { m } finally { fin }]: [fin] runs once [m] has returned or thrown,
    and its own throw replaces the outcome of [m]. *)
Definition tryFinally {S A} (m : M S A) (fin : M S unit) : M S A :=
  fun s =>
    match m s with
    | (Pending, s') => (Pending, s')
    | (r, s') =>
        match fin s' with
        | (Returned _, s'') => (r, s'')
        | (Thrown e, s'') => (Thrown e, s'')
        | (Pending, s'') => (Pending, s'')
        end
    end.

(** Runs [m] and hands back how it settled; the promise of [m] observed
    through [then]/[catch]. *)
Definition settle {S A} (m : M S A) : M S (Outcome A) :=
  fun s => let '(r, s') := m s in (Returned r, s').

Definition gets {S A} (f : S -> A) : M S A := fun s => (Returned (f s), s).
Definition modify {S} (f : S -> S) : M S unit := fun s => (Returned tt, f s).

(** A computation on the world, run beside a local variable of type [L]. *)
Definition liftW {L A} (m : M World A) : M (L * World) A :=
  fun s => let '(r, w') := m (snd s) in (r, (fst s, w')).
Definition getLocal {L} : M (L * World) L := fun s => (Returned (fst s), s).
Definition setLocal {L} (f : L -> L) : M (L * World) unit :=
  fun s => (Returned tt, (f (fst s), snd s)).

Declare Scope js_scope.
Delimit Scope js_scope with js.
Notation "x <- m ;; k" := (bind m (fun x => k))
  (at level 100, m at next level, right associativity) : js_scope.
Notation "m ;; k" := (bind m (fun _ => k))
  (at level 100, right associativity) : js_scope.
Local Open Scope js_scope.

(** A promise that never settles. *)
Definition pending {S A} : M S A := fun s => (Pending, s).

(** A loop that collects, and a loop that accumulates. *)
Fixpoint mapM {S A B} (f : A -> M S B) (l : list A) : M S (list B) :=
  match l with
  | [] => ret []
  | x :: r => y <- f x ;; ys <- mapM f r ;; ret (y :: ys)
  end.

Fixpoint foldM {S A B} (f : B -> A -> M S B) (l : list A) (b : B) : M S B :=
  match l with
  | [] => ret b
  | x :: r => b' <- f b x ;; foldM f r b'
  end.

(** The scope of a local variable: [let x = init; m]. *)
Definition runLocal {L A} (init : L) (m : M (L * World) A) : M World A :=
  fun w => let '(r, s) := m (init, w) in (r, snd s).

(** A computation on a local state, run beside the world. *)
Definition liftL {L A} (m : M L A) : M (L * World) A :=
  fun s => let '(r, l') := m (fst s) in (r, (l', snd s)).

(* ===================================================================== *)
(** ** storage-utils.js *)
(* ===================================================================== *)

Section Engine.

Variable env : Env.

(** [getCurrentInstanceId]: the promise rejects with the message on the left. *)
Definition getCurrentInstanceId : string + string :=
  match activeTab env with
  | None => inl "Could not determine current instance"
  | Some tab =>
      match tab_url tab with
      | None => inl "Could not determine current instance"
      | Some u =>
          if Js.truthy u then
            match parseURL env u with
            | Some url => inr (url_protocol url +:+ "//" +:+ url_host url)
            | None => inl "Invalid URL format"
            end
          else inl "Could not determine current instance"
      end
  end.

Definition createInstanceKey (baseKey instanceId : string) : string :=
  let sanitized := Js.replaceNonAlnum instanceId in
  baseKey +:+ "_" +:+ sanitized.

(** [getInstanceData]: every failure inside the [try] is logged and answered
    with the default.  A stored value is an object or an array, hence truthy,
    so [result[key] || defaultValue] is the default exactly when the key is
    absent. *)
Definition getInstanceData (baseKey : string) (defaultValue : Value) : M World Value :=
  tryCatch
    (instanceId <- (match getCurrentInstanceId with
                    | inr i => ret i
                    | inl e => throw e
                    end) ;;
     let key := createInstanceKey baseKey instanceId in
     result <- gets (fun w => storage w !! key) ;;
     ret (default defaultValue result))
    (fun error => ret defaultValue).

(** [setInstanceData]: the failure is logged and thrown again. *)
Definition setInstanceData (baseKey : string) (value : Value) : M World unit :=
  tryCatch
    (instanceId <- (match getCurrentInstanceId with
                    | inr i => ret i
                    | inl e => throw e
                    end) ;;
     let key := createInstanceKey baseKey instanceId in
     modify (fun w => withStorage (<[key := value]> (storage w)) w))
    (fun error => throw error).

(* ===================================================================== *)
(** ** popup.js: the page, the clock and the transport *)
(* ===================================================================== *)

Definition setUIProcessingState (isProcessing : bool) : M World unit :=
  modify (withProcessing isProcessing).

Definition updateProgress (processed total : nat) : M World unit :=
  modify (fun w => withProgress (progress w ++ [(processed, total)]) w).

Definition setStatus (message : string) (isError : bool) : M World unit :=
  modify (withStatus (message, isError)).

(** [Date.now()], and [new Date()] alike: one more reading of the clock. *)
Definition dateNow : M World Z :=
  fun w => (Returned (clock env (clockReads w)), withClockReads (S (clockReads w)) w).

(** [fetch(url, options)]: the request joins the trace, the oracle settles it. *)
Definition fetch (rq : Request) : M World Response :=
  fun w =>
    let w' := withRequests (requests w ++ [rq]) w in
    match fetchOracle env (length (requests w)) rq with
    | Responded r => (Returned r, w')
    | NetworkError e => (Thrown e, w')
    | NeverSettles => (Pending, w')
    end.

(** [await response.json()] on a body that is not JSON. *)
Definition jsonSyntaxError : string := "Unexpected token in JSON".

Definition awaitJson {S} (body : option Json) : M S Json :=
  match body with
  | Some j => ret j
  | None => throw jsonSyntaxError
  end.

(** The three lines that open [addLabel], [removeLabel] and the cache-miss
    path of [getLabelId]: [tabs[0].url] of a missing tab and [new URL] of an
    unusable address both throw a [TypeError]. *)
Definition currentBaseUrl : M World string :=
  match activeTab env with
  | None => throw "Cannot read properties of undefined (reading 'url')"
  | Some tab =>
      match parseURL env (default "undefined" (tab_url tab)) with
      | Some currentUrl => ret (url_protocol currentUrl +:+ "//" +:+ url_host currentUrl)
      | None => throw "Invalid URL"
      end
  end.

(** [getPhotoPrismData]: the message round trip with the content script is
    the oracle [pageData]; only the missing tab is decided here. *)
Definition getPhotoPrismData : M World PageData :=
  match activeTab env with
  | None => throw "Could not find active tab."
  | Some _ =>
      match pageData env with
      | inl e => throw e
      | inr data => ret data
      end
  end.

Definition addLabel (uid labelName token : string) : M World Json :=
  baseUrl <- currentBaseUrl ;;
  let url := baseUrl +:+ "/api/v1/photos/" +:+ uid +:+ "/label" in
  body <- tryCatch
    (setStatus ("Calling API: " +:+ url) false ;;
     response <- fetch (mkRequest POST url token (Some labelName)) ;;
     if negb (rs_ok response) then
       throw ("API Error: " +:+ pretty (rs_status response) +:+ " - " +:+ rs_text response)
     else ret (rs_json response))
    (fun error => throw ("Failed to add label to " +:+ url +:+ ": " +:+ error)) ;;
  (* [return response.json()]: the promise leaves the [try] unsettled *)
  awaitJson body.

Definition removeLabel (uid : string) (labelId : LabelId) (token : string) : M World Json :=
  baseUrl <- currentBaseUrl ;;
  let url := baseUrl +:+ "/api/v1/photos/" +:+ uid +:+ "/label/" +:+ labelIdText labelId in
  body <- tryCatch
    (setStatus ("Calling API: " +:+ url) false ;;
     response <- fetch (mkRequest DELETE url token None) ;;
     if negb (rs_ok response) && negb (rs_status response =? 404)%Z then
       throw ("API Error: " +:+ pretty (rs_status response) +:+ " - " +:+ rs_text response)
     else ret (rs_json response))
    (fun error => throw ("Failed to remove label: " +:+ error)) ;;
  awaitJson body.

(* ===================================================================== *)
(** ** The batch dispatcher *)
(* ===================================================================== *)

Record BatchResult := mkBatchResult {
  successCount : nat;
  failedCount : nat;
  failedUids : list string
}.

(** The counters the handlers of [batchProcess] close over. *)
Record BatchState := mkBatchState {
  bs_processedCount : nat;
  bs_successCount : nat;
  bs_failedCount : nat;
  bs_failedUids : list string
}.

(** The order in which the [total] calls complete: the positions the oracle
    names, each once, then the others.  Every list of the oracle yields an
    order, and every order is yielded by some list. *)
Definition normalizedOrder (total : nat) : list nat :=
  let early := remove_dups (List.filter (fun i => i <? total) (completionOrder env)) in
  early ++ list_difference (seq 0 total) early.

(** The [then] / [catch] / [finally] chain of the call at position [i]; the
    handlers of a call that never settles never run. *)
Definition onSettled (total : nat) (calls : list (string * Outcome Json))
    (st : BatchState) (i : nat) : M World BatchState :=
  match calls !! i with
  | Some (uid, Returned res) =>
      let st := mkBatchState (S (bs_processedCount st)) (S (bs_successCount st))
                  (bs_failedCount st) (bs_failedUids st) in
      updateProgress (bs_processedCount st) total ;;
      ret st
  | Some (uid, Thrown err) =>
      let st := mkBatchState (S (bs_processedCount st)) (bs_successCount st)
                  (S (bs_failedCount st)) (bs_failedUids st ++ [uid]) in
      updateProgress (bs_processedCount st) total ;;
      ret st
  | Some (_, Pending) | None => ret st
  end.

Definition isPending {A} (o : Outcome A) : bool :=
  match o with Pending => true | _ => false end.

(** [uids.map(uid => apiFn(uid)...)]: every call is started, whatever becomes
    of the others; a call is kept with the way it settles. *)
Definition startCalls (uids : list string) (apiFn : string -> M World Json)
    : M World (list (string * Outcome Json)) :=
  mapM (fun uid => r <- settle (apiFn uid) ;; ret (uid, r)) uids.

Definition batchProcess (uids : list string) (apiFn : string -> M World Json)
    : M World BatchResult :=
  let total := length uids in
  updateProgress 0 total ;;
  calls <- startCalls uids apiFn ;;
  st <- foldM (onSettled total calls) (normalizedOrder total) (mkBatchState 0 0 0 []) ;;
  (* [await Promise.all(promises)] *)
  if existsb (fun c => isPending (snd c)) calls then pending
  else ret (mkBatchResult (bs_successCount st) (bs_failedCount st) (bs_failedUids st)).

(* ===================================================================== *)
(** ** Reading the store at a given shape *)
(* ===================================================================== *)

(** The code uses what it reads as an object, or as an array of strings, of
    records, of groups, without a test; each key is only ever written at one
    shape.  A value of another shape makes the first use throw. *)
Definition typeError : string := "TypeError".

Definition asLabelCache {S} (v : Value) : M S (gmap string Z) :=
  match v with VLabelCache c => ret c | _ => throw typeError end.
Definition asLabels {S} (v : Value) : M S (list string) :=
  match v with VLabels l => ret l | _ => throw typeError end.
Definition asHistory {S} (v : Value) : M S (list HistoryEntry) :=
  match v with VHistory h => ret h | _ => throw typeError end.
Definition asFailed {S} (v : Value) : M S (list FailedOperation) :=
  match v with VFailed f => ret f | _ => throw typeError end.

(* ===================================================================== *)
(** ** The label resolver *)
(* ===================================================================== *)

Definition dquote : string := String (ascii_of_nat 34) EmptyString.

(** The callback of [photoDetails.Labels?.find]. *)
Definition labelMatches (labelName : string) (l : LabelEntry) : bool :=
  (Js.toLowerCase (label_Name l) =? Js.toLowerCase labelName)%string
  || (Js.toLowerCase (label_Slug l) =? Js.toLowerCase labelName)%string.

(** [labelCache[labelName]] when it is truthy.  The cache is a plain object:
    an entry of its own is a number, truthy unless it is [0]; where it has
    none, the name is looked up in [Object.prototype], whose members are
    functions and an object, all truthy. *)
Definition cachedId (labelCache : gmap string Z) (labelName : string) : option LabelId :=
  match labelCache !! labelName with
  | Some labelId => if (labelId =? 0)%Z then None else Some (Numeric labelId)
  | None => if Js.inherited labelName then Some (Inherited labelName) else None
  end.

Definition getLabelId (labelName firstUid token : string) : M World LabelId :=
  v <- getInstanceData "labelCache" (VLabelCache ∅) ;;
  labelCache <- asLabelCache v ;;
  match cachedId labelCache labelName with
  | Some labelId => ret labelId
  | None =>
      (* Cache miss, fetch from API *)
      setStatus "Cache miss, fetching label ID from API..." false ;;
      baseUrl <- currentBaseUrl ;;
      let url := baseUrl +:+ "/api/v1/photos/" +:+ firstUid in
      tryCatch
        (response <- fetch (mkRequest GET url token None) ;;
         if negb (rs_ok response) then throw "Failed to fetch photo details for label ID."
         else
           photoDetails <- awaitJson (rs_json response) ;;
           let label := match json_Labels photoDetails with
                        | Some labels => List.find (labelMatches labelName) labels
                        | None => None
                        end in
           match label with
           | None => throw ("Label " +:+ dquote +:+ labelName +:+ dquote
                            +:+ " not found on the photo, cannot determine its ID.")
           | Some l =>
               let labelId := label_ID l in
               setInstanceData "labelCache" (VLabelCache (<[labelName := labelId]> labelCache)) ;;
               ret (Numeric labelId)
           end)
        (fun error => throw ("Failed to get label ID: " +:+ error))
  end.

(* ===================================================================== *)
(** ** Clearing the caches *)
(* ===================================================================== *)

(** [await getCurrentInstanceId()] *)
Definition awaitCurrentInstanceId : M World string :=
  match getCurrentInstanceId with
  | inr instanceId => ret instanceId
  | inl e => throw e
  end.

(** [chrome.storage.local.remove(keys)] *)
Definition storageRemove (keys : list string) : M World unit :=
  modify (fun w => withStorage (foldr delete (storage w) keys) w).

(** [clearLabelCache()], beside the value of the label input. *)
Definition clearLabelCache : M (string * World) unit :=
  i1 <- liftW awaitCurrentInstanceId ;;
  i2 <- liftW awaitCurrentInstanceId ;;
  i3 <- liftW awaitCurrentInstanceId ;;
  i4 <- liftW awaitCurrentInstanceId ;;
  i5 <- liftW awaitCurrentInstanceId ;;
  liftW (storageRemove
           [createInstanceKey "labelCache" i1;
            createInstanceKey "recentLabels" i2;
            createInstanceKey "allLabels" i3;
            createInstanceKey "executionHistory" i4;
            createInstanceKey "failedOperations" i5]) ;;
  setLocal (fun _ => EmptyString) ;;
  liftW (setStatus "All caches cleared." false).

(* ===================================================================== *)
(** ** Recent labels *)
(* ===================================================================== *)

(** [loadRecentLabels()], beside the value of the label input. *)
Definition loadRecentLabels : M (string * World) unit :=
  v <- liftW (getInstanceData "recentLabels" (VLabels [])) ;;
  v' <- liftW (getInstanceData "allLabels" (VLabels [])) ;;
  recentLabels <- asLabels v ;;
  (* Set the most recent label as default in input *)
  match recentLabels with
  | mostRecent :: _ => setLocal (fun _ => mostRecent)
  | [] => ret tt
  end ;;
  (* [updateLabelDatalist(allLabels)] *)
  allLabels <- asLabels v' ;;
  ret tt.

Definition addToRecentLabels (labelName : string) : M World unit :=
  if negb (Js.truthy (Js.trim labelName)) then ret tt
  else
    (* Normalize to lowercase for case-insensitive storage *)
    let normalizedLabel := Js.toLowerCase (Js.trim labelName) in
    v <- getInstanceData "recentLabels" (VLabels []) ;;
    recentLabels <- asLabels v ;;
    v <- getInstanceData "allLabels" (VLabels []) ;;
    allLabels <- asLabels v ;;
    let recentLabels :=
      List.filter (fun label => negb (Js.toLowerCase label =? normalizedLabel)%string)
        recentLabels in
    let recentLabels := normalizedLabel :: recentLabels in
    let recentLabels := take 20 recentLabels in
    let existsInAll :=
      existsb (fun label => (Js.toLowerCase label =? normalizedLabel)%string) allLabels in
    let allLabels :=
      if existsInAll then allLabels else Js.sort (allLabels ++ [normalizedLabel]) in
    setInstanceData "recentLabels" (VLabels recentLabels) ;;
    setInstanceData "allLabels" (VLabels allLabels).

(* ===================================================================== *)
(** ** The execution recorder *)
(* ===================================================================== *)

(** [refreshExecutionHistory] and [refreshFailedOperations] read the store and
    repaint; whatever fails is logged and dropped. *)
Definition refreshExecutionHistory : M World unit :=
  tryCatch
    (v <- getInstanceData "executionHistory" (VHistory []) ;;
     executionHistory <- asHistory v ;;
     ret tt)
    (fun error => ret tt).

Definition refreshFailedOperations : M World unit :=
  tryCatch
    (v <- getInstanceData "failedOperations" (VFailed []) ;;
     failedOperations <- asFailed v ;;
     ret tt)
    (fun error => ret tt).

Definition saveExecutionResult (executionResult : ExecutionResult) : M World unit :=
  now <- dateNow ;;
  let resultWithId := mkHistoryEntry executionResult (pretty now) in
  v <- getInstanceData "executionHistory" (VHistory []) ;;
  executionHistory <- asHistory v ;;
  (* Add to beginning of history (most recent first) *)
  let executionHistory := resultWithId :: executionHistory in
  (* Keep only the 50 most recent executions *)
  let executionHistory := take 50 executionHistory in
  setInstanceData "executionHistory" (VHistory executionHistory) ;;
  refreshExecutionHistory.

(* ===================================================================== *)
(** ** The failure tracker *)
(* ===================================================================== *)

(** [Array.prototype.findIndex]; [None] stands for [-1]. *)
Fixpoint findIndex {A} (p : A -> bool) (l : list A) : option nat :=
  match l with
  | [] => None
  | x :: r => if p x then Some 0 else S <$> findIndex p r
  end.

(** The test shared by [saveFailedOperation] and [removeFailedOperation]. *)
Definition sameGroup (action : Action) (labelName : string) (op : FailedOperation) : bool :=
  (Js.toLowerCase (fo_labelName op) =? Js.toLowerCase labelName)%string
  && Action_eqb (fo_action op) action.

Definition removeFailedOperation (action : Action) (labelName : string) : M World unit :=
  v <- getInstanceData "failedOperations" (VFailed []) ;;
  failedOperations <- asFailed v ;;
  let failedOperations :=
    List.filter (fun op => negb (sameGroup action labelName op)) failedOperations in
  setInstanceData "failedOperations" (VFailed failedOperations) ;;
  refreshFailedOperations.

Definition saveFailedOperation (failedOperation : FailedOperation) : M World unit :=
  v <- getInstanceData "failedOperations" (VFailed []) ;;
  failedOperations <- asFailed v ;;
  let existingIndex :=
    findIndex (sameGroup (fo_action failedOperation) (fo_labelName failedOperation))
      failedOperations in
  let failedOperations :=
    match existingIndex with
    | Some i => <[i := failedOperation]> failedOperations
    | None => failedOperation :: failedOperations
    end in
  (* Keep only the 20 most recent failed operations *)
  let failedOperations := take 20 failedOperations in
  setInstanceData "failedOperations" (VFailed failedOperations) ;;
  refreshFailedOperations.

(* ===================================================================== *)
(** ** The two operations of the popup *)
(* ===================================================================== *)

(** Assignments to the fields of [executionResult] / [retryResult]. *)
Definition withTotalCount (n : nat) (r : ExecutionResult) : ExecutionResult :=
  mkExecutionResult (er_action r) (er_labelName r) n (er_successCount r)
    (er_failedCount r) (er_failedUids r) (er_startTime r) (er_duration r)
    (er_error r) (er_isRetry r).
Definition withBatchResult (b : BatchResult) (r : ExecutionResult) : ExecutionResult :=
  mkExecutionResult (er_action r) (er_labelName r) (er_totalCount r) (successCount b)
    (failedCount b) (failedUids b) (er_startTime r) (er_duration r)
    (er_error r) (er_isRetry r).
Definition withDuration (d : Z) (r : ExecutionResult) : ExecutionResult :=
  mkExecutionResult (er_action r) (er_labelName r) (er_totalCount r) (er_successCount r)
    (er_failedCount r) (er_failedUids r) (er_startTime r) d
    (er_error r) (er_isRetry r).
Definition withError (e : string) (r : ExecutionResult) : ExecutionResult :=
  mkExecutionResult (er_action r) (er_labelName r) (er_totalCount r) (er_successCount r)
    (er_failedCount r) (er_failedUids r) (er_startTime r) (er_duration r)
    (Some e) (er_isRetry r).

(** The batch of one operation: [addLabel] per identifier, or one
    [getLabelId] on the first identifier and then [removeLabel] per
    identifier. *)
Definition runBatch (action : Action) (labelName : string) (uids : list string)
    (firstUid token : string) : M World BatchResult :=
  match action with
  | add => batchProcess uids (fun uid => addLabel uid labelName token)
  | remove =>
      labelId <- getLabelId labelName firstUid token ;;
      batchProcess uids (fun uid => removeLabel uid labelId token)
  end.

Definition finalMessage (r : ExecutionResult) : string :=
  let m := "Operation complete. Success: " +:+ pretty (er_successCount r) in
  if 0 <? er_failedCount r then
    m +:+ ", Failed: " +:+ pretty (er_failedCount r) +:+ ". Click 'Retry Failed' to retry."
  else m +:+ ".".

(** [handleAction(action)], with the content of the label input. *)
Definition handleAction (inputValue : string) (action : Action) : M World unit :=
  let labelName := Js.trim inputValue in
  if negb (Js.truthy labelName) then setStatus "Please enter a label name." true
  else
    setUIProcessingState true ;;
    setStatus "Requesting data from PhotoPrism..." false ;;
    updateProgress 0 0 ;;
    startTime <- dateNow ;;
    startStamp <- dateNow ;;
    runLocal (mkExecutionResult action labelName 0 0 0 [] startStamp 0 None false)
      (tryFinally
         (tryCatch
            (data <- liftW getPhotoPrismData ;;
             let uids := pd_uids data in
             let token := pd_token data in
             match uids with
             | [] => throw "No photos selected. Please select photos in PhotoPrism first."
             | firstUid :: _ =>
                 setLocal (withTotalCount (length uids)) ;;
                 liftW (setStatus ("Processing " +:+ pretty (length uids) +:+ " photos...") false) ;;
                 result <- liftW (runBatch action labelName uids firstUid token) ;;
                 setLocal (withBatchResult result) ;;
                 (* Save execution result *)
                 now <- liftW dateNow ;;
                 setLocal (withDuration (now - startTime)%Z) ;;
                 executionResult <- getLocal ;;
                 liftW (saveExecutionResult executionResult) ;;
                 (* Save failed operations *)
                 match er_failedUids executionResult with
                 | _ :: _ =>
                     stamp <- liftW dateNow ;;
                     liftW (saveFailedOperation
                              (mkFailedOperation action labelName
                                 (er_failedUids executionResult) stamp 0))
                 | [] => liftW (removeFailedOperation action (Js.toLowerCase labelName))
                 end ;;
                 (* Update recent labels *)
                 liftW (addToRecentLabels labelName) ;;
                 liftW (setStatus (finalMessage executionResult)
                          (0 <? er_failedCount executionResult))
             end)
            (fun error =>
               setLocal (withError error) ;;
               now <- liftW dateNow ;;
               setLocal (withDuration (now - startTime)%Z) ;;
               executionResult <- getLocal ;;
               liftW (saveExecutionResult executionResult) ;; (* Save error result *)
               liftW (setStatus error true) ;;
               liftW refreshFailedOperations))
         (liftW (setUIProcessingState false))).

Definition forceRefreshAllDisplays : M World unit :=
  match forceRefreshAllDisplays_throws env with
  | Some e => throw e
  | None => ret tt
  end.

(** [retryFailedOperation(index)] *)
Definition retryFailedOperation (index : nat) : M World unit :=
  v <- getInstanceData "failedOperations" (VFailed []) ;;
  failedOperations <- asFailed v ;;
  match failedOperations !! index with
  | None => ret tt
  | Some operation =>
      let labelName := fo_labelName operation in
      let failedUids := fo_failedUids operation in
      let action := fo_action operation in
      match failedUids with
      | [] => ret tt
      | firstUid :: _ =>
          setUIProcessingState true ;;
          setStatus ("Retrying " +:+ pretty (length failedUids) +:+ " failed photos...") false ;;
          updateProgress 0 (length failedUids) ;;
          startTime <- dateNow ;;
          startStamp <- dateNow ;;
          runLocal
            (mkExecutionResult action labelName (length failedUids) 0 0 [] startStamp 0 None true)
            (tryFinally
               (tryCatch
                  (data <- liftW getPhotoPrismData ;;
                   let token := pd_token data in
                   result <- liftW (runBatch action labelName failedUids firstUid token) ;;
                   setLocal (withBatchResult result) ;;
                   retryResult <- getLocal ;;
                   (* Update the failed operation with new results *)
                   match er_failedUids retryResult with
                   | [] =>
                       (* All succeeded, remove from failed operations *)
                       liftW (setInstanceData "failedOperations"
                                (VFailed (delete index failedOperations)))
                   | _ :: _ =>
                       (* Still have failures, update the failed UIDs *)
                       stamp <- liftW dateNow ;;
                       liftW (setInstanceData "failedOperations"
                                (VFailed (<[index :=
                                   mkFailedOperation (fo_action operation)
                                     (fo_labelName operation)
                                     (er_failedUids retryResult) stamp
                                     (S (fo_retryCount operation))]> failedOperations)))
                   end ;;
                   liftW forceRefreshAllDisplays)
                  (fun error =>
                     setLocal (withError error) ;;
                     liftW (setStatus error true)))
               (now <- liftW dateNow ;;
                setLocal (withDuration (now - startTime)%Z) ;;
                retryResult <- getLocal ;;
                liftW (saveExecutionResult retryResult) ;;
                liftW refreshExecutionHistory ;;
                liftW refreshFailedOperations ;;
                liftW (setUIProcessingState false)))
      end
  end.

End Engine.

(* ===================================================================== *)
(** ** content.js: the content script *)
(* ===================================================================== *)

(** The object kept under ['pluginConfig']; each member may be absent. *)
Record Config := mkConfig {
  allowedDomains : option (list string);
  debugEnabled : option bool;
  version : option string
}.

(** What the content script sends back: [{ success: true, data: { uids,
    token } }] or [{ success: false, error }]. *)
Inductive Reply :=
| ReplyData (uids : list string) (token : string)
| ReplyError (error : string).

(** What a page offers to the script that runs in it. *)
Record PageEnv := mkPageEnv {
  (** [window.location.href] *)
  location_href : string;
  (** [new URL(s)]; [None] when the constructor throws *)
  newURL : string -> option Url;
  (** [new RegExp(source).test(subject)]; [None] when the constructor throws *)
  regExpTest : string -> string -> option bool;
  (** [localStorage.getItem(key)]: the message it throws with, or the item,
      [None] standing for [null] *)
  getItem : string -> string + option string;
  (** [JSON.parse(text)] of the clipboard: the message it throws with, or the
      identifiers *)
  parseUids : string -> string + list string
}.

Module Content.

Definition DEFAULT_CONFIG : Config :=
  mkConfig (Some ["https://demo.photoprism.app"]) None None.

(** [s.includes('*')] *)
Fixpoint includesStar (s : string) : bool :=
  match s with
  | EmptyString => false
  | String c r => Ascii.eqb c "*"%char || includesStar r
  end.

(** [s.replace(/\*/g, '.*')] *)
Fixpoint replaceStars (s : string) : string :=
  match s with
  | EmptyString => EmptyString
  | String c r =>
      if Ascii.eqb c "*"%char then String "."%char (String "*"%char (replaceStars r))
      else String c (replaceStars r)
  end.

(** [Array.prototype.some] with a callback that may throw: [None] when it
    does, at the first element for which it does. *)
Fixpoint some {A} (f : A -> option bool) (l : list A) : option bool :=
  match l with
  | [] => Some false
  | x :: r =>
      match f x with
      | Some true => Some true
      | Some false => some f r
      | None => None
      end
  end.

Section Script.

Variable page : PageEnv.

(** The callback of [allowedDomains.some]. *)
Definition domainAllows (baseUrl domain : string) : option bool :=
  if (domain =? baseUrl)%string then Some true
  else if includesStar domain then
    let pattern := replaceStars domain in
    regExpTest page ("^" +:+ pattern +:+ "$") baseUrl
  else Some false.

(** [isUrlAllowed(url, allowedDomains)]; [None] for an [allowedDomains] that
    is [null] or [undefined]. *)
Definition isUrlAllowed (url : string) (allowedDomains : option (list string)) : bool :=
  match allowedDomains with
  | None | Some [] => false
  | Some domains =>
      match newURL page url with
      | None => false
      | Some urlObj =>
          let baseUrl := url_protocol urlObj +:+ "//" +:+ url_host urlObj in
          default false (some (domainAllows baseUrl) domains)
      end
  end.

(** [isPluginEnabled()], from what the store holds under ['pluginConfig'];
    the store is taken to answer. *)
Definition isPluginEnabled (pluginConfig : option Config) : bool :=
  let config := default DEFAULT_CONFIG pluginConfig in
  let currentUrl := location_href page in
  let allowedDomains := default [] (allowedDomains config) in
  isUrlAllowed currentUrl (Some allowedDomains).

(** The [try] block of [handleGetPhotoPrismData]: the clipboard, parsed, and
    the token. *)
Definition readLocalStorage : string + (list string * option string) :=
  match getItem page "clipboard.photos" with
  | inl e => inl e
  | inr item =>
      let text := match item with
                  | Some s => if Js.truthy s then s else "[]"
                  | None => "[]"
                  end in
      match parseUids page text with
      | inl e => inl e
      | inr uids =>
          match getItem page "session.token" with
          | inl e => inl e
          | inr token => inr (uids, token)
          end
      end
  end.

(** [handleGetPhotoPrismData]: the argument of the one call of
    [sendResponse] it makes. *)
Definition handleGetPhotoPrismData (pluginConfig : option Config) : Reply :=
  let enabled := isPluginEnabled pluginConfig in
  if negb enabled then ReplyError "Plugin is disabled for this page"
  else
    match readLocalStorage with
    | inr (uids, Some token) =>
        if Js.truthy token then ReplyData uids token
        else ReplyError "Authentication token not found. Please log in to PhotoPrism."
    | inr (uids, None) =>
        ReplyError "Authentication token not found. Please log in to PhotoPrism."
    | inl e => ReplyError ("Failed to read data from localStorage. Error: " +:+ e)
    end.

End Script.

End Content.

(* ===================================================================== *)
(** ** popup.js: the answer of the content script *)
(* ===================================================================== *)

(** [hay.includes(needle)] *)
Fixpoint includes (needle hay : string) : bool :=
  String.prefix needle hay
  || match hay with
     | EmptyString => false
     | String _ r => includes needle r
     end.

Definition nl : string := String (ascii_of_nat 10) EmptyString.

(** The callback that [getPhotoPrismData] hands to [chrome.tabs.sendMessage],
    from [chrome.runtime.lastError] ([Some None]: an error with no message)
    and from the response ([None]: [undefined]): the promise is resolved,
    rejected, or left unsettled when the callback itself throws. *)
Definition onPhotoPrismDataResponse (lastError : option (option string))
    (response : option Reply) : Outcome PageData :=
  match lastError with
  | Some message =>
      let errorMessage :=
        match message with
        | Some m => if Js.truthy m then m else "Unknown error"
        | None => "Unknown error"
        end in
      let enhancedMessage := "Could not communicate with PhotoPrism page. " in
      let enhancedMessage :=
        if includes "Receiving end does not exist" errorMessage then
          enhancedMessage +:+
          ("This usually means:" +:+ nl +:+ nl +:+
           "1. You're not on a PhotoPrism page - please navigate to your PhotoPrism instance" +:+ nl +:+
           "2. This PhotoPrism instance hasn't been added to the extension - please:" +:+ nl +:+
           "   • Click the settings button below" +:+ nl +:+
           "   • Add your PhotoPrism URL to the allowed instances" +:+ nl +:+
           "   • Refresh the PhotoPrism page and try again" +:+ nl +:+ nl +:+
           "Error: " +:+ errorMessage)
        else if includes "Could not establish connection" errorMessage then
          enhancedMessage +:+
          ("This might be a permission issue. Please:" +:+ nl +:+ nl +:+
           "1. Ensure you're on a PhotoPrism page" +:+ nl +:+
           "2. Check if the extension has permission for this site" +:+ nl +:+
           "3. Add this URL to allowed instances in settings" +:+ nl +:+
           "4. Refresh the page and try again" +:+ nl +:+ nl +:+
           "Error: " +:+ errorMessage)
        else
          enhancedMessage +:+
          ("Please ensure you are on a PhotoPrism page and refresh if needed. Error: "
           +:+ errorMessage) in
      Thrown enhancedMessage
  | None =>
      match response with
      | Some (ReplyData uids token) => Returned (mkPageData uids token)
      | Some (ReplyError error) =>
          let errorMsg := if Js.truthy error then error else "An unknown error occurred." in
          if includes "not authorized" errorMsg || includes "permission" errorMsg then
            Thrown ("Authorization error. Please check:" +:+ nl +:+ nl +:+
                    "1. You're logged into PhotoPrism" +:+ nl +:+
                    "2. Your session hasn't expired" +:+ nl +:+
                    "3. The extension has permission for this site" +:+ nl +:+
                    "4. This PhotoPrism instance is added to extension settings" +:+ nl +:+ nl +:+
                    "Details: " +:+ errorMsg)
          else Thrown errorMsg
      | None => Pending
      end
  end.

(* ===================================================================== *)
(** ** config.js: the configuration page *)
(* ===================================================================== *)

Module ConfigPage.

(** The store holds the configuration under ['pluginConfig'] and the data of
    the popup under the keys of the instances; no key of one kind is a key of
    the other, and the two parts are kept apart: the first in the state of
    the page, the second in the [World].  The page changes the object
    [DEFAULT_CONFIG] in place where it uses it for want of a stored
    configuration, so the object is part of the state.  Of the display, the
    rows of the list of domains, the input, the validation message, the
    status line (without the timer that hides it) and the check box are
    kept; [sent] lists the configurations handed to [chrome.tabs] for the
    content scripts.  The store answers every call of the page:
    [chrome.runtime.lastError] is never set, and no promise of the store is
    rejected. *)
Record State := mkState {
  pluginConfig : option Config;
  DEFAULT_CONFIG : Config;
  newDomain_value : string;
  validation_text : string;
  validation_shown : bool;
  status_line : option (string * bool);
  domain_rows : list string;
  debugCheckbox : option bool;
  sent : list Config
}.

Definition initialDefault : Config :=
  mkConfig (Some ["https://demo.photoprism.app"]) (Some false) (Some "1.0.0").

Definition withPluginConfig (c : option Config) (s : State) : State :=
  mkState c (DEFAULT_CONFIG s) (newDomain_value s) (validation_text s) (validation_shown s)
    (status_line s) (domain_rows s) (debugCheckbox s) (sent s).
Definition withDefault (c : Config) (s : State) : State :=
  mkState (pluginConfig s) c (newDomain_value s) (validation_text s) (validation_shown s)
    (status_line s) (domain_rows s) (debugCheckbox s) (sent s).
Definition withNewDomain (v : string) (s : State) : State :=
  mkState (pluginConfig s) (DEFAULT_CONFIG s) v (validation_text s) (validation_shown s)
    (status_line s) (domain_rows s) (debugCheckbox s) (sent s).
Definition withValidation (t : string) (shown : bool) (s : State) : State :=
  mkState (pluginConfig s) (DEFAULT_CONFIG s) (newDomain_value s) t shown
    (status_line s) (domain_rows s) (debugCheckbox s) (sent s).
Definition withStatusLine (l : option (string * bool)) (s : State) : State :=
  mkState (pluginConfig s) (DEFAULT_CONFIG s) (newDomain_value s) (validation_text s)
    (validation_shown s) l (domain_rows s) (debugCheckbox s) (sent s).
Definition withRows (r : list string) (s : State) : State :=
  mkState (pluginConfig s) (DEFAULT_CONFIG s) (newDomain_value s) (validation_text s)
    (validation_shown s) (status_line s) r (debugCheckbox s) (sent s).
Definition withCheckbox (b : option bool) (s : State) : State :=
  mkState (pluginConfig s) (DEFAULT_CONFIG s) (newDomain_value s) (validation_text s)
    (validation_shown s) (status_line s) (domain_rows s) b (sent s).
Definition withSent (l : list Config) (s : State) : State :=
  mkState (pluginConfig s) (DEFAULT_CONFIG s) (newDomain_value s) (validation_text s)
    (validation_shown s) (status_line s) (domain_rows s) (debugCheckbox s) l.

(** [{ ...config, allowedDomains: domains }] *)
Definition withAllowedDomains (domains : list string) (c : Config) : Config :=
  mkConfig (Some domains) (debugEnabled c) (version c).
(** [config.debugEnabled = isEnabled] *)
Definition withDebugEnabled (isEnabled : bool) (c : Config) : Config :=
  mkConfig (allowedDomains c) (Some isEnabled) (version c).

Section Page.

(** [new URL(s)] *)
Variable newURL : string -> option Url.

Definition showValidation (message : string) : M State unit :=
  modify (withValidation message true).

Definition hideValidation : M State unit :=
  modify (fun s => withValidation (validation_text s) false s).

Definition showStatus (message : string) (isError : bool) : M State unit :=
  modify (withStatusLine (Some (message, isError))).

Definition displayDomains (domains : list string) : M State unit :=
  modify (withRows domains).

Definition updateContentScripts (config : Config) : M State unit :=
  modify (fun s => withSent (sent s ++ [config]) s).

Definition isValidUrl (url : string) : bool :=
  match newURL url with
  | Some urlObj =>
      (url_protocol urlObj =? "http:")%string || (url_protocol urlObj =? "https:")%string
  | None => false
  end.

Definition normalizeUrl (url : string) : string :=
  match newURL url with
  | Some urlObj => url_protocol urlObj +:+ "//" +:+ url_host urlObj
  | None => url
  end.

(** [result.pluginConfig || DEFAULT_CONFIG] *)
Definition currentConfig (s : State) : Config :=
  default (DEFAULT_CONFIG s) (pluginConfig s).

Definition loadConfiguration : M State unit :=
  config <- gets currentConfig ;;
  displayDomains (default [] (allowedDomains config)) ;;
  showStatus "Configuration loaded successfully" false.

(** [domains.includes(normalizedUrl)] *)
Definition domainsInclude (domains : list string) (normalizedUrl : string) : bool :=
  existsb (fun d => (d =? normalizedUrl)%string) domains.

Definition addDomain : M State unit :=
  value <- gets newDomain_value ;;
  let url := Js.trim value in
  if negb (Js.truthy url) then showValidation "Please enter a domain URL"
  else if negb (isValidUrl url) then
    showValidation "Please enter a valid URL (e.g., https://demo.photoprism.app)"
  else
    let normalizedUrl := normalizeUrl url in
    stored <- gets pluginConfig ;;
    config <- gets currentConfig ;;
    let domains := default [] (allowedDomains config) in
    if domainsInclude domains normalizedUrl then
      showValidation "This domain is already configured"
    else
      (* [domains.push(normalizedUrl)]: the array is that of [config], which
         is [DEFAULT_CONFIG] itself when nothing is stored *)
      let domains' := domains ++ [normalizedUrl] in
      match stored, allowedDomains config with
      | None, Some _ => modify (fun s => withDefault (withAllowedDomains domains' config) s)
      | _, _ => ret tt
      end ;;
      let newConfig := withAllowedDomains domains' config in
      modify (withPluginConfig (Some newConfig)) ;;
      displayDomains domains' ;;
      modify (withNewDomain EmptyString) ;;
      hideValidation ;;
      showStatus "Instance added successfully" false ;;
      updateContentScripts newConfig.

Definition removeDomain (index : Z) : M State unit :=
  config <- gets currentConfig ;;
  let domains := default [] (allowedDomains config) in
  if ((0 <=? index)%Z && (index <? Z.of_nat (length domains))%Z) then
    let removedDomain := default EmptyString (domains !! Z.to_nat index) in
    let domains' := delete (Z.to_nat index) domains in
    let newConfig := withAllowedDomains domains' config in
    modify (withPluginConfig (Some newConfig)) ;;
    displayDomains domains' ;;
    showStatus ("Removed " +:+ removedDomain) false ;;
    updateContentScripts newConfig
  else ret tt.

Definition loadDebugSettings : M State unit :=
  config <- gets currentConfig ;;
  checkbox <- gets debugCheckbox ;;
  match checkbox with
  | Some _ => modify (withCheckbox (Some (default false (debugEnabled config))))
  | None => ret tt
  end.

Definition saveDebugSettings : M State unit :=
  checkbox <- gets debugCheckbox ;;
  let isEnabled := default false checkbox in
  stored <- gets pluginConfig ;;
  config <- gets currentConfig ;;
  (* [config.debugEnabled = isEnabled], on [DEFAULT_CONFIG] itself when
     nothing is stored *)
  let config' := withDebugEnabled isEnabled config in
  match stored with
  | None => modify (withDefault config')
  | Some _ => ret tt
  end ;;
  modify (withPluginConfig (Some config')) ;;
  showStatus "Debug settings saved" false.

End Page.

(** *** The buttons that clear the data of the popup *)

Definition clearLabelCache : M (State * World) unit :=
  liftL (showStatus "Clearing label cache..." false) ;;
  liftW (storageRemove ["labelCache"]) ;;
  liftL (showStatus "Label cache cleared successfully" false).

Definition clearRecentLabels : M (State * World) unit :=
  liftL (showStatus "Clearing recent labels..." false) ;;
  liftW (storageRemove ["recentLabels"; "allLabels"]) ;;
  liftL (showStatus "Recent labels cleared successfully" false).

Definition clearExecutionHistory : M (State * World) unit :=
  liftL (showStatus "Clearing execution history..." false) ;;
  liftW (storageRemove ["executionHistory"]) ;;
  liftL (showStatus "Execution history cleared successfully" false).

Definition clearFailedOperations : M (State * World) unit :=
  liftL (showStatus "Clearing failed operations..." false) ;;
  liftW (storageRemove ["failedOperations"]) ;;
  liftL (showStatus "Failed operations cleared successfully" false).

Definition clearAllCache : M (State * World) unit :=
  liftL (showStatus "Clearing cache..." false) ;;
  liftW (storageRemove
           ["labelCache"; "recentLabels"; "allLabels"; "executionHistory";
            "failedOperations"]) ;;
  liftL (showStatus "All cache cleared successfully" false).

End ConfigPage.

(* ===================================================================== *)
(** * Vocabulary of the properties *)
(* ===================================================================== *)

Section Vocabulary.

Variable env : Env.
Variable inst : string.

(** How the call at a position settled. *)
Definition fulfilledAt (calls : list (string * Outcome Json)) (i : nat) : bool :=
  match calls !! i with Some (_, Returned _) => true | _ => false end.

Definition rejectedAt (calls : list (string * Outcome Json)) (i : nat) : bool :=
  match calls !! i with Some (_, Thrown _) => true | _ => false end.

Definition rejectedUid (calls : list (string * Outcome Json)) (i : nat) : option string :=
  match calls !! i with Some (uid, Thrown _) => Some uid | _ => None end.

(** The five keys of the engine for the instance [inst]. *)
Definition cacheKey : string := createInstanceKey "labelCache" inst.

Definition recentKey : string := createInstanceKey "recentLabels" inst.

Definition allKey : string := createInstanceKey "allLabels" inst.

Definition historyKey : string := createInstanceKey "executionHistory" inst.

Definition failedKey : string := createInstanceKey "failedOperations" inst.

(** What the engine reads back from the store. *)
Definition historyIn (s : gmap string Value) : Value := default (VHistory []) (s !! historyKey).

Definition failedIn (s : gmap string Value) : Value := default (VFailed []) (s !! failedKey).

Definition cacheIn (s : gmap string Value) : Value := default (VLabelCache ∅) (s !! cacheKey).

Definition recentIn (s : gmap string Value) : Value := default (VLabels []) (s !! recentKey).

Definition allIn (s : gmap string Value) : Value := default (VLabels []) (s !! allKey).

(** Two worlds with the same store and the same requests, and a computation
    that cannot tell them apart. *)
Definition sameNet (w1 w2 : World) : Prop :=
  storage w1 = storage w2 /\ requests w1 = requests w2.

Definition netLocal {A} (m : M World A) : Prop :=
  forall w1 w2, sameNet w1 w2 ->
    fst (m w1) = fst (m w2) /\ sameNet (snd (m w1)) (snd (m w2)).

(** The requests of the three endpoints. *)
Definition detailRequest (firstUid token : string) : Request :=
  mkRequest GET (inst +:+ "/api/v1/photos/" +:+ firstUid) token None.

Definition addRequest (labelName token uid : string) : Request :=
  mkRequest POST (inst +:+ "/api/v1/photos/" +:+ uid +:+ "/label") token (Some labelName).

Definition removeRequest (labelId : LabelId) (token uid : string) : Request :=
  mkRequest DELETE (inst +:+ "/api/v1/photos/" +:+ uid +:+ "/label/" +:+ labelIdText labelId)
    token None.

(** The label the detail of a photo holds under a name, if the detail came
    back usable. *)
Definition labelOnPhoto (labelName : string) (r : FetchResult) : option LabelEntry :=
  match r with
  | Responded response =>
      if rs_ok response then
        match rs_json response with
        | Some photoDetails =>
            match json_Labels photoDetails with
            | Some labels => List.find (labelMatches labelName) labels
            | None => None
            end
        | None => None
        end
      else None
  | _ => None
  end.

(** How one call settles, from what the transport answers. *)
Definition addOutcome (url : string) (answer : FetchResult) : Outcome Json :=
  match answer with
  | Responded response =>
      if rs_ok response then
        match rs_json response with
        | Some j => Returned j
        | None => Thrown jsonSyntaxError
        end
      else Thrown ("Failed to add label to " +:+ url +:+ ": "
                   +:+ ("API Error: " +:+ pretty (rs_status response) +:+ " - "
                        +:+ rs_text response))
  | NetworkError e => Thrown ("Failed to add label to " +:+ url +:+ ": " +:+ e)
  | NeverSettles => Pending
  end.

Definition removeOutcome (answer : FetchResult) : Outcome Json :=
  match answer with
  | Responded response =>
      if rs_ok response || (rs_status response =? 404)%Z then
        match rs_json response with
        | Some j => Returned j
        | None => Thrown jsonSyntaxError
        end
      else Thrown ("Failed to remove label: "
                   +:+ ("API Error: " +:+ pretty (rs_status response) +:+ " - "
                        +:+ rs_text response))
  | NetworkError e => Thrown ("Failed to remove label: " +:+ e)
  | NeverSettles => Pending
  end.

(** A batch whose calls each issue one request and leave the store alone
    issues one request per identifier, in the order of the identifiers, and
    leaves the store alone. *)
Definition oneRequestEach (apiFn : string -> M World Json) (rqOf : string -> Request) : Prop :=
  forall uid w,
    requests (snd (apiFn uid w)) = requests w ++ [rqOf uid]
    /\ storage (snd (apiFn uid w)) = storage w.

(** The key of a group: its action and its label name in lower case. *)
Definition groupKey (op : FailedOperation) : Action * string :=
  (fo_action op, Js.toLowerCase (fo_labelName op)).

(** At most one group per key, at most 20 groups. *)
Definition trackerInvariant (l : list FailedOperation) : Prop :=
  NoDup (groupKey <$> l) /\ length l <= 20.

(** What [saveFailedOperation] and [removeFailedOperation] write back, as
    functions of what they read. *)
Definition reported (op : FailedOperation) (l : list FailedOperation) : list FailedOperation :=
  take 20
    (match findIndex (sameGroup (fo_action op) (fo_labelName op)) l with
     | Some i => <[i := op]> l
     | None => op :: l
     end).

Definition cleared (action : Action) (labelName : string) (l : list FailedOperation)
    : list FailedOperation :=
  List.filter (fun op => negb (sameGroup action labelName op)) l.

(** What [addToRecentLabels] writes back, as functions of what it reads. *)
Definition normalized (labelName : string) : string := Js.toLowerCase (Js.trim labelName).

Definition recentAfter (labelName : string) (recentLabels : list string) : list string :=
  take 20
    (normalized labelName
     :: List.filter (fun label => negb (Js.toLowerCase label =? normalized labelName)%string)
          recentLabels).

Definition allAfter (labelName : string) (allLabels : list string) : list string :=
  if existsb (fun label => (Js.toLowerCase label =? normalized labelName)%string) allLabels
  then allLabels
  else Js.sort (allLabels ++ [normalized labelName]).

(** The world once the retry of group [g] has announced itself and read the
    clock twice. *)
Definition retryStart (g : FailedOperation) (w : World) : World :=
  withClockReads (S (S (clockReads w)))
    (withProgress (progress w ++ [(0, length (fo_failedUids g))])
       (withStatus
          ("Retrying " +:+ pretty (length (fo_failedUids g)) +:+ " failed photos...", false)
          (withProcessing true w))).

(** [retryResult] as first built. *)
Definition retryResult0 (g : FailedOperation) (w : World) : ExecutionResult :=
  mkExecutionResult (fo_action g) (fo_labelName g) (length (fo_failedUids g)) 0 0 []
    (clock env (S (clockReads w))) 0 None true.

(** The page data and the batch: what the [try] block attempts first. *)
Definition retryAttempt (g : FailedOperation) (firstUid : string) (w : World)
    : Outcome BatchResult * World :=
  match pageData env with
  | inl e => (Thrown e, retryStart g w)
  | inr data =>
      runBatch env (fo_action g) (fo_labelName g) (fo_failedUids g) firstUid
        (pd_token data) (retryStart g w)
  end.

(** The [finally] block. *)
Definition retryFinally (startTime : Z) (retryResult : ExecutionResult) : M World unit :=
  now <- dateNow env ;;
  saveExecutionResult env (withDuration (now - startTime)%Z retryResult) ;;
  refreshExecutionHistory env ;;
  refreshFailedOperations env ;;
  setUIProcessingState false.

(** The group as a partial retry rewrites it. *)
Definition retried (g : FailedOperation) (uids : list string) (stamp : Z) : FailedOperation :=
  mkFailedOperation (fo_action g) (fo_labelName g) uids stamp (S (fo_retryCount g)).

(** The world once the outcome of the batch has been written to the tracker. *)
Definition retryWritten (i : nat) (l : list FailedOperation) (g : FailedOperation)
    (res : BatchResult) (w3 : World) : World :=
  match failedUids res with
  | [] => withStorage (<[failedKey := VFailed (delete i l)]> (storage w3)) w3
  | _ :: _ =>
      withStorage
        (<[failedKey :=
             VFailed (<[i := retried g (failedUids res) (clock env (clockReads w3))]> l)]>
           (storage w3))
        (withClockReads (S (clockReads w3)) w3)
  end.

(** The failure groups, and the execution log, as the engine reads them from
    the store of a world. *)
Definition failureGroupsAre (w : World) (l : list FailedOperation) : Prop :=
  getInstanceData env "failedOperations" (VFailed []) w = (Returned (VFailed l), w).

Definition historyIs (w : World) (h : list HistoryEntry) : Prop :=
  getInstanceData env "executionHistory" (VHistory []) w = (Returned (VHistory h), w).

(** The invariant of the tracker, on the store of a world. *)
Definition storeInvariant (w : World) : Prop :=
  exists l, failureGroupsAre w l /\ trackerInvariant l.

(** The per-item requests of a batch. *)
Definition itemRequests (action : Action) (labelName : string) (labelId : LabelId)
    (token : string) (uids : list string) : list Request :=
  match action with
  | add => map (addRequest labelName token) uids
  | remove => map (removeRequest labelId token) uids
  end.

(** A computation that leaves a view of its state as it found it. *)
Definition keeps {S V A} (view : S -> V) (m : M S A) : Prop :=
  forall s, view (snd (m s)) = view s.

(** The requests, seen from beside a local variable. *)
Definition requestsOf {L} (s : L * World) : list Request := requests (snd s).

(** The world in which [handleAction] asks for the page data, and the world in
    which it runs the batch of [n] identifiers. *)
Definition handleStart (w : World) : World :=
  withClockReads (S (S (clockReads w)))
    (withProgress (progress w ++ [(0, 0)])
       (withStatus ("Requesting data from PhotoPrism...", false)
          (withProcessing true w))).

Definition handleProcessing (n : nat) (w : World) : World :=
  withStatus ("Processing " +:+ pretty n +:+ " photos...", false) (handleStart w).

(** [executionResult] as first built. *)
Definition executionResult0 (action : Action) (labelName : string) (w : World)
    : ExecutionResult :=
  mkExecutionResult action labelName 0 0 0 [] (clock env (S (clockReads w))) 0 None false.

(** The world in which the [try] block of [handleAction] stops being about
    the transport: where the page data failed, or where the batch ended. *)
Definition handleAttempted (action : Action) (labelName : string) (w : World) : World :=
  match pageData env with
  | inl e => handleStart w
  | inr data =>
      match pd_uids data with
      | [] => handleStart w
      | firstUid :: _ =>
          snd (runBatch env action labelName (pd_uids data) firstUid (pd_token data)
                 (handleProcessing (length (pd_uids data)) w))
      end
  end.

End Vocabulary.

(** The base keys under which the popup stores. *)
Definition engineKeys : list string :=
  ["labelCache"; "recentLabels"; "allLabels"; "executionHistory"; "failedOperations"].

(** A string that holds no underscore. *)
Fixpoint noUnderscore (s : string) : bool :=
  match s with
  | EmptyString => true
  | String c r => negb (Ascii.eqb c "_"%char) && noUnderscore r
  end.

(** The call at a position has settled, one way or the other. *)
Definition settledAt (calls : list (string * Outcome Json)) (i : nat) : bool :=
  fulfilledAt calls i || rejectedAt calls i.

(** The reports [(from + 1, total)], ..., [(from + m, total)]. *)
Definition progressReports (total from m : nat) : list (nat * nat) :=
  map (fun k => (k, total)) (seq (S from) m).

(** A string made of white space only. *)
Fixpoint allWhite (s : string) : bool :=
  match s with
  | EmptyString => true
  | String c r => Js.isWhite c && allWhite r
  end.

(** The error of an action started with no photo selected. *)
Definition noPhotosError : string :=
  "No photos selected. Please select photos in PhotoPrism first.".

Section StoreVocabulary.

Variable env : Env.
Variable inst : string.

Definition labelCacheIs (w : World) (cache : gmap string Z) : Prop :=
  getInstanceData env "labelCache" (VLabelCache ∅) w = (Returned (VLabelCache cache), w).

Definition recentLabelsAre (w : World) (l : list string) : Prop :=
  getInstanceData env "recentLabels" (VLabels []) w = (Returned (VLabels l), w).

Definition allLabelsAre (w : World) (l : list string) : Prop :=
  getInstanceData env "allLabels" (VLabels []) w = (Returned (VLabels l), w).

(** Under each key of the engine the store holds nothing, or a value of the
    shape the engine writes there. *)
Definition storeShaped (w : World) : Prop :=
  (exists cache, labelCacheIs w cache)
  /\ (exists l, recentLabelsAre w l)
  /\ (exists l, allLabelsAre w l)
  /\ (exists h, historyIs env w h)
  /\ (exists l, failureGroupsAre env w l).

Definition shapedStore (s : gmap string Value) : Prop :=
  (exists cache, cacheIn inst s = VLabelCache cache)
  /\ (exists l, recentIn inst s = VLabels l)
  /\ (exists l, allIn inst s = VLabels l)
  /\ (exists h, historyIn inst s = VHistory h)
  /\ (exists l, failedIn inst s = VFailed l).

End StoreVocabulary.

(** A list of labels in ascending order of code units. *)
Definition sortedLabels (l : list string) : Prop :=
  Sorted (fun x y => String.leb x y = true) l.

(** A list of labels no two of which are equal up to case. *)
Definition distinctLabels (l : list string) : Prop := NoDup (Js.toLowerCase <$> l).

(** The domains that the configuration page works on. *)
Definition domainsOf (s : ConfigPage.State) : list string :=
  default [] (allowedDomains (ConfigPage.currentConfig s)).

(** The origin of a parsed address: protocol and host. *)
Definition origin (u : Url) : string := url_protocol u +:+ "//" +:+ url_host u.

(* ===================================================================== *)
(** * Environments and worlds of the examples *)
(* ===================================================================== *)

(** A popup opened with no active tab. *)
Definition envNoTab : Env :=
  mkEnv None (fun _ => None) (inl "no page") (fun _ _ => NeverSettles)
    (fun _ => 0%Z) [] None.

(** A popup just opened: nothing stored, nothing requested. *)
Definition emptyWorld : World := mkWorld ∅ [] 0 [] (EmptyString, false) false.

Definition demoTab : Tab := mkTab (Some "https://demo.photoprism.app/library/browse").

Definition demoParse (s : string) : option Url := Some (mkUrl "https:" "demo.photoprism.app").

Definition demoInstance : string := "https://demo.photoprism.app".

Definition okResponse : Response := mkResponse 200 "{}" (Some (mkJson None)).

(** An environment from the page data, the transport, the clock and the
    order of completion. *)
Definition demoEnv (data : string + PageData) (oracle : nat -> Request -> FetchResult)
    (time : nat -> Z) (order : list nat) : Env :=
  mkEnv (Some demoTab) demoParse data oracle time order None.

(** A clock that stands still, in front of a service that never answers. *)
Definition frozenClockEnv : Env :=
  demoEnv (inl "unused") (fun _ _ => NeverSettles) (fun _ => 1700000000000%Z) [].

Definition someResult (labelName : string) : ExecutionResult :=
  mkExecutionResult add labelName 1 1 0 [] 1700000000000 0 None false.

(** A service, or a proxy in front of it, that answers every request with
    404 and a body that is plain text. *)
Definition plain404 : Response := mkResponse 404 "404 page not found" None.

Definition plain404Env : Env :=
  demoEnv (inr (mkPageData ["x1"] "tok")) (fun _ _ => Responded plain404)
    (fun n => Z.of_nat n) [].

(** The same answer with a JSON body, as the service words it. *)
Definition json404 : Response := mkResponse 404 "{error: Not found}" (Some (mkJson None)).

Definition json404Env : Env :=
  demoEnv (inr (mkPageData ["x1"] "tok")) (fun _ _ => Responded json404)
    (fun n => Z.of_nat n) [].

(** A photo that carries the label "Cat". *)
Definition catPhoto : Response :=
  mkResponse 200 "{...}" (Some (mkJson (Some [mkLabelEntry 7 "Cat" "cat"]))).

Definition catEnv : Env :=
  demoEnv (inr (mkPageData ["x1"] "tok")) (fun _ _ => Responded catPhoto)
    (fun n => Z.of_nat n) [].

(** A service on which the label cannot be added to photo "x3": every
    [POST] for it is answered with status 500. *)
Definition x3FailsOracle (n : nat) (rq : Request) : FetchResult :=
  if (rq_url rq =? "https://demo.photoprism.app/api/v1/photos/x3/label")%string
  then Responded (mkResponse 500 "boom" None)
  else Responded okResponse.

Definition x3FailsEnv : Env :=
  demoEnv (inr (mkPageData ["x1"; "x2"; "x3"] "tok")) x3FailsOracle
    (fun n => Z.of_nat (1000 + n)) [2; 0].

(** The same page and clock in front of a service that answers every request
    with success. *)
Definition allFineEnv : Env :=
  demoEnv (inr (mkPageData ["x1"; "x2"; "x3"] "tok")) (fun _ _ => Responded okResponse)
    (fun n => Z.of_nat (1000 + n)) [2; 0].

(** The world after "Cat" has been added to the three photos of the page,
    with "x3" failing. *)
Definition afterFirstAdd : World := snd (handleAction x3FailsEnv "Cat" add emptyWorld).

(** The world after the group so created has been retried, "x3" failing again. *)
Definition afterFailedRetry : World := snd (retryFailedOperation x3FailsEnv 0 afterFirstAdd).

(** The failure groups and the execution log of a world of the examples. *)
Definition groupsOf (w : World) : list FailedOperation :=
  match failedIn demoInstance (storage w) with VFailed l => l | _ => [] end.

Definition historyOf (w : World) : list HistoryEntry :=
  match historyIn demoInstance (storage w) with VHistory h => h | _ => [] end.

(** The group and the record that the first "add" leaves. *)
Definition x3Group : FailedOperation := mkFailedOperation add "Cat" ["x3"] 1004 0.

Definition firstAddEntry : HistoryEntry :=
  mkHistoryEntry (mkExecutionResult add "Cat" 3 2 1 ["x3"] 1001 2 None false) "1003".

(** The same page when the content script refuses to answer. *)
Definition disabledEnv : Env :=
  demoEnv (inl "Plugin is disabled for this page") (fun _ _ => Responded okResponse)
    (fun n => Z.of_nat (1000 + n)) [].

(** A page with two photos selected, neither of which carries the label
    "dog". *)
Definition noDogPhoto : Response :=
  mkResponse 200 "{...}" (Some (mkJson (Some [mkLabelEntry 7 "Cat" "cat"]))).

Definition noDogEnv : Env :=
  demoEnv (inr (mkPageData ["x1"; "x2"] "tok")) (fun _ _ => Responded noDogPhoto)
    (fun n => Z.of_nat (1000 + n)) [].

Definition dogError : string :=
  "Failed to get label ID: Label " +:+ dquote +:+ "dog" +:+ dquote
  +:+ " not found on the photo, cannot determine its ID.".

(** Two instances whose names differ in punctuation only. *)
Definition dotInstance : string := "https://photos.example.com".
Definition dashInstance : string := "https://photos-example.com".

Definition dotEnv : Env :=
  mkEnv (Some (mkTab (Some "https://photos.example.com/library")))
    (fun _ => Some (mkUrl "https:" "photos.example.com"))
    (inr (mkPageData ["x1"] "tok")) (fun _ _ => Responded okResponse)
    (fun n => Z.of_nat n) [] None.

Definition dashEnv : Env :=
  mkEnv (Some (mkTab (Some "https://photos-example.com/library")))
    (fun _ => Some (mkUrl "https:" "photos-example.com"))
    (inr (mkPageData ["x1"] "tok")) (fun _ _ => Responded okResponse)
    (fun n => Z.of_nat n) [] None.

(** A page on which no photo is selected. *)
Definition nothingSelectedEnv : Env :=
  demoEnv (inr (mkPageData [] "tok")) (fun _ _ => Responded okResponse)
    (fun n => Z.of_nat (1000 + n)) [].

(** A page of the demo instance: the clipboard holds two photos, the session
    a token.  The regular expressions of this page accept nothing and refuse
    to be built from a pattern with an open parenthesis. *)
Definition demoPage : PageEnv :=
  mkPageEnv "https://demo.photoprism.app/library/browse"
    (fun s => if String.prefix "https://demo.photoprism.app" s
              then Some (mkUrl "https:" "demo.photoprism.app") else None)
    (fun source subject => if includes "(" source then None else Some false)
    (fun key => if (key =? "clipboard.photos")%string then inr (Some "[x1,x2]")
                else if (key =? "session.token")%string then inr (Some "tok")
                else inr None)
    (fun text => if (text =? "[x1,x2]")%string then inr ["x1"; "x2"]
                 else if (text =? "[]")%string then inr [] else inl "Unexpected token").

(** The same page after the session has ended. *)
Definition loggedOutPage : PageEnv :=
  mkPageEnv (location_href demoPage) (newURL demoPage) (regExpTest demoPage)
    (fun key => if (key =? "clipboard.photos")%string then inr (Some "[x1,x2]")
                else inr None)
    (parseUids demoPage).

(** The configuration page as first opened, with an address typed in. *)
Definition freshConfigPage (typed : string) : ConfigPage.State :=
  ConfigPage.mkState None ConfigPage.initialDefault typed EmptyString false None [] (Some false) [].

(** A parser of addresses that knows two instances. *)
Definition twoHosts (s : string) : option Url :=
  if String.prefix "https://demo.photoprism.app" s then Some (mkUrl "https:" "demo.photoprism.app")
  else if String.prefix "https://photos.example.com" s then Some (mkUrl "https:" "photos.example.com")
  else if String.prefix "ftp://" s then Some (mkUrl "ftp:" "files.example.com")
  else None.

(* ===================================================================== *)
(** * Properties *)
(* ===================================================================== *)

(** ** Stepping through a computation *)

Lemma bind_Returned {S A B} (m : M S A) (f : A -> M S B) s a s' :
  m s = (Returned a, s') -> bind m f s = f a s'.
Proof. intros H. unfold bind. now rewrite H. Qed.

Lemma bind_Thrown {S A B} (m : M S A) (f : A -> M S B) s e s' :
  m s = (Thrown e, s') -> bind m f s = (Thrown e, s').
Proof. intros H. unfold bind. now rewrite H. Qed.

Lemma bind_Pending {S A B} (m : M S A) (f : A -> M S B) s s' :
  m s = (Pending, s') -> bind m f s = (Pending, s').
Proof. intros H. unfold bind. now rewrite H. Qed.

Lemma bind_assoc {S A B C} (m : M S A) (f : A -> M S B) (g : B -> M S C) s :
  bind (bind m f) g s = bind m (fun x => bind (f x) g) s.
Proof. unfold bind. now destruct (m s) as [[a|e|] s']. Qed.

Lemma bind_modify {S B} (g : S -> S) (f : unit -> M S B) s :
  bind (modify g) f s = f tt (g s).
Proof. reflexivity. Qed.

Lemma bind_liftW {L A B} (m : M World A) (f : A -> M (L * World) B) (r : L) (w : World) :
  bind (liftW m) f (r, w)
  = match m w with
    | (Returned a, w') => f a (r, w')
    | (Thrown e, w') => (Thrown e, (r, w'))
    | (Pending, w') => (Pending, (r, w'))
    end.
Proof. unfold bind, liftW. simpl. now destruct (m w) as [[a|e|] w']. Qed.

Lemma bind_setLocal {L B} (g : L -> L) (f : unit -> M (L * World) B) (r : L) (w : World) :
  bind (setLocal g) f (r, w) = f tt (g r, w).
Proof. reflexivity. Qed.

Lemma bind_getLocal {L B} (f : L -> M (L * World) B) (r : L) (w : World) :
  bind getLocal f (r, w) = f r (r, w).
Proof. reflexivity. Qed.

(** ** The instance-scoped store *)

Section Store.

Variable env : Env.

Lemma getInstanceData_resolved inst baseKey d w :
  getCurrentInstanceId env = inr inst ->
  getInstanceData env baseKey d w
  = (Returned (default d (storage w !! createInstanceKey baseKey inst)), w).
Proof.
  intros H. unfold getInstanceData, tryCatch, bind, gets, ret. now rewrite H.
Qed.

Lemma getInstanceData_unresolved e baseKey d w :
  getCurrentInstanceId env = inl e ->
  getInstanceData env baseKey d w = (Returned d, w).
Proof.
  intros H. unfold getInstanceData, tryCatch, bind, throw, ret. now rewrite H.
Qed.

Lemma setInstanceData_resolved inst baseKey v w :
  getCurrentInstanceId env = inr inst ->
  setInstanceData env baseKey v w
  = (Returned tt, withStorage (<[createInstanceKey baseKey inst := v]> (storage w)) w).
Proof.
  intros H. unfold setInstanceData, tryCatch, bind, modify, ret. now rewrite H.
Qed.

Lemma setInstanceData_unresolved e baseKey v w :
  getCurrentInstanceId env = inl e ->
  setInstanceData env baseKey v w = (Thrown e, w).
Proof.
  intros H. unfold setInstanceData, tryCatch, bind, throw. now rewrite H.
Qed.

(** The only two ways [getCurrentInstanceId] rejects. *)
Lemma getCurrentInstanceId_messages e :
  getCurrentInstanceId env = inl e ->
  e = "Could not determine current instance" \/ e = "Invalid URL format".
Proof.
  unfold getCurrentInstanceId.
  destruct (activeTab env) as [tab|]; [|intros [= <-]; now left].
  destruct (tab_url tab) as [u|]; [|intros [= <-]; now left].
  destruct (Js.truthy u); [|intros [= <-]; now left].
  destruct (parseURL env u); [discriminate|intros [= <-]; now right].
Qed.

End Store.


(** ** The batch dispatcher *)

Section Batch.

Variable env : Env.


Lemma startCalls_returns uids apiFn : forall w,
  exists calls w',
    startCalls uids apiFn w = (Returned calls, w') /\ map fst calls = uids.
Proof.
  unfold startCalls.
  set (F := fun uid : string => _).
  assert (HF : forall uid w, exists r w1, F uid w = (Returned (uid, r), w1)).
  { intros uid w. subst F. unfold bind, settle, ret. simpl.
    destruct (apiFn uid w) as [r w1]. now exists r, w1. }
  induction uids as [|uid uids IH]; intros w.
  - exists [], w. split; reflexivity.
  - destruct (HF uid w) as (r & w1 & E1).
    destruct (IH w1) as (calls & w' & E & Hm).
    exists ((uid, r) :: calls), w'. split.
    + simpl. rewrite (bind_Returned _ _ _ _ _ E1), (bind_Returned _ _ _ _ _ E).
      reflexivity.
    + simpl. now rewrite Hm.
Qed.

(** Every call is started, in the order of the identifiers: the first in the
    world [startCalls] is run in, each other in the world the call before it
    left, whatever that call came to; and every call is kept with the way it
    settled. *)
Lemma startCalls_trace uids apiFn : forall w,
  exists calls (worlds : list World) w',
    startCalls uids apiFn w = (Returned calls, w')
    /\ worlds !! 0 = Some w
    /\ worlds !! length uids = Some w'
    /\ forall i uid, uids !! i = Some uid ->
         exists wi, worlds !! i = Some wi
                    /\ calls !! i = Some (uid, fst (apiFn uid wi))
                    /\ worlds !! S i = Some (snd (apiFn uid wi)).
Proof.
  induction uids as [|uid uids IH]; intros w.
  - exists [], [w], w. repeat split. intros i uid Hi. discriminate Hi.
  - destruct (IH (snd (apiFn uid w))) as (calls & worlds & w' & E & H0 & Hn & Hall).
    exists ((uid, fst (apiFn uid w)) :: calls), (w :: worlds), w'.
    split; [|split; [reflexivity|split; [exact Hn|]]].
    + unfold startCalls in *. simpl. unfold bind at 1. unfold bind at 1. unfold settle.
      destruct (apiFn uid w) as [r w1]. cbn [fst snd] in *. unfold ret at 1.
      rewrite (bind_Returned _ _ _ _ _ E). reflexivity.
    + intros [|i] uid' Hi.
      * injection Hi as <-. exists w. repeat split. exact H0.
      * exact (Hall i uid' Hi).
Qed.

Lemma length_omap_rejectedUid calls order :
  length (omap (rejectedUid calls) order) = length (List.filter (rejectedAt calls) order).
Proof.
  induction order as [|i order IH]; [reflexivity|].
  simpl. unfold rejectedUid, rejectedAt in *.
  destruct (calls !! i) as [[uid [r|e|]]|]; simpl; auto.
Qed.

(** The handlers, run along any order of completion: each fulfilled call
    adds one to [successCount], each rejected call adds one to [failedCount]
    and its identifier to [failedUids]; nothing else of the world than the
    progress display changes. *)
Lemma foldM_onSettled total calls order : forall st w,
  exists st' w',
    foldM (onSettled total calls) order st w = (Returned st', w')
    /\ bs_successCount st' = bs_successCount st + length (List.filter (fulfilledAt calls) order)
    /\ bs_failedCount st' = bs_failedCount st + length (List.filter (rejectedAt calls) order)
    /\ bs_failedUids st' = bs_failedUids st ++ omap (rejectedUid calls) order
    /\ bs_processedCount st' = bs_processedCount st
         + length (List.filter (fulfilledAt calls) order)
         + length (List.filter (rejectedAt calls) order)
    /\ storage w' = storage w /\ requests w' = requests w /\ clockReads w' = clockReads w.
Proof.
  induction order as [|i order IH]; intros st w.
  - exists st, w. simpl. rewrite app_nil_r. repeat split; lia.
  - simpl. unfold bind at 1. unfold onSettled at 1.
    destruct (calls !! i) as [[uid [r|e|]]|] eqn:Ei;
      (assert (Hf : fulfilledAt calls i = _) by (unfold fulfilledAt; rewrite Ei; reflexivity));
      (assert (Hr : rejectedAt calls i = _) by (unfold rejectedAt; rewrite Ei; reflexivity));
      (assert (Hu : rejectedUid calls i = _) by (unfold rejectedUid; rewrite Ei; reflexivity));
      rewrite Hf, Hr, Hu; simpl;
      match goal with |- context [foldM _ order ?s ?v] => destruct (IH s v)
        as (st' & w' & E & H1 & H2 & H3 & H4 & H5 & H6 & H7) end;
      exists st', w'; rewrite E; simpl in *; repeat split; try lia; auto.
    rewrite H3. now rewrite <- app_assoc.
Qed.

(** Whatever the oracle lists, the calls complete in an order that names
    every position once. *)
Lemma normalizedOrder_Permutation total :
  normalizedOrder env total ≡ₚ seq 0 total.
Proof.
  unfold normalizedOrder.
  set (early := remove_dups _).
  assert (Hnd : NoDup early) by apply NoDup_remove_dups.
  assert (Hin : forall i, i ∈ early -> i ∈ seq 0 total).
  { intros i Hi. subst early. apply (proj1 (elem_of_remove_dups _ _)) in Hi.
    apply (proj1 (list_elem_of_In _ _)), filter_In in Hi. destruct Hi as [_ Hi].
    apply Nat.ltb_lt in Hi. apply elem_of_seq. lia. }
  apply NoDup_Permutation.
  - apply NoDup_app. split; [exact Hnd|]. split.
    + intros i Hi Hd. apply list_elem_of_difference in Hd. tauto.
    + apply NoDup_list_difference, NoDup_seq.
  - apply NoDup_seq.
  - intros i. rewrite elem_of_app, list_elem_of_difference. split.
    + intros [Hi|[Hi _]]; auto.
    + intros Hi. destruct (decide (i ∈ early)); auto.
Qed.

Lemma length_filter_Permutation {A} (p : A -> bool) (l k : list A) :
  l ≡ₚ k -> length (List.filter p l) = length (List.filter p k).
Proof.
  induction 1; simpl; auto.
  - destruct (p x); simpl; auto.
  - destruct (p x), (p y); reflexivity.
  - congruence.
Qed.

Lemma length_filter_split {A} (p q : A -> bool) (l : list A) :
  (forall x, x ∈ l -> p x = negb (q x)) ->
  length (List.filter p l) + length (List.filter q l) = length l.
Proof.
  induction l as [|x l IH]; intros H; [reflexivity|].
  simpl. rewrite (H x) by left.
  assert (IH' := IH (fun y Hy => H y (list_elem_of_further _ _ _ Hy))).
  destruct (q x); simpl; lia.
Qed.

Lemma settled_fulfilled_or_rejected (calls : list (string * Outcome Json)) i :
  existsb (fun c => isPending (snd c)) calls = false ->
  i < length calls ->
  fulfilledAt calls i = negb (rejectedAt calls i).
Proof.
  intros Hp Hi. unfold fulfilledAt, rejectedAt.
  destruct (calls !! i) as [[uid o]|] eqn:E.
  - destruct o; auto.
    assert (Hc : existsb (fun c => isPending (snd c)) calls = true).
    { apply existsb_exists. exists (uid, Pending). split; [|reflexivity].
      apply list_elem_of_In. eapply list_elem_of_lookup_2; eauto. }
    congruence.
  - apply lookup_ge_None in E. lia.
Qed.

End Batch.

(** The two ways a batch ends. *)
Lemma batchProcess_cases
    (env : Env) (uids : list string) (apiFn : string -> M World Json) (w : World) :
  exists calls w1,
    startCalls uids apiFn (withProgress (progress w ++ [(0, length uids)]) w)
    = (Returned calls, w1)
    /\ map fst calls = uids
    /\ ((existsb (fun c => isPending (snd c)) calls = true
         /\ exists w', batchProcess env uids apiFn w = (Pending, w'))
        \/ (existsb (fun c => isPending (snd c)) calls = false
            /\ exists res w',
                 batchProcess env uids apiFn w = (Returned res, w')
                 /\ successCount res + failedCount res = length uids
                 /\ length (failedUids res) = failedCount res
                 /\ successCount res
                    = length (List.filter (fulfilledAt calls) (seq 0 (length uids)))
                 /\ failedUids res
                    = omap (rejectedUid calls) (normalizedOrder env (length uids)))).
Proof.
  destruct (startCalls_returns uids apiFn
              (withProgress (progress w ++ [(0, length uids)]) w))
    as (calls & w1 & Ecalls & Hfst).
  exists calls, w1. split; [exact Ecalls|]. split; [exact Hfst|].
  destruct (foldM_onSettled (length uids) calls (normalizedOrder env (length uids))
              (mkBatchState 0 0 0 []) w1)
    as (st & w2 & Efold & Hs & Hf & Hu & _).
  assert (Hlen : length calls = length uids).
  { rewrite <- Hfst. now rewrite length_map. }
  assert (Erun : batchProcess env uids apiFn w
                 = (if existsb (fun c => isPending (snd c)) calls then pending
                    else ret (mkBatchResult (bs_successCount st) (bs_failedCount st)
                                (bs_failedUids st))) w2).
  { unfold batchProcess.
    rewrite (bind_Returned _ _ w tt (withProgress (progress w ++ [(0, length uids)]) w))
      by reflexivity.
    rewrite (bind_Returned _ _ _ _ _ Ecalls).
    rewrite (bind_Returned _ _ _ _ _ Efold). reflexivity. }
  destruct (existsb (fun c => isPending (snd c)) calls) eqn:Hp.
  - left. split; [reflexivity|]. exists w2. exact Erun.
  - right. split; [reflexivity|].
    exists (mkBatchResult (bs_successCount st) (bs_failedCount st) (bs_failedUids st)), w2.
    split; [exact Erun|]. simpl in *.
    pose proof (normalizedOrder_Permutation env (length uids)) as Hperm.
    rewrite Hs, Hf, Hu.
    rewrite (length_filter_Permutation (fulfilledAt calls) _ _ Hperm).
    rewrite (length_filter_Permutation (rejectedAt calls) _ _ Hperm).
    repeat split.
    + rewrite length_filter_split; [apply length_seq|].
      intros i Hi. apply settled_fulfilled_or_rejected; [exact Hp|].
      apply elem_of_seq in Hi. lia.
    + rewrite length_omap_rejectedUid.
      apply (length_filter_Permutation (rejectedAt calls) _ _ Hperm).
Qed.

(** ** Runs with a resolved instance *)

Section Resolved.

Variable env : Env.
Variable inst : string.
Hypothesis Hinst : getCurrentInstanceId env = inr inst.


Lemma keys_distinct :
  cacheKey inst <> recentKey inst /\ cacheKey inst <> allKey inst
  /\ cacheKey inst <> historyKey inst /\ cacheKey inst <> failedKey inst
  /\ recentKey inst <> allKey inst /\ recentKey inst <> historyKey inst
  /\ recentKey inst <> failedKey inst /\ allKey inst <> historyKey inst
  /\ allKey inst <> failedKey inst /\ historyKey inst <> failedKey inst.
Proof.
  unfold cacheKey, recentKey, allKey, historyKey, failedKey, createInstanceKey.
  simpl. repeat split; discriminate.
Qed.

Lemma resolved_tab :
  exists tab u url,
    activeTab env = Some tab /\ tab_url tab = Some u /\ parseURL env u = Some url
    /\ inst = url_protocol url +:+ "//" +:+ url_host url.
Proof.
  revert Hinst. unfold getCurrentInstanceId.
  destruct (activeTab env) as [tab|]; [|discriminate].
  destruct (tab_url tab) as [u|] eqn:Eu; [|discriminate].
  destruct (Js.truthy u); [|discriminate].
  destruct (parseURL env u) as [url|] eqn:Ep; [|discriminate].
  intros [= <-]. now exists tab, u, url.
Qed.

Lemma currentBaseUrl_resolved w : currentBaseUrl env w = (Returned inst, w).
Proof.
  destruct resolved_tab as (tab & u & url & Ht & Hu & Hp & ->).
  unfold currentBaseUrl. rewrite Ht, Hu. simpl. now rewrite Hp.
Qed.

Lemma getPhotoPrismData_resolved w :
  getPhotoPrismData env w
  = (match pageData env with inl e => Thrown e | inr data => Returned data end, w).
Proof.
  destruct resolved_tab as (tab & u & url & Ht & _).
  unfold getPhotoPrismData. rewrite Ht. now destruct (pageData env).
Qed.


Lemma refreshExecutionHistory_run w : refreshExecutionHistory env w = (Returned tt, w).
Proof.
  unfold refreshExecutionHistory, tryCatch.
  rewrite (bind_Returned _ _ _ _ _ (getInstanceData_resolved env inst _ _ w Hinst)).
  destruct (default _ _); reflexivity.
Qed.

Lemma refreshFailedOperations_run w : refreshFailedOperations env w = (Returned tt, w).
Proof.
  unfold refreshFailedOperations, tryCatch.
  rewrite (bind_Returned _ _ _ _ _ (getInstanceData_resolved env inst _ _ w Hinst)).
  destruct (default _ _); reflexivity.
Qed.

Lemma saveExecutionResult_run r w h :
  historyIn inst (storage w) = VHistory h ->
  saveExecutionResult env r w
  = (Returned tt,
     withStorage
       (<[historyKey inst :=
            VHistory (take 50 (mkHistoryEntry r (pretty (clock env (clockReads w))) :: h))]>
          (storage w))
       (withClockReads (S (clockReads w)) w)).
Proof.
  intros Hh. unfold saveExecutionResult.
  rewrite (bind_Returned _ _ w (clock env (clockReads w))
             (withClockReads (S (clockReads w)) w)) by reflexivity.
  rewrite (bind_Returned _ _ _ _ _ (getInstanceData_resolved env inst _ _ _ Hinst)).
  simpl storage. fold (historyKey inst). fold (historyIn inst (storage w)). rewrite Hh.
  rewrite (bind_Returned (asHistory (VHistory h)) _ _ h _ eq_refl).
  rewrite (bind_Returned _ _ _ _ _ (setInstanceData_resolved env inst _ _ _ Hinst)).
  now rewrite refreshExecutionHistory_run.
Qed.

End Resolved.

(** ** What a computation depends on

    The resolver and the dispatcher read and write the store and the
    transport only: run from two worlds that agree on both, they settle alike
    and leave worlds that agree on both.  The display and the clock play no
    part. *)


Lemma sameNet_refl w : sameNet w w.
Proof. split; reflexivity. Qed.

Lemma sameNet_sym w1 w2 : sameNet w1 w2 -> sameNet w2 w1.
Proof. intros [? ?]; split; congruence. Qed.

Lemma sameNet_trans w1 w2 w3 : sameNet w1 w2 -> sameNet w2 w3 -> sameNet w1 w3.
Proof. intros [? ?] [? ?]; split; congruence. Qed.

Lemma netLocal_ret {A} (a : A) : netLocal (ret a).
Proof. intros w1 w2 H. split; [reflexivity|exact H]. Qed.

Lemma netLocal_throw {A} e : netLocal (@throw World A e).
Proof. intros w1 w2 H. split; [reflexivity|exact H]. Qed.

Lemma netLocal_pending {A} : netLocal (@pending World A).
Proof. intros w1 w2 H. split; [reflexivity|exact H]. Qed.

Lemma netLocal_bind {A B} (m : M World A) (f : A -> M World B) :
  netLocal m -> (forall a, netLocal (f a)) -> netLocal (bind m f).
Proof.
  intros Hm Hf w1 w2 H. unfold bind.
  destruct (Hm w1 w2 H) as [E Hs].
  destruct (m w1) as [[a|e|] v1], (m w2) as [[a'|e'|] v2]; simpl in *;
    try discriminate; try (split; [congruence|exact Hs]).
  injection E as <-. now apply Hf.
Qed.

Lemma netLocal_tryCatch {A} (m : M World A) (h : string -> M World A) :
  netLocal m -> (forall e, netLocal (h e)) -> netLocal (tryCatch m h).
Proof.
  intros Hm Hh w1 w2 H. unfold tryCatch.
  destruct (Hm w1 w2 H) as [E Hs].
  destruct (m w1) as [[a|e|] v1], (m w2) as [[a'|e'|] v2]; simpl in *;
    try discriminate; try (split; [congruence|exact Hs]).
  injection E as <-. now apply Hh.
Qed.

Lemma netLocal_settle {A} (m : M World A) : netLocal m -> netLocal (settle m).
Proof.
  intros Hm w1 w2 H. unfold settle.
  destruct (Hm w1 w2 H) as [E Hs].
  destruct (m w1) as [r1 v1], (m w2) as [r2 v2]; simpl in *.
  split; [now rewrite E|exact Hs].
Qed.

Lemma netLocal_mapM {A B} (f : A -> M World B) (l : list A) :
  (forall a, netLocal (f a)) -> netLocal (mapM f l).
Proof.
  intros Hf. induction l as [|x l IH]; simpl.
  - apply netLocal_ret.
  - apply netLocal_bind; [apply Hf|]. intros y.
    apply netLocal_bind; [exact IH|]. intros ys. apply netLocal_ret.
Qed.

Lemma netLocal_foldM {A B} (f : B -> A -> M World B) (l : list A) :
  (forall b a, netLocal (f b a)) -> forall b, netLocal (foldM f l b).
Proof.
  intros Hf. induction l as [|x l IH]; intros b; simpl.
  - apply netLocal_ret.
  - apply netLocal_bind; [apply Hf|]. intros b'. apply IH.
Qed.

Lemma netLocal_setStatus m b : netLocal (setStatus m b).
Proof. intros w1 w2 H. split; [reflexivity|exact H]. Qed.

Lemma netLocal_updateProgress p t : netLocal (updateProgress p t).
Proof. intros w1 w2 H. split; [reflexivity|exact H]. Qed.

Lemma netLocal_awaitJson b : netLocal (awaitJson b).
Proof. destruct b; [apply netLocal_ret|apply netLocal_throw]. Qed.

Section Local.

Variable env : Env.

Lemma netLocal_fetch rq : netLocal (fetch env rq).
Proof.
  intros w1 w2 [Hs Hr]. unfold fetch. rewrite Hr.
  destruct (fetchOracle env _ rq); simpl; (split; [reflexivity|]);
    split; simpl; congruence.
Qed.

Lemma netLocal_currentBaseUrl : netLocal (currentBaseUrl env).
Proof.
  unfold currentBaseUrl.
  destruct (activeTab env); [|apply netLocal_throw].
  destruct (parseURL env _); [apply netLocal_ret|apply netLocal_throw].
Qed.

Lemma netLocal_getInstanceData k d : netLocal (getInstanceData env k d).
Proof.
  unfold getInstanceData. apply netLocal_tryCatch; [|intros; apply netLocal_ret].
  apply netLocal_bind.
  - destruct (getCurrentInstanceId env); [apply netLocal_throw|apply netLocal_ret].
  - intros i. apply netLocal_bind; [|intros; apply netLocal_ret].
    intros w1 w2 [Hs Hr]. unfold gets. simpl. rewrite Hs. split; [reflexivity|now split].
Qed.

Lemma netLocal_setInstanceData k v : netLocal (setInstanceData env k v).
Proof.
  unfold setInstanceData. apply netLocal_tryCatch; [|intros; apply netLocal_throw].
  apply netLocal_bind.
  - destruct (getCurrentInstanceId env); [apply netLocal_throw|apply netLocal_ret].
  - intros i w1 w2 [Hs Hr]. unfold modify. simpl. split; [reflexivity|].
    split; simpl; congruence.
Qed.

Lemma netLocal_addLabel uid labelName token : netLocal (addLabel env uid labelName token).
Proof.
  unfold addLabel. apply netLocal_bind; [apply netLocal_currentBaseUrl|]. intros baseUrl.
  apply netLocal_bind; [|intros; apply netLocal_awaitJson].
  apply netLocal_tryCatch; [|intros; apply netLocal_throw].
  apply netLocal_bind; [apply netLocal_setStatus|]. intros _.
  apply netLocal_bind; [apply netLocal_fetch|]. intros response.
  destruct (negb (rs_ok response)); [apply netLocal_throw|apply netLocal_ret].
Qed.

Lemma netLocal_removeLabel uid labelId token : netLocal (removeLabel env uid labelId token).
Proof.
  unfold removeLabel. apply netLocal_bind; [apply netLocal_currentBaseUrl|]. intros baseUrl.
  apply netLocal_bind; [|intros; apply netLocal_awaitJson].
  apply netLocal_tryCatch; [|intros; apply netLocal_throw].
  apply netLocal_bind; [apply netLocal_setStatus|]. intros _.
  apply netLocal_bind; [apply netLocal_fetch|]. intros response.
  destruct (_ && _); [apply netLocal_throw|apply netLocal_ret].
Qed.

Lemma netLocal_getLabelId labelName firstUid token :
  netLocal (getLabelId env labelName firstUid token).
Proof.
  unfold getLabelId. apply netLocal_bind; [apply netLocal_getInstanceData|]. intros v.
  apply netLocal_bind; [destruct v; try apply netLocal_throw; apply netLocal_ret|].
  intros labelCache. destruct (cachedId labelCache labelName); [apply netLocal_ret|].
  apply netLocal_bind; [apply netLocal_setStatus|]. intros _.
  apply netLocal_bind; [apply netLocal_currentBaseUrl|]. intros baseUrl.
  apply netLocal_tryCatch; [|intros; apply netLocal_throw].
  apply netLocal_bind; [apply netLocal_fetch|]. intros response.
  destruct (negb (rs_ok response)); [apply netLocal_throw|].
  apply netLocal_bind; [apply netLocal_awaitJson|]. intros photoDetails.
  destruct (match json_Labels photoDetails with Some _ => _ | None => _ end);
    [|apply netLocal_throw].
  apply netLocal_bind; [apply netLocal_setInstanceData|]. intros _. apply netLocal_ret.
Qed.

Lemma netLocal_batchProcess uids apiFn :
  (forall uid, netLocal (apiFn uid)) -> netLocal (batchProcess env uids apiFn).
Proof.
  intros Hapi. unfold batchProcess.
  apply netLocal_bind; [apply netLocal_updateProgress|]. intros _.
  apply netLocal_bind.
  - unfold startCalls. apply netLocal_mapM. intros uid.
    apply netLocal_bind; [now apply netLocal_settle|]. intros; apply netLocal_ret.
  - intros calls. apply netLocal_bind.
    + apply netLocal_foldM. intros st i. unfold onSettled.
      destruct (calls !! i) as [[uid [r|e|]]|]; try apply netLocal_ret;
        (apply netLocal_bind; [apply netLocal_updateProgress|intros; apply netLocal_ret]).
    + intros st. destruct (existsb _ calls); [apply netLocal_pending|apply netLocal_ret].
Qed.

Lemma netLocal_runBatch action labelName uids firstUid token :
  netLocal (runBatch env action labelName uids firstUid token).
Proof.
  unfold runBatch. destruct action.
  - apply netLocal_batchProcess. intros; apply netLocal_addLabel.
  - apply netLocal_bind; [apply netLocal_getLabelId|]. intros labelId.
    apply netLocal_batchProcess. intros; apply netLocal_removeLabel.
Qed.

End Local.

(** ** Effects of the resolver and of the dispatcher on store and transport *)

Section Effects.

Variable env : Env.
Variable inst : string.
Hypothesis Hinst : getCurrentInstanceId env = inr inst.


(** [getLabelId], case by case. *)
Lemma getLabelId_cases labelName firstUid token w :
  let rq := detailRequest inst firstUid token in
  let answer := fetchOracle env (length (requests w)) rq in
  match getLabelId env labelName firstUid token w with
  | (Returned labelId, w') =>
      exists cache, cacheIn inst (storage w) = VLabelCache cache
      /\ ((cachedId cache labelName = Some labelId /\ w' = w)
          \/ (cachedId cache labelName = None
              /\ exists l, labelOnPhoto labelName answer = Some l
                   /\ labelId = Numeric (label_ID l)
                   /\ requests w' = requests w ++ [rq]
                   /\ storage w'
                      = <[cacheKey inst := VLabelCache (<[labelName := label_ID l]> cache)]>
                          (storage w)))
  | (Thrown e, w') =>
      storage w' = storage w
      /\ ((requests w' = requests w
           /\ forall cache, cacheIn inst (storage w) <> VLabelCache cache)
          \/ (requests w' = requests w ++ [rq]
              /\ labelOnPhoto labelName answer = None
              /\ exists cache, cacheIn inst (storage w) = VLabelCache cache
                               /\ cachedId cache labelName = None))
  | (Pending, w') =>
      storage w' = storage w /\ requests w' = requests w ++ [rq] /\ answer = NeverSettles
      /\ exists cache, cacheIn inst (storage w) = VLabelCache cache
                       /\ cachedId cache labelName = None
  end.
Proof.
  intros rq answer. unfold getLabelId.
  rewrite (bind_Returned _ _ _ _ _ (getInstanceData_resolved env inst _ _ w Hinst)).
  fold (cacheKey inst). fold (cacheIn inst (storage w)).
  destruct (cacheIn inst (storage w)) as [cache| | |] eqn:Ec;
    try (simpl; split; [reflexivity|left; split; [reflexivity|discriminate]]).
  rewrite (bind_Returned (asLabelCache (VLabelCache cache)) _ _ cache _ eq_refl).
  destruct (cachedId cache labelName) as [labelId|] eqn:Eh.
  - simpl. exists cache. split; [reflexivity|]. left. now split.
  - rewrite (bind_Returned _ _ w tt (withStatus ("Cache miss, fetching label ID from API...", false) w))
      by reflexivity.
    rewrite (bind_Returned _ _ _ _ _ (currentBaseUrl_resolved env inst Hinst _)).
    unfold tryCatch, bind at 1, fetch. simpl requests.
    fold (detailRequest inst firstUid token). fold rq. fold answer.
    destruct answer as [response|e|] eqn:Ea; simpl.
    + destruct (rs_ok response) eqn:Eok; simpl.
      * destruct (rs_json response) as [photoDetails|] eqn:Ej; simpl.
        -- unfold bind at 1. simpl.
           destruct (match json_Labels photoDetails with
                     | Some labels => List.find (labelMatches labelName) labels
                     | None => None end) as [l|] eqn:El; simpl.
           ++ rewrite (bind_Returned _ _ _ _ _ (setInstanceData_resolved env inst _ _ _ Hinst)).
              simpl. exists cache. split; [reflexivity|]. right.
              split; [exact Eh|]. exists l. repeat split.
           ++ split; [reflexivity|]. right. repeat split. now exists cache.
        -- split; [reflexivity|]. right. repeat split. now exists cache.
      * split; [reflexivity|]. right. repeat split. now exists cache.
    + split; [reflexivity|]. right. repeat split. now exists cache.
    + repeat split. now exists cache.
Qed.

Lemma getLabelId_hit labelName firstUid token w cache labelId :
  cacheIn inst (storage w) = VLabelCache cache ->
  cachedId cache labelName = Some labelId ->
  getLabelId env labelName firstUid token w = (Returned labelId, w).
Proof.
  intros Hc Hh. unfold getLabelId.
  rewrite (bind_Returned _ _ _ _ _ (getInstanceData_resolved env inst _ _ w Hinst)).
  fold (cacheKey inst). fold (cacheIn inst (storage w)). rewrite Hc.
  rewrite (bind_Returned (asLabelCache (VLabelCache cache)) _ _ cache _ eq_refl).
  now rewrite Hh.
Qed.



Lemma addLabel_run uid labelName token w :
  let rq := addRequest inst labelName token uid in
  addLabel env uid labelName token w
  = (addOutcome (rq_url rq) (fetchOracle env (length (requests w)) rq),
     withRequests (requests w ++ [rq])
       (withStatus ("Calling API: " +:+ rq_url rq, false) w)).
Proof.
  intros rq. unfold addLabel.
  rewrite (bind_Returned _ _ _ _ _ (currentBaseUrl_resolved env inst Hinst _)).
  unfold bind, tryCatch, setStatus, modify, fetch, addOutcome. simpl requests.
  fold (addRequest inst labelName token uid). fold rq.
  destruct (fetchOracle env (length (requests w)) rq) as [response|e|]; simpl; auto.
  destruct (rs_ok response); simpl; auto.
  destruct (rs_json response); reflexivity.
Qed.

Lemma removeLabel_run uid labelId token w :
  let rq := removeRequest inst labelId token uid in
  removeLabel env uid labelId token w
  = (removeOutcome (fetchOracle env (length (requests w)) rq),
     withRequests (requests w ++ [rq])
       (withStatus ("Calling API: " +:+ rq_url rq, false) w)).
Proof.
  intros rq. unfold removeLabel.
  rewrite (bind_Returned _ _ _ _ _ (currentBaseUrl_resolved env inst Hinst _)).
  unfold bind, tryCatch, setStatus, modify, fetch, removeOutcome. simpl requests.
  fold (removeRequest inst labelId token uid). fold rq.
  destruct (fetchOracle env (length (requests w)) rq) as [response|e|]; simpl; auto.
  destruct (rs_ok response); simpl.
  - destruct (rs_json response); reflexivity.
  - destruct (rs_status response =? 404)%Z; simpl; auto.
    destruct (rs_json response); reflexivity.
Qed.


Lemma startCalls_effect apiFn rqOf uids :
  oneRequestEach apiFn rqOf ->
  forall w,
    requests (snd (startCalls uids apiFn w)) = requests w ++ map rqOf uids
    /\ storage (snd (startCalls uids apiFn w)) = storage w.
Proof.
  intros Hone. unfold startCalls.
  set (F := fun uid : string => _).
  assert (HF : forall uid w, exists r, F uid w = (Returned (uid, r), snd (apiFn uid w))).
  { intros uid w. subst F. unfold bind, settle, ret. simpl.
    destruct (apiFn uid w) as [r w1]. now exists r. }
  induction uids as [|uid uids IH]; intros w.
  - simpl. now rewrite app_nil_r.
  - destruct (HF uid w) as (r & E1). simpl mapM.
    rewrite (bind_Returned _ _ _ _ _ E1).
    destruct (IH (snd (apiFn uid w))) as [IHr IHs].
    destruct (Hone uid w) as [Hr Hs].
    unfold bind.
    destruct (mapM F uids (snd (apiFn uid w))) as [[ys|e|] w2]; simpl in *;
      (split; [rewrite IHr, Hr, <- app_assoc; reflexivity|congruence]).
Qed.

Lemma batchProcess_effect apiFn rqOf uids w :
  oneRequestEach apiFn rqOf ->
  requests (snd (batchProcess env uids apiFn w)) = requests w ++ map rqOf uids
  /\ storage (snd (batchProcess env uids apiFn w)) = storage w.
Proof.
  intros Hone.
  destruct (startCalls_effect apiFn rqOf uids Hone
              (withProgress (progress w ++ [(0, length uids)]) w)) as [Hr Hs].
  destruct (startCalls_returns uids apiFn
              (withProgress (progress w ++ [(0, length uids)]) w))
    as (calls & w1 & Ecalls & _).
  rewrite Ecalls in Hr, Hs. simpl in Hr, Hs.
  destruct (foldM_onSettled (length uids) calls (normalizedOrder env (length uids))
              (mkBatchState 0 0 0 []) w1)
    as (st & w2 & Efold & _ & _ & _ & _ & Hs2 & Hr2 & _).
  unfold batchProcess.
  rewrite (bind_Returned _ _ w tt (withProgress (progress w ++ [(0, length uids)]) w))
    by reflexivity.
  rewrite (bind_Returned _ _ _ _ _ Ecalls), (bind_Returned _ _ _ _ _ Efold).
  destruct (existsb _ calls); simpl; split; congruence.
Qed.

Lemma oneRequestEach_addLabel labelName token :
  oneRequestEach (fun uid => addLabel env uid labelName token) (addRequest inst labelName token).
Proof. intros uid w. now rewrite addLabel_run. Qed.

Lemma oneRequestEach_removeLabel labelId token :
  oneRequestEach (fun uid => removeLabel env uid labelId token) (removeRequest inst labelId token).
Proof. intros uid w. now rewrite removeLabel_run. Qed.

End Effects.

(** ** The failure tracker: the list of groups *)


Lemma Action_eqb_eq a b : Action_eqb a b = true <-> a = b.
Proof. destruct a, b; simpl; split; congruence. Qed.

Lemma sameGroup_true action labelName op :
  sameGroup action labelName op = true <-> groupKey op = (action, Js.toLowerCase labelName).
Proof.
  unfold sameGroup, groupKey. rewrite andb_true_iff, String.eqb_eq, Action_eqb_eq.
  split; [intros [-> ->]; reflexivity|intros [= -> ->]; now split].
Qed.

Lemma sameGroup_false action labelName op :
  sameGroup action labelName op = false <-> groupKey op <> (action, Js.toLowerCase labelName).
Proof.
  rewrite <- sameGroup_true. destruct (sameGroup action labelName op); split; congruence.
Qed.

Lemma findIndex_Some {A} (p : A -> bool) (l : list A) i :
  findIndex p l = Some i ->
  exists x, l !! i = Some x /\ p x = true /\ forall j y, j < i -> l !! j = Some y -> p y = false.
Proof.
  revert i. induction l as [|x l IH]; intros i; simpl; [discriminate|].
  destruct (p x) eqn:Ex.
  - intros [= <-]. exists x. repeat split; auto. intros j y Hj. lia.
  - destruct (findIndex p l) as [k|]; [|discriminate]. simpl. intros [= <-].
    destruct (IH k eq_refl) as (y & Hy & Hp & Hlt). exists y. repeat split; auto.
    intros [|j] z Hj; simpl; [congruence|]. apply Hlt. lia.
Qed.

Lemma findIndex_None {A} (p : A -> bool) (l : list A) :
  findIndex p l = None -> forall x, x ∈ l -> p x = false.
Proof.
  induction l as [|x l IH]; simpl; intros H y Hy.
  - now apply elem_of_nil in Hy.
  - destruct (p x) eqn:Ex; [discriminate|].
    destruct (findIndex p l); [discriminate|].
    apply elem_of_cons in Hy as [->|Hy]; auto.
Qed.

Lemma keys_insert_same (l : list FailedOperation) (i : nat) x op :
  l !! i = Some x -> groupKey op = groupKey x ->
  groupKey <$> <[i := op]> l = groupKey <$> l.
Proof.
  intros Hx Hk. rewrite list_fmap_insert. apply list_insert_id.
  rewrite list_lookup_fmap, Hx. simpl. now rewrite Hk.
Qed.

Lemma NoDup_keys_filter (p : FailedOperation -> bool) (l : list FailedOperation) :
  NoDup (groupKey <$> l) -> NoDup (groupKey <$> List.filter p l).
Proof.
  induction l as [|x l IH]; simpl; [auto|].
  rewrite NoDup_cons. intros [Hx Hl]. destruct (p x); simpl; auto.
  apply NoDup_cons. split; auto.
  intros Hin. apply Hx. apply list_elem_of_fmap in Hin as (y & Hy & Hin).
  apply list_elem_of_fmap. exists y. split; auto.
  apply list_elem_of_In. apply list_elem_of_In, filter_In in Hin. tauto.
Qed.

Lemma length_List_filter {A} (p : A -> bool) (l : list A) : length (List.filter p l) <= length l.
Proof. induction l as [|x l IH]; simpl; [lia|]. destruct (p x); simpl; lia. Qed.

(** Reporting a failure keeps the invariant; indeed it restores the bound on
    the number of groups whatever the list was. *)
Lemma reported_invariant op (l : list FailedOperation) :
  NoDup (groupKey <$> l) -> trackerInvariant (reported op l).
Proof.
  intros Hnd. unfold reported, trackerInvariant. split.
  - rewrite fmap_take. eapply sublist_NoDup; [|apply sublist_take].
    destruct (findIndex _ l) as [i|] eqn:Ef.
    + apply findIndex_Some in Ef as (x & Hx & Hp & _).
      apply sameGroup_true in Hp.
      rewrite (keys_insert_same l i x op Hx); auto.
    + simpl. apply NoDup_cons. split; auto.
      intros Hin. apply list_elem_of_fmap in Hin as (y & Hy & Hin).
      pose proof (findIndex_None _ _ Ef y Hin) as Hf.
      apply sameGroup_false in Hf. apply Hf. now rewrite <- Hy.
  - rewrite length_take. lia.
Qed.

Lemma cleared_invariant action labelName (l : list FailedOperation) :
  trackerInvariant l -> trackerInvariant (cleared action labelName l).
Proof.
  intros [Hnd Hlen]. split; [now apply NoDup_keys_filter|].
  unfold cleared. pose proof (length_List_filter
    (fun op => negb (sameGroup action labelName op)) l). lia.
Qed.

(** After clearing, no group has the key. *)
Lemma cleared_absent action labelName (l : list FailedOperation) :
  (action, Js.toLowerCase labelName) ∉ groupKey <$> cleared action labelName l.
Proof.
  intros Hin. apply list_elem_of_fmap in Hin as (y & Hy & Hin).
  apply list_elem_of_In, filter_In in Hin as [_ Hn].
  apply negb_true_iff, sameGroup_false in Hn. now apply Hn.
Qed.

Lemma length_delete_le {A} (i : nat) (l : list A) : length (delete i l) <= length l.
Proof.
  revert i. induction l as [|x l IH]; intros [|i]; simpl; try lia.
  specialize (IH i). lia.
Qed.

Lemma delete_invariant (i : nat) (l : list FailedOperation) :
  trackerInvariant l -> trackerInvariant (delete i l).
Proof.
  intros [Hnd Hlen]. split.
  - rewrite list_fmap_delete. eapply sublist_NoDup; [exact Hnd|apply sublist_delete].
  - pose proof (length_delete_le i l). lia.
Qed.

Lemma update_invariant (i : nat) (l : list FailedOperation) g uids stamp n :
  l !! i = Some g -> trackerInvariant l ->
  trackerInvariant (<[i := mkFailedOperation (fo_action g) (fo_labelName g) uids stamp n]> l).
Proof.
  intros Hg [Hnd Hlen]. split.
  - rewrite (keys_insert_same l i g); auto.
  - now rewrite length_insert.
Qed.

(** ** Runs of the tracker and of the recent labels *)

Section Runs.

Variable env : Env.
Variable inst : string.
Hypothesis Hinst : getCurrentInstanceId env = inr inst.

(** A write under one key is not seen under another. *)
Lemma view_insert_ne (k k' : string) (d v : Value) (s : gmap string Value) :
  k' <> k -> default d (<[k' := v]> s !! k) = default d (s !! k).
Proof. intros H. now rewrite lookup_insert_ne. Qed.

Lemma view_insert_eq (k : string) (d v : Value) (s : gmap string Value) :
  default d (<[k := v]> s !! k) = v.
Proof. now rewrite lookup_insert_eq. Qed.

Lemma saveFailedOperation_run op w l :
  failedIn inst (storage w) = VFailed l ->
  saveFailedOperation env op w
  = (Returned tt,
     withStorage (<[failedKey inst := VFailed (reported op l)]> (storage w)) w).
Proof.
  intros Hl. unfold saveFailedOperation.
  rewrite (bind_Returned _ _ _ _ _ (getInstanceData_resolved env inst _ _ _ Hinst)).
  fold (failedKey inst). fold (failedIn inst (storage w)). rewrite Hl.
  rewrite (bind_Returned (asFailed (VFailed l)) _ _ l _ eq_refl).
  rewrite (bind_Returned _ _ _ _ _ (setInstanceData_resolved env inst _ _ _ Hinst)).
  now rewrite (refreshFailedOperations_run env inst Hinst).
Qed.

Lemma removeFailedOperation_run action labelName w l :
  failedIn inst (storage w) = VFailed l ->
  removeFailedOperation env action labelName w
  = (Returned tt,
     withStorage (<[failedKey inst := VFailed (cleared action labelName l)]> (storage w)) w).
Proof.
  intros Hl. unfold removeFailedOperation.
  rewrite (bind_Returned _ _ _ _ _ (getInstanceData_resolved env inst _ _ _ Hinst)).
  fold (failedKey inst). fold (failedIn inst (storage w)). rewrite Hl.
  rewrite (bind_Returned (asFailed (VFailed l)) _ _ l _ eq_refl).
  rewrite (bind_Returned _ _ _ _ _ (setInstanceData_resolved env inst _ _ _ Hinst)).
  now rewrite (refreshFailedOperations_run env inst Hinst).
Qed.


Lemma addToRecentLabels_run labelName w recentLabels allLabels :
  Js.truthy (Js.trim labelName) = true ->
  recentIn inst (storage w) = VLabels recentLabels ->
  allIn inst (storage w) = VLabels allLabels ->
  addToRecentLabels env labelName w
  = (Returned tt,
     withStorage
       (<[allKey inst := VLabels (allAfter labelName allLabels)]>
          (<[recentKey inst := VLabels (recentAfter labelName recentLabels)]> (storage w)))
       w).
Proof.
  intros Ht Hr Ha. unfold addToRecentLabels. rewrite Ht. cbn [negb].
  rewrite (bind_Returned _ _ _ _ _ (getInstanceData_resolved env inst _ _ _ Hinst)).
  fold (recentKey inst). fold (recentIn inst (storage w)). rewrite Hr.
  rewrite (bind_Returned (asLabels (VLabels recentLabels)) _ _ recentLabels _ eq_refl).
  rewrite (bind_Returned _ _ _ _ _ (getInstanceData_resolved env inst _ _ _ Hinst)).
  fold (allKey inst). fold (allIn inst (storage w)). rewrite Ha.
  rewrite (bind_Returned (asLabels (VLabels allLabels)) _ _ allLabels _ eq_refl).
  rewrite (bind_Returned _ _ _ _ _ (setInstanceData_resolved env inst _ _ _ Hinst)).
  rewrite (setInstanceData_resolved env inst _ _ _ Hinst).
  reflexivity.
Qed.

End Runs.


(** ** Lists cut at a length *)

Lemma take_full_evicts_last {A} (x : A) (h : list A) (n : nat) :
  length h = S n ->
  exists kept oldest, h = kept ++ [oldest] /\ take (S n) (x :: h) = x :: kept.
Proof.
  intros Hlen. exists (take n h).
  destruct (drop n h) as [|oldest [|y rest]] eqn:Ed.
  - apply (f_equal length) in Ed. rewrite length_drop in Ed. simpl in Ed. lia.
  - exists oldest. split; [|reflexivity].
    rewrite <- Ed. symmetry. apply take_drop.
  - apply (f_equal length) in Ed. rewrite length_drop in Ed. simpl in Ed. lia.
Qed.


(** ** How one call of a batch is counted *)

(** When [removeLabel] fulfils: the status is 2xx or 404, and the body of the
    response parses as JSON. *)
Lemma removeOutcome_fulfilled (answer : FetchResult) (j : Json) :
  removeOutcome answer = Returned j
  <-> exists response,
        answer = Responded response
        /\ (rs_ok response = true \/ rs_status response = 404%Z)
        /\ rs_json response = Some j.
Proof.
  unfold removeOutcome. split.
  - destruct answer as [response|e|]; try discriminate.
    destruct (rs_ok response) eqn:Eok; simpl.
    + destruct (rs_json response) eqn:Ej; [|discriminate].
      intros [= <-]. exists response. auto.
    + destruct (rs_status response =? 404)%Z eqn:E4; [|discriminate].
      destruct (rs_json response) eqn:Ej; [|discriminate].
      intros [= <-]. exists response. apply Z.eqb_eq in E4. auto.
  - intros (response & -> & Hs & Hj). rewrite Hj.
    destruct Hs as [->|Hs]; [reflexivity|].
    apply Z.eqb_eq in Hs. rewrite Hs. now rewrite orb_true_r.
Qed.

(** When [addLabel] fulfils: the status is 2xx, and the body parses as JSON. *)
Lemma addOutcome_fulfilled (url : string) (answer : FetchResult) (j : Json) :
  addOutcome url answer = Returned j
  <-> exists response,
        answer = Responded response /\ rs_ok response = true /\ rs_json response = Some j.
Proof.
  unfold addOutcome. split.
  - destruct answer as [response|e|]; try discriminate.
    destruct (rs_ok response) eqn:Eok; [|discriminate].
    destruct (rs_json response) eqn:Ej; [|discriminate].
    intros [= <-]. exists response. auto.
  - intros (response & -> & -> & ->). reflexivity.
Qed.


(** ** Upper and lower case *)

Lemma lowerChar_idempotent c : Js.lowerChar (Js.lowerChar c) = Js.lowerChar c.
Proof. destruct c as [[] [] [] [] [] [] [] []]; reflexivity. Qed.

Lemma toLowerCase_idempotent s : Js.toLowerCase (Js.toLowerCase s) = Js.toLowerCase s.
Proof.
  induction s as [|c s IH]; simpl; [reflexivity|].
  now rewrite lowerChar_idempotent, IH.
Qed.



Lemma elem_of_List_filter {A} (p : A -> bool) (l : list A) x :
  x ∈ List.filter p l <-> x ∈ l /\ p x = true.
Proof. rewrite !list_elem_of_In. apply filter_In. Qed.








Lemma inherited_In (name : string) :
  Js.inherited name = true <-> In name Js.objectPrototype.
Proof.
  unfold Js.inherited. rewrite existsb_exists. split.
  - intros (x & Hx & He). apply String.eqb_eq in He. now subst.
  - intros Hin. exists name. split; [exact Hin|apply String.eqb_refl].
Qed.



(** ** A retry, step by step *)

Section RetryRun.

Variable env : Env.
Variable inst : string.
Hypothesis Hinst : getCurrentInstanceId env = inr inst.


Lemma bind_dateNow {B} (f : Z -> M World B) w :
  bind (dateNow env) f w = f (clock env (clockReads w)) (withClockReads (S (clockReads w)) w).
Proof. reflexivity. Qed.

(** The [finally] block beside the local [retryResult]. *)
Lemma retry_finally_block startTime (r : ExecutionResult) (w : World) :
  (now <- liftW (dateNow env) ;;
   setLocal (withDuration (now - startTime)%Z) ;;
   retryResult <- getLocal ;;
   liftW (saveExecutionResult env retryResult) ;;
   liftW (refreshExecutionHistory env) ;;
   liftW (refreshFailedOperations env) ;;
   liftW (setUIProcessingState false)) (r, w)
  = (fst (retryFinally env startTime r w),
     (withDuration (clock env (clockReads w) - startTime)%Z r,
      snd (retryFinally env startTime r w))).
Proof.
  unfold retryFinally.
  rewrite bind_liftW, bind_dateNow. unfold dateNow.
  rewrite bind_setLocal, bind_getLocal, bind_liftW.
  destruct (saveExecutionResult env
              (withDuration (clock env (clockReads w) - startTime)%Z r)
              (withClockReads (S (clockReads w)) w)) as [[[]|e|] w1] eqn:Es.
  - rewrite (bind_Returned _ _ _ _ _ Es).
    rewrite bind_liftW, (refreshExecutionHistory_run env inst Hinst).
    rewrite bind_liftW, (refreshFailedOperations_run env inst Hinst).
    rewrite (bind_Returned _ _ _ _ _ (refreshExecutionHistory_run env inst Hinst w1)).
    rewrite (bind_Returned _ _ _ _ _ (refreshFailedOperations_run env inst Hinst w1)).
    reflexivity.
  - now rewrite (bind_Thrown _ _ _ _ _ Es).
  - now rewrite (bind_Pending _ _ _ _ Es).
Qed.

Lemma retryFailedOperation_run i w l g firstUid rest :
  failedIn inst (storage w) = VFailed l ->
  l !! i = Some g ->
  fo_failedUids g = firstUid :: rest ->
  retryFailedOperation env i w
  = match retryAttempt env g firstUid w with
    | (Pending, w3) => (Pending, w3)
    | (Thrown e, w3) =>
        retryFinally env (clock env (clockReads w)) (withError e (retryResult0 env g w))
          (withStatus (e, true) w3)
    | (Returned res, w3) =>
        let r1 := withBatchResult res (retryResult0 env g w) in
        let w4 := retryWritten env inst i l g res w3 in
        match forceRefreshAllDisplays_throws env with
        | Some e =>
            retryFinally env (clock env (clockReads w)) (withError e r1) (withStatus (e, true) w4)
        | None => retryFinally env (clock env (clockReads w)) r1 w4
        end
    end.
Proof.
  intros Hl Hg Hu. unfold retryFailedOperation.
  rewrite (bind_Returned _ _ _ _ _ (getInstanceData_resolved env inst _ _ _ Hinst)).
  fold (failedKey inst). fold (failedIn inst (storage w)). rewrite Hl.
  rewrite (bind_Returned (asFailed (VFailed l)) _ _ l _ eq_refl).
  rewrite Hg.
  unfold retryAttempt, retryStart, retryResult0. rewrite Hu.
  unfold setUIProcessingState at 1, setStatus at 1, updateProgress at 1.
  rewrite !bind_modify, !bind_dateNow.
  unfold runLocal, tryFinally, tryCatch.
  rewrite bind_liftW, (getPhotoPrismData_resolved env inst Hinst).
  destruct (pageData env) as [e|data].
  - rewrite bind_setLocal. unfold liftW at 1, setStatus at 1, modify at 1. simpl fst. simpl snd.
    rewrite retry_finally_block.
    destruct (retryFinally env _ _ _) as [[[]|e'|] w']; reflexivity.
  - rewrite bind_liftW.
    set (w2 := withClockReads (S (S (clockReads w))) _).
    match goal with |- context [runBatch env ?a ?n ?u ?f ?t ?v] =>
      tryif constr_eq v w2 then fail else change v with w2 end.
    destruct (runBatch env (fo_action g) (fo_labelName g) (firstUid :: rest) firstUid
                (pd_token data) w2) as [[res|e|] w3].
    + rewrite bind_setLocal, bind_getLocal.
      cbn [er_failedUids withBatchResult]. unfold retryWritten, retried.
      destruct (failedUids res) as [|u us] eqn:Eres.
      * rewrite bind_liftW, (setInstanceData_resolved env inst _ _ _ Hinst).
        fold (failedKey inst).
        unfold liftW at 1, forceRefreshAllDisplays.
        destruct (forceRefreshAllDisplays_throws env) as [e|]; simpl fst; simpl snd;
          [unfold throw; rewrite bind_setLocal;
           unfold liftW at 1, setStatus at 1, modify at 1; simpl fst; simpl snd|unfold ret];
          rewrite retry_finally_block;
          destruct (retryFinally env _ _ _) as [[[]|e'|] w']; reflexivity.
      * rewrite bind_assoc, bind_liftW. unfold dateNow at 1. cbv beta iota.
        rewrite bind_liftW, (setInstanceData_resolved env inst _ _ _ Hinst).
        fold (failedKey inst).
        unfold liftW at 1, forceRefreshAllDisplays.
        destruct (forceRefreshAllDisplays_throws env) as [e|]; simpl fst; simpl snd;
          [unfold throw; rewrite bind_setLocal;
           unfold liftW at 1, setStatus at 1, modify at 1; simpl fst; simpl snd|unfold ret];
          rewrite retry_finally_block;
          destruct (retryFinally env _ _ _) as [[[]|e'|] w']; reflexivity.
    + rewrite bind_setLocal. unfold liftW at 1, setStatus at 1, modify at 1.
      simpl fst. simpl snd.
      rewrite retry_finally_block.
      destruct (retryFinally env _ _ _) as [[[]|e'|] w']; reflexivity.
    + reflexivity.
Qed.

End RetryRun.

(** ** The batch of one operation *)

Section BatchOfOperation.

Variable env : Env.
Variable inst : string.
Hypothesis Hinst : getCurrentInstanceId env = inr inst.

Lemma batchProcess_returned_counts uids apiFn w res w' :
  batchProcess env uids apiFn w = (Returned res, w') ->
  successCount res + failedCount res = length uids
  /\ length (failedUids res) = failedCount res.
Proof.
  intros Hrun.
  destruct (batchProcess_cases env uids apiFn w)
    as (calls & w1 & _ & _ & [[_ (w2 & E)]|[_ (res' & w2 & E & H1 & H2 & _)]]).
  - rewrite E in Hrun. discriminate.
  - rewrite E in Hrun. injection Hrun as <- <-. now split.
Qed.

Lemma batchProcess_never_throws uids apiFn w e w' :
  batchProcess env uids apiFn w <> (Thrown e, w').
Proof.
  intros Hrun.
  destruct (batchProcess_cases env uids apiFn w)
    as (calls & w1 & _ & _ & [[_ (w2 & E)]|[_ (res' & w2 & E & _)]]);
    rewrite E in Hrun; discriminate.
Qed.

(** The store around the resolver: only the label cache may change. *)
Lemma getLabelId_frame labelName firstUid token w k :
  k <> cacheKey inst ->
  storage (snd (getLabelId env labelName firstUid token w)) !! k = storage w !! k.
Proof.
  intros Hk.
  pose proof (getLabelId_cases env inst Hinst labelName firstUid token w) as H.
  simpl in H.
  destruct (getLabelId env labelName firstUid token w) as [[labelId|e|] w']; simpl.
  - destruct H as (cache & _ & [[_ ->]|(_ & l & _ & _ & _ & ->)]); [reflexivity|].
    now rewrite lookup_insert_ne.
  - destruct H as [-> _]. reflexivity.
  - destruct H as [-> _]. reflexivity.
Qed.

(** The requests of the resolver: none, or the detail of the first
    identifier. *)
Lemma getLabelId_requests labelName firstUid token w :
  requests (snd (getLabelId env labelName firstUid token w)) = requests w
  \/ requests (snd (getLabelId env labelName firstUid token w))
     = requests w ++ [detailRequest inst firstUid token].
Proof.
  pose proof (getLabelId_cases env inst Hinst labelName firstUid token w) as H.
  simpl in H.
  destruct (getLabelId env labelName firstUid token w) as [[labelId|e|] w']; simpl.
  - destruct H as (cache & _ & [[_ ->]|(_ & l & _ & _ & Hr & _)]); auto.
  - destruct H as (_ & [[Hr _]|(Hr & _)]); auto.
  - destruct H as (_ & Hr & _); auto.
Qed.

(** The batch of an "add". *)
Lemma runBatch_add labelName uids firstUid token w :
  requests (snd (runBatch env add labelName uids firstUid token w))
  = requests w ++ map (addRequest inst labelName token) uids
  /\ storage (snd (runBatch env add labelName uids firstUid token w)) = storage w
  /\ forall e, fst (runBatch env add labelName uids firstUid token w) <> Thrown e.
Proof.
  unfold runBatch.
  destruct (batchProcess_effect env _ _ uids w
              (oneRequestEach_addLabel env inst Hinst labelName token)) as [Hr Hs].
  split; [exact Hr|]. split; [exact Hs|].
  intros e He.
  destruct (batchProcess env uids _ w) as [o w'] eqn:E. simpl in He. subst o.
  now apply batchProcess_never_throws in E.
Qed.

(** The batch of a "remove": the resolver first; if it does not return, the
    batch is not started. *)
Lemma runBatch_remove labelName uids firstUid token w :
  match getLabelId env labelName firstUid token w with
  | (Returned labelId, w1) =>
      runBatch env remove labelName uids firstUid token w
      = batchProcess env uids (fun uid => removeLabel env uid labelId token) w1
      /\ requests (snd (runBatch env remove labelName uids firstUid token w))
         = requests w1 ++ map (removeRequest inst labelId token) uids
      /\ storage (snd (runBatch env remove labelName uids firstUid token w)) = storage w1
  | (Thrown e, w1) =>
      runBatch env remove labelName uids firstUid token w = (Thrown e, w1)
  | (Pending, w1) =>
      runBatch env remove labelName uids firstUid token w = (Pending, w1)
  end.
Proof.
  unfold runBatch.
  destruct (getLabelId env labelName firstUid token w) as [[labelId|e|] w1] eqn:E.
  - rewrite (bind_Returned _ _ _ _ _ E). split; [reflexivity|].
    apply batchProcess_effect, (oneRequestEach_removeLabel env inst Hinst).
  - now rewrite (bind_Thrown _ _ _ _ _ E).
  - now rewrite (bind_Pending _ _ _ _ E).
Qed.

(** A batch that throws is a "remove" whose resolver threw: the store is as
    before, and nothing but the detail request may have been issued. *)
Lemma runBatch_thrown action labelName uids firstUid token w e w' :
  runBatch env action labelName uids firstUid token w = (Thrown e, w') ->
  action = remove
  /\ getLabelId env labelName firstUid token w = (Thrown e, w')
  /\ storage w' = storage w
  /\ (requests w' = requests w \/ requests w' = requests w ++ [detailRequest inst firstUid token]).
Proof.
  intros Hrun. destruct action.
  - destruct (runBatch_add labelName uids firstUid token w) as (_ & _ & Hn).
    rewrite Hrun in Hn. now destruct (Hn e).
  - pose proof (runBatch_remove labelName uids firstUid token w) as H.
    pose proof (getLabelId_cases env inst Hinst labelName firstUid token w) as Hc.
    pose proof (getLabelId_requests labelName firstUid token w) as Hq.
    simpl in Hc.
    destruct (getLabelId env labelName firstUid token w) as [[labelId|e1|] w1].
    + destruct H as [H _]. rewrite H in Hrun. now apply batchProcess_never_throws in Hrun.
    + rewrite H in Hrun. injection Hrun as <- <-. simpl in Hq. tauto.
    + rewrite H in Hrun. discriminate.
Qed.

(** Whatever the batch, it leaves every key but the label cache alone. *)
Lemma runBatch_frame action labelName uids firstUid token w k :
  k <> cacheKey inst ->
  storage (snd (runBatch env action labelName uids firstUid token w)) !! k = storage w !! k.
Proof.
  intros Hk. destruct action.
  - destruct (runBatch_add labelName uids firstUid token w) as (_ & -> & _). reflexivity.
  - pose proof (runBatch_remove labelName uids firstUid token w) as H.
    pose proof (getLabelId_frame labelName firstUid token w k Hk) as Hf.
    destruct (getLabelId env labelName firstUid token w) as [[labelId|e1|] w1]; simpl in Hf.
    + destruct H as (_ & _ & ->). exact Hf.
    + rewrite H. exact Hf.
    + rewrite H. exact Hf.
Qed.

End BatchOfOperation.

(** ** The end of a retry *)

Section RetryEnd.

Variable env : Env.
Variable inst : string.
Hypothesis Hinst : getCurrentInstanceId env = inr inst.

Lemma failureGroupsAre_resolved w l :
  failureGroupsAre env w l <-> failedIn inst (storage w) = VFailed l.
Proof.
  unfold failureGroupsAre. rewrite (getInstanceData_resolved env inst _ _ _ Hinst).
  fold (failedKey inst). fold (failedIn inst (storage w)).
  split; [now intros [= ->]|now intros ->].
Qed.

Lemma historyIs_resolved w h :
  historyIs env w h <-> historyIn inst (storage w) = VHistory h.
Proof.
  unfold historyIs. rewrite (getInstanceData_resolved env inst _ _ _ Hinst).
  fold (historyKey inst). fold (historyIn inst (storage w)).
  split; [now intros [= ->]|now intros ->].
Qed.

(** The recorder leaves every key but the log alone, and issues no request. *)
Lemma saveExecutionResult_frame r w :
  (forall k, k <> historyKey inst ->
     storage (snd (saveExecutionResult env r w)) !! k = storage w !! k)
  /\ requests (snd (saveExecutionResult env r w)) = requests w.
Proof.
  destruct (historyIn inst (storage w)) as [c|ls|h|f] eqn:Eh.
  3: { rewrite (saveExecutionResult_run env inst Hinst r w h Eh). simpl.
       split; [|reflexivity]. intros k Hk. now rewrite lookup_insert_ne. }
  all: unfold saveExecutionResult;
    rewrite (bind_Returned _ _ w (clock env (clockReads w))
               (withClockReads (S (clockReads w)) w)) by reflexivity;
    rewrite (bind_Returned _ _ _ _ _ (getInstanceData_resolved env inst _ _ _ Hinst));
    simpl storage; fold (historyKey inst); fold (historyIn inst (storage w)); rewrite Eh;
    simpl; split; reflexivity.
Qed.

Lemma retryFinally_run startTime r w h :
  historyIn inst (storage w) = VHistory h ->
  retryFinally env startTime r w
  = (Returned tt,
     withProcessing false
       (withStorage
          (<[historyKey inst :=
               VHistory
                 (take 50
                    (mkHistoryEntry (withDuration (clock env (clockReads w) - startTime)%Z r)
                       (pretty (clock env (S (clockReads w)))) :: h))]> (storage w))
          (withClockReads (S (S (clockReads w))) w))).
Proof.
  intros Hh. unfold retryFinally. rewrite bind_dateNow.
  rewrite (bind_Returned _ _ _ _ _
             (saveExecutionResult_run env inst Hinst _ (withClockReads (S (clockReads w)) w) h Hh)).
  rewrite (bind_Returned _ _ _ _ _ (refreshExecutionHistory_run env inst Hinst _)).
  rewrite (bind_Returned _ _ _ _ _ (refreshFailedOperations_run env inst Hinst _)).
  reflexivity.
Qed.

Lemma retryFinally_frame startTime r w :
  (forall k, k <> historyKey inst ->
     storage (snd (retryFinally env startTime r w)) !! k = storage w !! k)
  /\ requests (snd (retryFinally env startTime r w)) = requests w.
Proof.
  unfold retryFinally. rewrite bind_dateNow.
  destruct (saveExecutionResult_frame
              (withDuration (clock env (clockReads w) - startTime)%Z r)
              (withClockReads (S (clockReads w)) w)) as [Hs Hr].
  destruct (saveExecutionResult env _ (withClockReads (S (clockReads w)) w))
    as [[[]|e|] w1] eqn:Es; simpl in Hs, Hr.
  - rewrite (bind_Returned _ _ _ _ _ Es).
    rewrite (bind_Returned _ _ _ _ _ (refreshExecutionHistory_run env inst Hinst _)).
    rewrite (bind_Returned _ _ _ _ _ (refreshFailedOperations_run env inst Hinst _)).
    simpl. split; assumption.
  - rewrite (bind_Thrown _ _ _ _ _ Es). simpl. split; assumption.
  - rewrite (bind_Pending _ _ _ _ Es). simpl. split; assumption.
Qed.

End RetryEnd.

(** ** A batch that returns, and a batch seen from the start of a retry *)

Section BatchReturned.

Variable env : Env.
Variable inst : string.
Hypothesis Hinst : getCurrentInstanceId env = inr inst.

Lemma runBatch_returned action labelName uids firstUid token w res :
  fst (runBatch env action labelName uids firstUid token w) = Returned res ->
  successCount res + failedCount res = length uids
  /\ length (failedUids res) = failedCount res
  /\ exists pre labelId,
       (pre = [] \/ pre = [detailRequest inst firstUid token])
       /\ requests (snd (runBatch env action labelName uids firstUid token w))
          = requests w ++ pre ++ itemRequests inst action labelName labelId token uids
       /\ (action = remove ->
           fst (getLabelId env labelName firstUid token w) = Returned labelId).
Proof.
  intros Hres. destruct action.
  - destruct (runBatch_add env inst Hinst labelName uids firstUid token w) as (Hr & _ & _).
    unfold runBatch in *.
    destruct (batchProcess env uids _ w) as [o w'] eqn:E. simpl in Hres. subst o.
    destruct (batchProcess_returned_counts env _ _ _ _ _ E) as [H1 H2].
    split; [exact H1|]. split; [exact H2|].
    exists [], (Numeric 0). split; [now left|]. split; [exact Hr|discriminate].
  - pose proof (runBatch_remove env inst Hinst labelName uids firstUid token w) as H.
    pose proof (getLabelId_requests env inst Hinst labelName firstUid token w) as Hq.
    destruct (getLabelId env labelName firstUid token w) as [[labelId|e1|] w1];
      simpl in Hq.
    + destruct H as (Hrun & Hr & _). rewrite Hrun in Hres.
      destruct (batchProcess env uids _ w1) as [o w'] eqn:E. simpl in Hres. subst o.
      destruct (batchProcess_returned_counts env _ _ _ _ _ E) as [H1 H2].
      split; [exact H1|]. split; [exact H2|].
      destruct Hq as [Hq|Hq].
      * exists [], labelId. split; [now left|]. rewrite Hr, Hq. now split.
      * exists [detailRequest inst firstUid token], labelId. split; [now right|].
        rewrite Hr, Hq, <- app_assoc. now split.
    + rewrite H in Hres. discriminate.
    + rewrite H in Hres. discriminate.
Qed.

(** The display and the clock do not bear on a batch: from the world in
    which a retry starts it runs as from the world before. *)
Lemma runBatch_from_retryStart g action labelName uids firstUid token w :
  fst (runBatch env action labelName uids firstUid token (retryStart g w))
  = fst (runBatch env action labelName uids firstUid token w)
  /\ storage (snd (runBatch env action labelName uids firstUid token (retryStart g w)))
     = storage (snd (runBatch env action labelName uids firstUid token w))
  /\ requests (snd (runBatch env action labelName uids firstUid token (retryStart g w)))
     = requests (snd (runBatch env action labelName uids firstUid token w)).
Proof.
  destruct (netLocal_runBatch env action labelName uids firstUid token
              (retryStart g w) w) as [Hf [Hs Hr]]; [split; reflexivity|].
  now repeat split.
Qed.

End BatchReturned.

(** ** The tracker in the store *)

Lemma findIndex_absent {A} (p : A -> bool) (l : list A) :
  (forall x, x ∈ l -> p x = false) -> findIndex p l = None.
Proof.
  induction l as [|x l IH]; intros H; simpl; [reflexivity|].
  rewrite (H x) by left. rewrite IH; [reflexivity|].
  intros y Hy. apply H. now right.
Qed.

(** With one group per key, [findIndex] finds the group of the key where it
    is. *)
Lemma findIndex_of_key (l : list FailedOperation) (i : nat) g op :
  NoDup (groupKey <$> l) -> l !! i = Some g -> groupKey g = groupKey op ->
  findIndex (sameGroup (fo_action op) (fo_labelName op)) l = Some i.
Proof.
  intros Hnd Hg Hk.
  destruct (findIndex _ l) as [j|] eqn:Ef.
  - apply findIndex_Some in Ef as (x & Hx & Hp & _).
    apply sameGroup_true in Hp. f_equal.
    apply (NoDup_lookup (groupKey <$> l) j i (groupKey g)); auto.
    + rewrite list_lookup_fmap, Hx. simpl. now rewrite Hp, Hk.
    + now rewrite list_lookup_fmap, Hg.
  - pose proof (findIndex_None _ _ Ef g (list_elem_of_lookup_2 _ _ _ Hg)) as Hf.
    apply sameGroup_false in Hf. now destruct Hf.
Qed.

Lemma storeInvariant_unresolved env e w :
  getCurrentInstanceId env = inl e -> storeInvariant env w.
Proof.
  intros H. exists []. split.
  - unfold failureGroupsAre. now apply getInstanceData_unresolved with (e := e).
  - split; [constructor|simpl; lia].
Qed.

(** A popup that has stored nothing yet satisfies the invariant. *)
Lemma storeInvariant_emptyWorld env : storeInvariant env emptyWorld.
Proof.
  destruct (getCurrentInstanceId env) as [e|inst] eqn:Hinst.
  - now apply storeInvariant_unresolved with (e := e).
  - exists []. split; [|split; [constructor|simpl; lia]].
    unfold failureGroupsAre. now rewrite (getInstanceData_resolved env inst _ _ _ Hinst).
Qed.

Section TrackerStore.

Variable env : Env.
Variable inst : string.
Hypothesis Hinst : getCurrentInstanceId env = inr inst.

(** What a retry may leave in the tracker. *)
Lemma retry_failed_store i w l :
  failedIn inst (storage w) = VFailed l ->
  failedIn inst (storage (snd (retryFailedOperation env i w))) = VFailed l
  \/ failedIn inst (storage (snd (retryFailedOperation env i w))) = VFailed (delete i l)
  \/ exists g uids stamp,
       l !! i = Some g
       /\ failedIn inst (storage (snd (retryFailedOperation env i w)))
          = VFailed (<[i := retried g uids stamp]> l).
Proof.
  intros Hl.
  destruct (keys_distinct inst) as (_ & _ & _ & Hcf & _ & _ & _ & _ & _ & Hhf).
  destruct (l !! i) as [g|] eqn:Hg.
  2: { left. unfold retryFailedOperation.
       rewrite (bind_Returned _ _ _ _ _ (getInstanceData_resolved env inst _ _ _ Hinst)).
       fold (failedKey inst). fold (failedIn inst (storage w)). rewrite Hl.
       rewrite (bind_Returned (asFailed (VFailed l)) _ _ l _ eq_refl).
       rewrite Hg. exact Hl. }
  destruct (fo_failedUids g) as [|firstUid rest] eqn:Hu.
  { left. unfold retryFailedOperation.
    rewrite (bind_Returned _ _ _ _ _ (getInstanceData_resolved env inst _ _ _ Hinst)).
    fold (failedKey inst). fold (failedIn inst (storage w)). rewrite Hl.
    rewrite (bind_Returned (asFailed (VFailed l)) _ _ l _ eq_refl).
    rewrite Hg, Hu. exact Hl. }
  rewrite (retryFailedOperation_run env inst Hinst i w l g firstUid rest Hl Hg Hu).
  assert (H3 : failedIn inst (storage (snd (retryAttempt env g firstUid w))) = VFailed l).
  { unfold retryAttempt. destruct (pageData env) as [e|data]; [exact Hl|].
    unfold failedIn. rewrite (runBatch_frame env inst Hinst) by congruence. exact Hl. }
  assert (Hfin : forall s r w5,
            failedIn inst (storage (snd (retryFinally env s r w5)))
            = failedIn inst (storage w5)).
  { intros s r w5. unfold failedIn.
    destruct (retryFinally_frame env inst Hinst s r w5) as [Hf _].
    rewrite Hf by congruence. reflexivity. }
  destruct (retryAttempt env g firstUid w) as [[res|e|] w3]; simpl in H3.
  - cbv zeta.
    assert (H4 : failedIn inst (storage (retryWritten env inst i l g res w3)) = VFailed (delete i l)
                 \/ exists uids stamp,
                      failedIn inst (storage (retryWritten env inst i l g res w3))
                      = VFailed (<[i := retried g uids stamp]> l)).
    { unfold retryWritten, failedIn.
      destruct (failedUids res) as [|u us]; simpl storage; rewrite lookup_insert_eq.
      - now left.
      - right. now exists (u :: us), (clock env (clockReads w3)). }
    destruct (forceRefreshAllDisplays_throws env) as [e|]; rewrite Hfin; simpl storage;
      (destruct H4 as [H4|(uids & stamp & H4)];
       [right; left; exact H4|right; right; exists g, uids, stamp; now split]).
  - left. rewrite Hfin. exact H3.
  - left. exact H3.
Qed.

End TrackerStore.


(** ** Computations that issue no request *)

Lemma keeps_ret {S V A} (view : S -> V) (a : A) : keeps view (ret a).
Proof. intros s. reflexivity. Qed.

Lemma keeps_throw {S V A} (view : S -> V) e : keeps view (@throw S A e).
Proof. intros s. reflexivity. Qed.

Lemma keeps_bind {S V A B} (view : S -> V) (m : M S A) (f : A -> M S B) :
  keeps view m -> (forall a, keeps view (f a)) -> keeps view (bind m f).
Proof.
  intros Hm Hf s. unfold bind. specialize (Hm s).
  destruct (m s) as [[a|e|] s']; simpl in *; auto.
  now rewrite Hf.
Qed.

Lemma keeps_tryCatch {S V A} (view : S -> V) (m : M S A) (h : string -> M S A) :
  keeps view m -> (forall e, keeps view (h e)) -> keeps view (tryCatch m h).
Proof.
  intros Hm Hh s. unfold tryCatch. specialize (Hm s).
  destruct (m s) as [[a|e|] s']; simpl in *; auto.
  now rewrite Hh.
Qed.

Lemma keeps_tryFinally {S V A} (view : S -> V) (m : M S A) (fin : M S unit) :
  keeps view m -> keeps view fin -> keeps view (tryFinally m fin).
Proof.
  intros Hm Hf s. unfold tryFinally. specialize (Hm s).
  destruct (m s) as [[a|e|] s']; simpl in *; auto;
    specialize (Hf s'); destruct (fin s') as [[u|e'|] s'']; simpl in *; congruence.
Qed.

(** After a computation, a continuation, a handler or a [finally] block that
    keep the view leave it as the computation left it. *)
Lemma view_bind_keeps {S V A B} (view : S -> V) (m : M S A) (f : A -> M S B) s :
  (forall a, keeps view (f a)) -> view (snd (bind m f s)) = view (snd (m s)).
Proof.
  intros Hf. unfold bind. destruct (m s) as [[a|e|] s']; simpl; auto. apply Hf.
Qed.

Lemma view_tryCatch_keeps {S V A} (view : S -> V) (m : M S A) (h : string -> M S A) s :
  (forall e, keeps view (h e)) -> view (snd (tryCatch m h s)) = view (snd (m s)).
Proof.
  intros Hh. unfold tryCatch. destruct (m s) as [[a|e|] s']; simpl; auto. apply Hh.
Qed.

Lemma view_tryFinally_keeps {S V A} (view : S -> V) (m : M S A) (fin : M S unit) s :
  keeps view fin -> view (snd (tryFinally m fin s)) = view (snd (m s)).
Proof.
  intros Hf. unfold tryFinally. destruct (m s) as [[a|e|] s']; simpl; auto;
    specialize (Hf s'); destruct (fin s') as [[u|e'|] s'']; simpl in *; congruence.
Qed.

Lemma keeps_liftW {L A} (m : M World A) :
  keeps requests m -> keeps (@requestsOf L) (liftW m).
Proof.
  intros Hm [r w]. unfold liftW, requestsOf. simpl. specialize (Hm w).
  now destruct (m w).
Qed.

Lemma keeps_setLocal {L} (g : L -> L) : keeps (@requestsOf L) (setLocal g).
Proof. intros [r w]. reflexivity. Qed.

Lemma keeps_getLocal {L} : keeps (@requestsOf L) getLocal.
Proof. intros [r w]. reflexivity. Qed.

Lemma keeps_modify_requests (g : World -> World) :
  (forall w, requests (g w) = requests w) -> keeps requests (modify g).
Proof. intros H w. apply H. Qed.

Section Quiet.

Variable env : Env.

Lemma keeps_dateNow : keeps requests (dateNow env).
Proof. intros w. reflexivity. Qed.

Lemma keeps_getInstanceData k d : keeps requests (getInstanceData env k d).
Proof.
  intros w. unfold getInstanceData, tryCatch, bind, gets, ret, throw.
  now destruct (getCurrentInstanceId env).
Qed.

Lemma keeps_setInstanceData k v : keeps requests (setInstanceData env k v).
Proof.
  intros w. unfold setInstanceData, tryCatch, bind, modify, ret, throw.
  now destruct (getCurrentInstanceId env).
Qed.

Lemma keeps_refreshExecutionHistory : keeps requests (refreshExecutionHistory env).
Proof.
  unfold refreshExecutionHistory.
  apply keeps_tryCatch; [|intros; apply keeps_ret].
  apply keeps_bind; [apply keeps_getInstanceData|]. intros v.
  apply keeps_bind; [|intros; apply keeps_ret].
  destruct v; first [apply keeps_ret|apply keeps_throw].
Qed.

Lemma keeps_refreshFailedOperations : keeps requests (refreshFailedOperations env).
Proof.
  unfold refreshFailedOperations.
  apply keeps_tryCatch; [|intros; apply keeps_ret].
  apply keeps_bind; [apply keeps_getInstanceData|]. intros v.
  apply keeps_bind; [|intros; apply keeps_ret].
  destruct v; first [apply keeps_ret|apply keeps_throw].
Qed.

Lemma keeps_saveExecutionResult r : keeps requests (saveExecutionResult env r).
Proof.
  unfold saveExecutionResult.
  apply keeps_bind; [apply keeps_dateNow|]. intros now.
  apply keeps_bind; [apply keeps_getInstanceData|]. intros v.
  apply keeps_bind; [destruct v; first [apply keeps_ret|apply keeps_throw]|]. intros h.
  apply keeps_bind; [apply keeps_setInstanceData|]. intros _.
  apply keeps_refreshExecutionHistory.
Qed.

Lemma keeps_saveFailedOperation op : keeps requests (saveFailedOperation env op).
Proof.
  unfold saveFailedOperation.
  apply keeps_bind; [apply keeps_getInstanceData|]. intros v.
  apply keeps_bind; [destruct v; first [apply keeps_ret|apply keeps_throw]|]. intros l.
  apply keeps_bind; [apply keeps_setInstanceData|]. intros _.
  apply keeps_refreshFailedOperations.
Qed.

Lemma keeps_removeFailedOperation action labelName :
  keeps requests (removeFailedOperation env action labelName).
Proof.
  unfold removeFailedOperation.
  apply keeps_bind; [apply keeps_getInstanceData|]. intros v.
  apply keeps_bind; [destruct v; first [apply keeps_ret|apply keeps_throw]|]. intros l.
  apply keeps_bind; [apply keeps_setInstanceData|]. intros _.
  apply keeps_refreshFailedOperations.
Qed.

Lemma keeps_addToRecentLabels labelName : keeps requests (addToRecentLabels env labelName).
Proof.
  unfold addToRecentLabels. destruct (negb _); [apply keeps_ret|].
  apply keeps_bind; [apply keeps_getInstanceData|]. intros v.
  apply keeps_bind; [destruct v; first [apply keeps_ret|apply keeps_throw]|]. intros l.
  apply keeps_bind; [apply keeps_getInstanceData|]. intros v'.
  apply keeps_bind; [destruct v'; first [apply keeps_ret|apply keeps_throw]|]. intros l'.
  apply keeps_bind; [apply keeps_setInstanceData|]. intros _.
  apply keeps_setInstanceData.
Qed.

End Quiet.

(** ** The requests of [handleAction] *)

Section HandleRequests.

Variable env : Env.
Variable inst : string.
Hypothesis Hinst : getCurrentInstanceId env = inr inst.

Lemma requestsOf_liftW {L A} (m : M World A) (r : L) (w : World) :
  requestsOf (snd (liftW m (r, w))) = requests (snd (m w)).
Proof. unfold liftW, requestsOf. simpl. now destruct (m w). Qed.

Lemma requests_runLocal {L A} (r0 : L) (m : M (L * World) A) (w : World) :
  requests (snd (runLocal r0 m w)) = requestsOf (snd (m (r0, w))).
Proof. unfold runLocal, requestsOf. now destruct (m (r0, w)) as [r [l w']]. Qed.

(** Once the batch has ended, whatever [handleAction] still does issues no
    request: its requests are those of the page data and of the batch. *)
Lemma handleAction_requests input action w :
  Js.truthy (Js.trim input) = true ->
  requests (snd (handleAction env input action w))
  = requests (handleAttempted env action (Js.trim input) w).
Proof.
  intros Ht. unfold handleAction. rewrite Ht. cbn [negb].
  unfold setUIProcessingState at 1, setStatus at 1, updateProgress at 1.
  rewrite !bind_modify, !bind_dateNow.
  rewrite requests_runLocal.
  rewrite view_tryFinally_keeps
    by (apply keeps_liftW, keeps_modify_requests; reflexivity).
  rewrite view_tryCatch_keeps.
  2: { intros e.
       apply keeps_bind; [apply keeps_setLocal|]. intros _.
       apply keeps_bind; [apply keeps_liftW, keeps_dateNow|]. intros now.
       apply keeps_bind; [apply keeps_setLocal|]. intros _.
       apply keeps_bind; [apply keeps_getLocal|]. intros r.
       apply keeps_bind; [apply keeps_liftW, keeps_saveExecutionResult|]. intros _.
       apply keeps_bind; [apply keeps_liftW, keeps_modify_requests; reflexivity|]. intros _.
       apply keeps_liftW, keeps_refreshFailedOperations. }
  rewrite bind_liftW, (getPhotoPrismData_resolved env inst Hinst).
  unfold handleAttempted, handleProcessing, handleStart.
  destruct (pageData env) as [e|data]; [reflexivity|].
  destruct (pd_uids data) as [|firstUid rest] eqn:Eu; [reflexivity|].
  rewrite bind_setLocal, bind_liftW.
  unfold setStatus at 1, modify at 1.
  rewrite view_bind_keeps.
  - rewrite requestsOf_liftW. reflexivity.
  - intros res.
    apply keeps_bind; [apply keeps_setLocal|]. intros _.
    apply keeps_bind; [apply keeps_liftW, keeps_dateNow|]. intros now.
    apply keeps_bind; [apply keeps_setLocal|]. intros _.
    apply keeps_bind; [apply keeps_getLocal|]. intros r.
    apply keeps_bind; [apply keeps_liftW, keeps_saveExecutionResult|]. intros _.
    apply keeps_bind.
    + destruct (er_failedUids r).
      * apply keeps_liftW, keeps_removeFailedOperation.
      * apply keeps_bind; [apply keeps_liftW, keeps_dateNow|]. intros stamp.
        apply keeps_liftW, keeps_saveFailedOperation.
    + intros _.
      apply keeps_bind; [apply keeps_liftW, keeps_addToRecentLabels|]. intros _.
      apply keeps_liftW, keeps_modify_requests; reflexivity.
Qed.

End HandleRequests.

(** ** An action whose batch throws *)

Section HandleThrown.

Variable env : Env.
Variable inst : string.
Hypothesis Hinst : getCurrentInstanceId env = inr inst.

Lemma handleAction_batch_thrown input action w data firstUid rest e w3 h :
  Js.truthy (Js.trim input) = true ->
  pageData env = inr data ->
  pd_uids data = firstUid :: rest ->
  runBatch env action (Js.trim input) (pd_uids data) firstUid (pd_token data)
    (handleProcessing (length (pd_uids data)) w) = (Thrown e, w3) ->
  historyIn inst (storage w3) = VHistory h ->
  exists w',
    handleAction env input action w = (Returned tt, w')
    /\ requests w' = requests w3
    /\ storage w'
       = <[historyKey inst :=
             VHistory
               (take 50
                  (mkHistoryEntry
                     (withDuration (clock env (clockReads w3) - clock env (clockReads w))%Z
                        (withError e
                           (withTotalCount (length (pd_uids data))
                              (executionResult0 env action (Js.trim input) w))))
                     (pretty (clock env (S (clockReads w3)))) :: h))]> (storage w3).
Proof.
  intros Ht Hpage Hu Hrun Hh. unfold handleAction. rewrite Ht. cbn [negb].
  unfold setUIProcessingState at 1, setStatus at 1, updateProgress at 1.
  rewrite !bind_modify, !bind_dateNow.
  unfold runLocal, tryFinally, tryCatch.
  rewrite bind_liftW, (getPhotoPrismData_resolved env inst Hinst), Hpage.
  unfold handleProcessing, handleStart in Hrun. rewrite Hu in *.
  rewrite bind_setLocal, bind_liftW.
  unfold setStatus at 1, modify at 1.
  rewrite bind_liftW.
  match goal with |- context [runBatch env ?a ?n ?u ?f ?t ?v] =>
    match type of Hrun with runBatch _ _ _ _ _ _ ?v0 = _ => change v with v0 end end.
  rewrite Hrun.
  rewrite bind_setLocal, bind_liftW. unfold dateNow at 1. cbv beta iota.
  rewrite bind_setLocal, bind_getLocal, bind_liftW.
  rewrite (saveExecutionResult_run env inst Hinst _ (withClockReads (S (clockReads w3)) w3)
             h Hh).
  rewrite bind_liftW. unfold setStatus at 1, modify at 1.
  unfold liftW at 1. cbn [snd fst].
  rewrite (refreshFailedOperations_run env inst Hinst).
  unfold liftW at 1. cbn [snd fst]. unfold setUIProcessingState, modify.
  eexists. split; [reflexivity|]. split; reflexivity.
Qed.

End HandleThrown.

(** ** An action whose batch returns *)

Section HandleReturned.

Variable env : Env.
Variable inst : string.
Hypothesis Hinst : getCurrentInstanceId env = inr inst.

Lemma addToRecentLabels_returns labelName w recentLabels allLabels :
  recentIn inst (storage w) = VLabels recentLabels ->
  allIn inst (storage w) = VLabels allLabels ->
  exists w',
    addToRecentLabels env labelName w = (Returned tt, w')
    /\ forall k, k <> recentKey inst -> k <> allKey inst -> storage w' !! k = storage w !! k.
Proof.
  intros Hr Ha. destruct (Js.truthy (Js.trim labelName)) eqn:Ht.
  - eexists. split; [now apply (addToRecentLabels_run env inst Hinst) with
                       (recentLabels := recentLabels) (allLabels := allLabels)|].
    intros k Hk1 Hk2. simpl. now rewrite !lookup_insert_ne by congruence.
  - exists w. split; [|reflexivity]. unfold addToRecentLabels. now rewrite Ht.
Qed.

Lemma handleAction_batch_returned input action w data firstUid rest res w3 h l
    recentLabels allLabels :
  Js.truthy (Js.trim input) = true ->
  pageData env = inr data ->
  pd_uids data = firstUid :: rest ->
  runBatch env action (Js.trim input) (pd_uids data) firstUid (pd_token data)
    (handleProcessing (length (pd_uids data)) w) = (Returned res, w3) ->
  historyIn inst (storage w3) = VHistory h ->
  failedIn inst (storage w3) = VFailed l ->
  recentIn inst (storage w3) = VLabels recentLabels ->
  allIn inst (storage w3) = VLabels allLabels ->
  exists w' entry,
    handleAction env input action w = (Returned tt, w')
    /\ historyIn inst (storage w') = VHistory (take 50 (entry :: h))
    /\ he_result entry
       = withDuration (clock env (clockReads w3) - clock env (clockReads w))%Z
           (withBatchResult res
              (withTotalCount (length (pd_uids data))
                 (executionResult0 env action (Js.trim input) w)))
    /\ failedIn inst (storage w')
       = VFailed
           (match failedUids res with
            | [] => cleared action (Js.toLowerCase (Js.trim input)) l
            | _ :: _ =>
                reported
                  (mkFailedOperation action (Js.trim input) (failedUids res)
                     (clock env (S (S (clockReads w3)))) 0) l
            end).
Proof.
  intros Ht Hpage Hu Hrun Hh Hl Hrec Hall.
  destruct (keys_distinct inst)
    as (_ & _ & _ & _ & _ & Hrh & Hrf & Hah & Haf & Hhf).
  unfold handleAction. rewrite Ht. cbn [negb].
  unfold setUIProcessingState at 1, setStatus at 1, updateProgress at 1.
  rewrite !bind_modify, !bind_dateNow.
  unfold runLocal, tryFinally, tryCatch.
  rewrite bind_liftW, (getPhotoPrismData_resolved env inst Hinst), Hpage.
  unfold handleProcessing, handleStart in Hrun. rewrite Hu in *.
  rewrite bind_setLocal, bind_liftW.
  unfold setStatus at 1, modify at 1.
  rewrite bind_liftW.
  match goal with |- context [runBatch env ?a ?n ?u ?f ?t ?v] =>
    match type of Hrun with runBatch _ _ _ _ _ _ ?v0 = _ => change v with v0 end end.
  rewrite Hrun.
  rewrite bind_setLocal, bind_liftW. unfold dateNow at 1. cbv beta iota.
  rewrite bind_setLocal, bind_getLocal, bind_liftW.
  rewrite (saveExecutionResult_run env inst Hinst _ (withClockReads (S (clockReads w3)) w3)
             h Hh).
  cbn [er_failedUids withDuration withBatchResult].
  set (w3b := withStorage _ (withClockReads (S (clockReads (withClockReads _ w3))) _)).
  assert (Hl3 : failedIn inst (storage w3b) = VFailed l).
  { unfold failedIn, w3b. simpl storage. now rewrite lookup_insert_ne by congruence. }
  assert (Hstep : exists w4,
            (match failedUids res with
             | [] => liftW (removeFailedOperation env action (Js.toLowerCase (Js.trim input)))
             | _ :: _ =>
                 stamp <- liftW (dateNow env) ;;
                 liftW (saveFailedOperation env
                          (mkFailedOperation action (Js.trim input) (failedUids res) stamp 0))
             end)
              (withDuration (clock env (clockReads w3) - clock env (clockReads w))%Z
                 (withBatchResult res
                    (withTotalCount (length (firstUid :: rest))
                       (executionResult0 env action (Js.trim input) w))), w3b)
            = (Returned tt,
               (withDuration (clock env (clockReads w3) - clock env (clockReads w))%Z
                  (withBatchResult res
                     (withTotalCount (length (firstUid :: rest))
                        (executionResult0 env action (Js.trim input) w))), w4))
            /\ failedIn inst (storage w4)
               = VFailed
                   (match failedUids res with
                    | [] => cleared action (Js.toLowerCase (Js.trim input)) l
                    | _ :: _ =>
                        reported
                          (mkFailedOperation action (Js.trim input) (failedUids res)
                             (clock env (S (S (clockReads w3)))) 0) l
                    end)
            /\ forall k, k <> failedKey inst -> storage w4 !! k = storage w3b !! k).
  { destruct (failedUids res) as [|u us].
    - eexists. unfold liftW. cbn [snd fst].
      rewrite (removeFailedOperation_run env inst Hinst _ _ w3b l Hl3).
      split; [reflexivity|]. split.
      + unfold failedIn. simpl storage. now rewrite lookup_insert_eq.
      + intros k Hk. simpl storage. now rewrite lookup_insert_ne by congruence.
    - eexists. rewrite bind_liftW. unfold dateNow at 1. cbv beta iota.
      unfold liftW. cbn [snd fst].
      rewrite (saveFailedOperation_run env inst Hinst _
                 (withClockReads (S (clockReads w3b)) w3b) l Hl3).
      split; [reflexivity|]. split.
      + unfold failedIn. simpl storage. now rewrite lookup_insert_eq.
      + intros k Hk. simpl storage. now rewrite lookup_insert_ne by congruence. }
  destruct Hstep as (w4 & Estep & Hf4 & Hframe4).
  unfold executionResult0 in Estep |- *.
  match type of Estep with ?m ?s = _ =>
    match goal with |- context [bind ?m' ?f ?s'] =>
      change (bind m' f s') with (bind m f s) end end.
  rewrite (bind_Returned _ _ _ _ _ Estep).
  assert (Hrec4 : recentIn inst (storage w4) = VLabels recentLabels).
  { unfold recentIn. rewrite Hframe4 by congruence. unfold w3b. simpl storage.
    now rewrite lookup_insert_ne by congruence. }
  assert (Hall4 : allIn inst (storage w4) = VLabels allLabels).
  { unfold allIn. rewrite Hframe4 by congruence. unfold w3b. simpl storage.
    now rewrite lookup_insert_ne by congruence. }
  destruct (addToRecentLabels_returns (Js.trim input) w4 recentLabels allLabels Hrec4 Hall4)
    as (w5 & E5 & Hframe5).
  rewrite bind_liftW, E5.
  unfold liftW at 1, setStatus at 1, modify at 1. cbn [snd fst].
  unfold liftW at 1, setUIProcessingState, modify. cbn [snd fst].
  eexists. eexists (mkHistoryEntry _ _).
  split; [reflexivity|]. simpl storage.
  split; [|split; [reflexivity|]].
  - unfold historyIn. rewrite Hframe5, Hframe4 by congruence. unfold w3b. simpl storage.
    now rewrite lookup_insert_eq.
  - unfold failedIn in *. rewrite Hframe5 by congruence. exact Hf4.
Qed.

End HandleReturned.

(** ** The scenario of the specification, run *)

(** "cat" added to three photos, the third failing: two successes, one
    failure, and a group for the third photo. *)
Example scenario_add_with_one_failure :
  fst (runBatch x3FailsEnv add "Cat" ["x1"; "x2"; "x3"] "x1" "tok" emptyWorld)
  = Returned (mkBatchResult 2 1 ["x3"])
  /\ groupsOf afterFirstAdd = [x3Group]
  /\ historyOf afterFirstAdd = [firstAddEntry].
Proof. vm_compute. repeat split. Qed.

(** A call that never settles keeps the whole batch from returning. *)
Example scenario_call_never_settles :
  fst (batchProcess frozenClockEnv ["x1"]
         (fun uid => addLabel frozenClockEnv uid "cat" "tok") emptyWorld)
  = Pending.
Proof. vm_compute. reflexivity. Qed.

(* ===================================================================== *)
(** * The claims of the specification *)
(* ===================================================================== *)

(** ** Batches: every call settles, and the counts add up *)

(** C1.  Every call of a batch is started, whatever becomes of the others:
    the call for the first identifier in the world in which the batch has
    announced itself, the call for each other identifier in the world the call
    before it left, whether that call was fulfilled, was rejected or never
    settles; and each call is kept, under its identifier, with the way it
    settled.  If one of the calls never settles, [batchProcess] never returns;
    otherwise it returns, and the aggregate it returns satisfies
    [successCount + failedCount = N] and [length failedUids = failedCount],
    where [successCount] counts the fulfilled calls and [failedUids] lists the
    identifiers of the rejected calls in their order of completion.  It never
    throws. *)
Theorem batchProcess_waits_for_all_and_counts
    (env : Env) (uids : list string) (apiFn : string -> M World Json) (w : World) :
  let w0 := withProgress (progress w ++ [(0, length uids)]) w in
  exists calls (worlds : list World) w1,
    startCalls uids apiFn w0 = (Returned calls, w1)
    /\ map fst calls = uids
    /\ worlds !! 0 = Some w0
    /\ worlds !! length uids = Some w1
    /\ (forall i uid,
          uids !! i = Some uid ->
          exists wi,
            worlds !! i = Some wi
            /\ calls !! i = Some (uid, fst (apiFn uid wi))
            /\ worlds !! S i = Some (snd (apiFn uid wi)))
    /\ ((existsb (fun c => isPending (snd c)) calls = true
         /\ exists w', batchProcess env uids apiFn w = (Pending, w'))
        \/ (existsb (fun c => isPending (snd c)) calls = false
            /\ exists res w',
                 batchProcess env uids apiFn w = (Returned res, w')
                 /\ successCount res + failedCount res = length uids
                 /\ length (failedUids res) = failedCount res
                 /\ successCount res
                    = length (List.filter (fulfilledAt calls) (seq 0 (length uids)))
                 /\ failedUids res
                    = omap (rejectedUid calls) (normalizedOrder env (length uids)))).
Proof.
  intros w0.
  destruct (startCalls_trace uids apiFn w0) as (calls & worlds & w1 & E & H0 & Hn & Hall).
  destruct (batchProcess_cases env uids apiFn w) as (calls' & w1' & E' & Hfst & Hcases).
  fold w0 in E'. rewrite E in E'. injection E' as <- <-.
  exists calls, worlds, w1. repeat (split; [assumption|]). exact Hcases.
Qed.

(** ** Removing a label: the resolver before any delete *)

(** C2.  In a "remove" the label is resolved once, on the first identifier,
    before any [DELETE]: the requests of the whole action are at most one
    detail request for the first identifier, followed, if the resolver
    returned, by one [DELETE] per identifier.  If the resolver throws (label
    not on the photo, detail not fetched), no [DELETE] is issued, the action
    ends normally, and the execution log receives a record with no success, no
    failure and the error. *)
Theorem remove_resolves_label_once_before_any_delete
    (env : Env) (inst : string) (input : string) (w : World) (data : PageData)
    (firstUid : string) (rest : list string) (h : list HistoryEntry) :
  getCurrentInstanceId env = inr inst ->
  Js.truthy (Js.trim input) = true ->
  pageData env = inr data ->
  pd_uids data = firstUid :: rest ->
  historyIs env w h ->
  (exists pre,
     (pre = [] \/ pre = [detailRequest inst firstUid (pd_token data)])
     /\ match fst (getLabelId env (Js.trim input) firstUid (pd_token data) w) with
        | Returned labelId =>
            requests (snd (handleAction env input remove w))
            = requests w ++ pre ++ map (removeRequest inst labelId (pd_token data)) (pd_uids data)
        | _ => requests (snd (handleAction env input remove w)) = requests w ++ pre
        end)
  /\ (forall e,
        fst (getLabelId env (Js.trim input) firstUid (pd_token data) w) = Thrown e ->
        exists w' entry,
          handleAction env input remove w = (Returned tt, w')
          /\ historyIs env w' (take 50 (entry :: h))
          /\ (forall k, k <> historyKey inst -> storage w' !! k = storage w !! k)
          /\ er_action (he_result entry) = remove
          /\ er_labelName (he_result entry) = Js.trim input
          /\ er_totalCount (he_result entry) = length (pd_uids data)
          /\ er_successCount (he_result entry) = 0
          /\ er_failedCount (he_result entry) = 0
          /\ er_failedUids (he_result entry) = []
          /\ er_error (he_result entry) = Some e).
Proof.
  intros Hinst Ht Hpage Hu Hh.
  apply (historyIs_resolved env inst Hinst) in Hh.
  destruct (netLocal_runBatch env remove (Js.trim input) (pd_uids data) firstUid
              (pd_token data) (handleProcessing (length (pd_uids data)) w) w)
    as [Hf [Hs Hr]]; [split; reflexivity|].
  pose proof (runBatch_remove env inst Hinst (Js.trim input) (pd_uids data) firstUid
                (pd_token data) w) as Hrm.
  pose proof (getLabelId_requests env inst Hinst (Js.trim input) firstUid (pd_token data) w)
    as Hq.
  pose proof (getLabelId_cases env inst Hinst (Js.trim input) firstUid (pd_token data) w)
    as Hc.
  simpl in Hc.
  split.
  - assert (Hreq : requests (snd (handleAction env input remove w))
                   = requests (snd (runBatch env remove (Js.trim input) (pd_uids data)
                                      firstUid (pd_token data) w))).
    { rewrite (handleAction_requests env inst Hinst input remove w Ht).
      unfold handleAttempted. rewrite Hpage, Hu. rewrite <- Hu. exact Hr. }
    rewrite Hreq.
    destruct (getLabelId env (Js.trim input) firstUid (pd_token data) w)
      as [[labelId|e|] w1]; simpl in Hq; cbn [fst].
    + destruct Hrm as (_ & Hrq & _). rewrite Hrq.
      destruct Hq as [Hq|Hq]; rewrite Hq.
      * exists []. split; [now left|reflexivity].
      * exists [detailRequest inst firstUid (pd_token data)].
        split; [now right|]. now rewrite <- app_assoc.
    + rewrite Hrm. simpl.
      destruct Hq as [Hq|Hq]; rewrite Hq.
      * exists []. split; [now left|]. now rewrite app_nil_r.
      * exists [detailRequest inst firstUid (pd_token data)]. split; [now right|reflexivity].
    + rewrite Hrm. simpl.
      destruct Hq as [Hq|Hq]; rewrite Hq.
      * exists []. split; [now left|]. now rewrite app_nil_r.
      * exists [detailRequest inst firstUid (pd_token data)]. split; [now right|reflexivity].
  - intros e He.
    destruct (getLabelId env (Js.trim input) firstUid (pd_token data) w)
      as [[labelId|e1|] w1]; simpl in He; try discriminate.
    injection He as ->. rewrite Hrm in Hf. cbn [fst] in Hf.
    destruct (runBatch env remove (Js.trim input) (pd_uids data) firstUid (pd_token data)
                (handleProcessing (length (pd_uids data)) w)) as [o w3] eqn:E3.
    cbn [fst snd] in Hf, Hs. subst o.
    destruct (runBatch_thrown env inst Hinst _ _ _ _ _ _ _ _ E3) as (_ & _ & Hs3 & _).
    simpl storage in Hs3.
    assert (Hh3 : historyIn inst (storage w3) = VHistory h) by now rewrite Hs3.
    destruct (handleAction_batch_thrown env inst Hinst input remove w data firstUid rest
                e w3 h Ht Hpage Hu E3 Hh3) as (w' & Erun & _ & Hst).
    exists w'.
    exists (mkHistoryEntry
              (withDuration (clock env (clockReads w3) - clock env (clockReads w))%Z
                 (withError e
                    (withTotalCount (length (pd_uids data))
                       (executionResult0 env remove (Js.trim input) w))))
              (pretty (clock env (S (clockReads w3))))).
    split; [exact Erun|].
    split; [|split; [|repeat split; reflexivity]].
    + apply (historyIs_resolved env inst Hinst). unfold historyIn. rewrite Hst.
      rewrite lookup_insert_eq. reflexivity.
    + intros k Hk. rewrite Hst, lookup_insert_ne by congruence. now rewrite Hs3.
Qed.

(** Removing "dog", which the first photo does not carry: one detail request,
    no [DELETE], and a record of the error. *)
Lemma remove_resolves_label_once_before_any_delete_witness :
  fst (getLabelId noDogEnv "dog" "x1" "tok" emptyWorld) = Thrown dogError
  /\ exists w' entry,
       handleAction noDogEnv "dog" remove emptyWorld = (Returned tt, w')
       /\ requests w' = [detailRequest demoInstance "x1" "tok"]
       /\ historyIs noDogEnv w' [entry]
       /\ er_successCount (he_result entry) = 0
       /\ er_failedCount (he_result entry) = 0
       /\ er_error (he_result entry) = Some dogError.
Proof.
  split; [vm_compute; reflexivity|].
  destruct (remove_resolves_label_once_before_any_delete noDogEnv demoInstance "dog"
              emptyWorld (mkPageData ["x1"; "x2"] "tok") "x1" ["x2"] []
              eq_refl eq_refl eq_refl eq_refl eq_refl) as [_ H].
  destruct (H dogError ltac:(vm_compute; reflexivity))
    as (w' & entry & Hrun & Hh & _ & _ & _ & _ & Hs & Hf & _ & He).
  exists w', entry. split; [exact Hrun|].
  split; [|repeat split; assumption].
  replace w' with (snd (handleAction noDogEnv "dog" remove emptyWorld))
    by (now rewrite Hrun).
  vm_compute. reflexivity.
Defined.

(** ** Retrying a failure group *)

(** C3.  A retry of group [i] whose batch returns runs the batch over
    exactly the identifiers of the group: one request per identifier, after
    at most the detail request of the resolver.  If every call succeeded the
    group is deleted from the tracker at its position; otherwise the group is
    rewritten in place with the identifiers that failed again and its retry
    count plus one.  In both cases the outcome is recorded at the head of the
    execution log, with [isRetry] set and the counts of the batch. *)
Theorem retry_reruns_group_and_updates_tracker
    (env : Env) (inst : string) (i : nat) (w : World)
    (l : list FailedOperation) (g : FailedOperation) (firstUid : string) (rest : list string)
    (h : list HistoryEntry) (data : PageData) (res : BatchResult) :
  getCurrentInstanceId env = inr inst ->
  failureGroupsAre env w l ->
  l !! i = Some g ->
  fo_failedUids g = firstUid :: rest ->
  historyIs env w h ->
  pageData env = inr data ->
  fst (runBatch env (fo_action g) (fo_labelName g) (fo_failedUids g) firstUid
         (pd_token data) w) = Returned res ->
  exists w' entry,
    retryFailedOperation env i w = (Returned tt, w')
    /\ successCount res + failedCount res = length (fo_failedUids g)
    /\ length (failedUids res) = failedCount res
    /\ (exists pre labelId,
          (pre = [] \/ pre = [detailRequest inst firstUid (pd_token data)])
          /\ requests w'
             = requests w ++ pre
               ++ itemRequests inst (fo_action g) (fo_labelName g) labelId (pd_token data)
                    (fo_failedUids g))
    /\ (successCount res = length (fo_failedUids g) -> failureGroupsAre env w' (delete i l))
    /\ (successCount res < length (fo_failedUids g) ->
        exists stamp,
          failureGroupsAre env w'
            (<[i := mkFailedOperation (fo_action g) (fo_labelName g) (failedUids res) stamp
                      (S (fo_retryCount g))]> l))
    /\ historyIs env w' (take 50 (entry :: h))
    /\ er_isRetry (he_result entry) = true
    /\ er_action (he_result entry) = fo_action g
    /\ er_labelName (he_result entry) = fo_labelName g
    /\ er_totalCount (he_result entry) = length (fo_failedUids g)
    /\ er_successCount (he_result entry) = successCount res
    /\ er_failedCount (he_result entry) = failedCount res
    /\ er_failedUids (he_result entry) = failedUids res.
Proof.
  intros Hinst Hl Hg Hu Hh Hpage Hres.
  apply (failureGroupsAre_resolved env inst Hinst) in Hl.
  apply (historyIs_resolved env inst Hinst) in Hh.
  destruct (runBatch_returned env inst Hinst _ _ _ _ _ _ _ Hres)
    as (Hsum & Hlen & pre & labelId & Hpre & Hreq & _).
  destruct (runBatch_from_retryStart env g (fo_action g) (fo_labelName g) (fo_failedUids g)
              firstUid (pd_token data) w) as (Hf & Hs & Hr).
  pose proof (fun k Hk => runBatch_frame env inst Hinst (fo_action g) (fo_labelName g)
                (fo_failedUids g) firstUid (pd_token data) (retryStart g w) k Hk) as Hframe.
  rewrite (retryFailedOperation_run env inst Hinst i w l g firstUid rest Hl Hg Hu).
  unfold retryAttempt. rewrite Hpage.
  destruct (runBatch env (fo_action g) (fo_labelName g) (fo_failedUids g) firstUid
              (pd_token data) (retryStart g w)) as [o w3].
  simpl in Hf, Hs, Hr, Hframe. rewrite Hres in Hf. subst o.
  destruct (keys_distinct inst) as (_ & _ & Hch & _ & _ & _ & _ & _ & _ & Hhf).
  assert (Hh3 : storage w3 !! historyKey inst = storage w !! historyKey inst).
  { rewrite Hframe by congruence. reflexivity. }
  set (w4 := retryWritten env inst i l g res w3).
  assert (Hh4 : historyIn inst (storage w4) = VHistory h).
  { unfold historyIn, w4, retryWritten.
    destruct (failedUids res); simpl storage;
      (rewrite lookup_insert_ne by congruence); rewrite Hh3; exact Hh. }
  assert (Hr4 : requests w4 = requests w3).
  { unfold w4, retryWritten. now destruct (failedUids res). }
  assert (Hf4 : failedIn inst (storage w4)
                = VFailed (match failedUids res with
                           | [] => delete i l
                           | _ :: _ => <[i := retried g (failedUids res)
                                                 (clock env (clockReads w3))]> l
                           end)).
  { unfold failedIn, w4, retryWritten.
    destruct (failedUids res); simpl storage; now rewrite lookup_insert_eq. }
  cbv zeta. fold w4.
  assert (Hend : forall r w5,
            historyIn inst (storage w5) = VHistory h ->
            failedIn inst (storage w5) = failedIn inst (storage w4) ->
            requests w5 = requests w4 ->
            exists w' entry,
              retryFinally env (clock env (clockReads w)) r w5 = (Returned tt, w')
              /\ requests w' = requests w4
              /\ failedIn inst (storage w') = failedIn inst (storage w4)
              /\ historyIn inst (storage w') = VHistory (take 50 (entry :: h))
              /\ he_result entry
                 = withDuration (clock env (clockReads w5) - clock env (clockReads w))%Z r).
  { intros r w5 H5 Hf5 Hr5. eexists.
    exists (mkHistoryEntry
              (withDuration (clock env (clockReads w5) - clock env (clockReads w))%Z r)
              (pretty (clock env (S (clockReads w5))))).
    split; [apply (retryFinally_run env inst Hinst _ r w5 h H5)|].
    simpl. split; [exact Hr5|]. split; [|split; [|reflexivity]].
    - unfold failedIn in *. rewrite lookup_insert_ne by congruence. exact Hf5.
    - unfold historyIn. now rewrite lookup_insert_eq. }
  assert (Hcases : exists w' entry r,
            match forceRefreshAllDisplays_throws env with
            | Some e =>
                retryFinally env (clock env (clockReads w))
                  (withError e (withBatchResult res (retryResult0 env g w)))
                  (withStatus (e, true) w4)
            | None =>
                retryFinally env (clock env (clockReads w))
                  (withBatchResult res (retryResult0 env g w)) w4
            end = (Returned tt, w')
            /\ requests w' = requests w4
            /\ failedIn inst (storage w') = failedIn inst (storage w4)
            /\ historyIn inst (storage w') = VHistory (take 50 (entry :: h))
            /\ he_result entry = r
            /\ er_isRetry r = true /\ er_action r = fo_action g
            /\ er_labelName r = fo_labelName g
            /\ er_totalCount r = length (fo_failedUids g)
            /\ er_successCount r = successCount res
            /\ er_failedCount r = failedCount res
            /\ er_failedUids r = failedUids res).
  { destruct (forceRefreshAllDisplays_throws env) as [e|].
    - destruct (Hend (withError e (withBatchResult res (retryResult0 env g w)))
                  (withStatus (e, true) w4) Hh4 eq_refl eq_refl)
        as (w' & entry & E & H1 & H2 & H3 & H4).
      exists w', entry, (he_result entry). rewrite H4. repeat split; auto.
    - destruct (Hend (withBatchResult res (retryResult0 env g w)) w4 Hh4 eq_refl eq_refl)
        as (w' & entry & E & H1 & H2 & H3 & H4).
      exists w', entry, (he_result entry). rewrite H4. repeat split; auto. }
  destruct Hcases as (w' & entry & r & E & Hq & Hfw & Hhw & Hent & Hflags).
  exists w', entry. rewrite Hent.
  split; [exact E|]. split; [exact Hsum|]. split; [exact Hlen|].
  split; [|split; [|split; [|split; [|exact Hflags]]]].
  - exists pre, labelId. split; [exact Hpre|]. now rewrite Hq, Hr4, Hr.
  - intros Hall. apply (failureGroupsAre_resolved env inst Hinst).
    rewrite Hfw, Hf4.
    destruct (failedUids res) as [|u us]; [reflexivity|]. simpl in Hlen. lia.
  - intros Hsome.
    destruct (failedUids res) as [|u us] eqn:Eu; [simpl in Hlen; lia|].
    exists (clock env (clockReads w3)).
    apply (failureGroupsAre_resolved env inst Hinst). now rewrite Hfw, Hf4.
  - now apply (historyIs_resolved env inst Hinst).
Qed.

(** Retrying the group of "x3" in front of a service that now succeeds: the
    group is gone, and the log has the retry at its head. *)
Lemma retry_reruns_group_and_updates_tracker_witness :
  failureGroupsAre allFineEnv afterFirstAdd [x3Group]
  /\ exists w' entry,
       retryFailedOperation allFineEnv 0 afterFirstAdd = (Returned tt, w')
       /\ failureGroupsAre allFineEnv w' []
       /\ historyIs allFineEnv w' [entry; firstAddEntry]
       /\ er_isRetry (he_result entry) = true
       /\ er_successCount (he_result entry) = 1
       /\ er_failedCount (he_result entry) = 0.
Proof.
  assert (Hl : failureGroupsAre allFineEnv afterFirstAdd [x3Group])
    by (vm_compute; reflexivity).
  split; [exact Hl|].
  destruct (retry_reruns_group_and_updates_tracker allFineEnv demoInstance 0 afterFirstAdd
              [x3Group] x3Group "x3" [] [firstAddEntry] (mkPageData ["x1"; "x2"; "x3"] "tok")
              (mkBatchResult 1 0 []) eq_refl Hl eq_refl eq_refl
              ltac:(vm_compute; reflexivity) eq_refl ltac:(vm_compute; reflexivity))
    as (w' & entry & Hrun & _ & _ & _ & Hgone & _ & Hh & Hretry & _ & _ & _ & Hs & Hf & _).
  exists w', entry. split; [exact Hrun|].
  split; [exact (Hgone eq_refl)|]. split; [exact Hh|].
  split; [exact Hretry|]. split; [exact Hs|exact Hf].
Defined.

(** ** The invariant of the failure tracker *)

(** C4.  The tracker holds at most one group per key (action, label name in
    lower case) and at most 20 groups, and reporting a failure, clearing a
    failure and retrying a group keep it so.  A failure reported for a key
    that has a group replaces that group where it stands, the other groups
    and their number unchanged; a failure reported for a new key is put at
    the head, and when the tracker already holds 20 groups the last one, the
    group that was put in first, is dropped. *)
Theorem failure_tracker_invariant (env : Env) (w : World) :
  storeInvariant env w ->
  (forall op, storeInvariant env (snd (saveFailedOperation env op w)))
  /\ (forall action labelName,
         storeInvariant env (snd (removeFailedOperation env action labelName w)))
  /\ (forall i, storeInvariant env (snd (retryFailedOperation env i w)))
  /\ (forall l op i g,
         failureGroupsAre env w l -> l !! i = Some g -> groupKey g = groupKey op ->
         failureGroupsAre env (snd (saveFailedOperation env op w)) (<[i := op]> l)
         /\ length (<[i := op]> l) = length l)
  /\ (forall inst l op,
         getCurrentInstanceId env = inr inst ->
         failureGroupsAre env w l -> groupKey op ∉ groupKey <$> l ->
         failureGroupsAre env (snd (saveFailedOperation env op w)) (take 20 (op :: l))
         /\ (length l < 20 -> take 20 (op :: l) = op :: l)
         /\ (length l = 20 ->
             exists kept oldest, l = kept ++ [oldest] /\ take 20 (op :: l) = op :: kept)).
Proof.
  intros (l0 & Hl0 & Hinv0).
  destruct (getCurrentInstanceId env) as [e|inst] eqn:Hinst.
  - (* no instance: the store reads as empty whatever is done *)
    split; [|split; [|split; [|split]]];
      try (intros; now apply storeInvariant_unresolved with (e := e)).
    + intros l op i g Hl Hg _. unfold failureGroupsAre in Hl.
      rewrite (getInstanceData_unresolved env e _ _ _ Hinst) in Hl.
      injection Hl as <-. discriminate.
    + discriminate.
  - pose proof (proj1 (failureGroupsAre_resolved env inst Hinst w l0) Hl0) as Hf0.
    assert (Hsave : forall op,
              failureGroupsAre env (snd (saveFailedOperation env op w)) (reported op l0)).
    { intros op. rewrite (saveFailedOperation_run env inst Hinst op w l0 Hf0).
      apply (failureGroupsAre_resolved env inst Hinst). unfold failedIn. simpl.
      now rewrite lookup_insert_eq. }
    split; [|split; [|split; [|split]]].
    + intros op. exists (reported op l0). split; [apply Hsave|].
      apply reported_invariant, Hinv0.
    + intros action labelName. exists (cleared action labelName l0). split.
      * rewrite (removeFailedOperation_run env inst Hinst action labelName w l0 Hf0).
        apply (failureGroupsAre_resolved env inst Hinst). unfold failedIn. simpl.
        now rewrite lookup_insert_eq.
      * now apply cleared_invariant.
    + intros i.
      destruct (retry_failed_store env inst Hinst i w l0 Hf0)
        as [H|[H|(g & uids & stamp & Hg & H)]].
      * exists l0. split; [now apply (failureGroupsAre_resolved env inst Hinst)|exact Hinv0].
      * exists (delete i l0).
        split; [now apply (failureGroupsAre_resolved env inst Hinst)|].
        now apply delete_invariant.
      * exists (<[i := retried g uids stamp]> l0).
        split; [now apply (failureGroupsAre_resolved env inst Hinst)|].
        now apply update_invariant.
    + intros l op i g Hl Hg Hk.
      apply (failureGroupsAre_resolved env inst Hinst) in Hl.
      rewrite Hf0 in Hl. injection Hl as <-.
      split; [|apply length_insert].
      replace (<[i := op]> l0) with (reported op l0); [apply Hsave|].
      unfold reported. rewrite (findIndex_of_key l0 i g op (proj1 Hinv0) Hg Hk).
      apply take_ge. rewrite length_insert. apply Hinv0.
    + intros inst' l op [= <-] Hl Hk.
      apply (failureGroupsAre_resolved env inst Hinst) in Hl.
      rewrite Hf0 in Hl. injection Hl as <-.
      split; [|split].
      * replace (take 20 (op :: l0)) with (reported op l0); [apply Hsave|].
        unfold reported. rewrite findIndex_absent; [reflexivity|].
        intros x Hx. apply sameGroup_false. intros Heq. apply Hk.
        apply list_elem_of_fmap. exists x. split; [|exact Hx]. now rewrite Heq.
      * intros Hlt. apply take_ge. simpl. lia.
      * intros Hlen. now apply take_full_evicts_last.
Qed.

(** The tracker after the first "add" satisfies the invariant, and keeps it
    when the same failure is reported again. *)
Lemma failure_tracker_invariant_witness :
  storeInvariant x3FailsEnv afterFirstAdd
  /\ storeInvariant x3FailsEnv (snd (saveFailedOperation x3FailsEnv x3Group afterFirstAdd))
  /\ storeInvariant x3FailsEnv (snd (retryFailedOperation x3FailsEnv 0 afterFirstAdd)).
Proof.
  assert (Hinv : storeInvariant x3FailsEnv afterFirstAdd).
  { exists [x3Group]. split; [vm_compute; reflexivity|].
    split; [|simpl; lia].
    apply NoDup_cons. split; [apply not_elem_of_nil|apply NoDup_nil_2]. }
  destruct (failure_tracker_invariant x3FailsEnv afterFirstAdd Hinv) as (H1 & _ & H3 & _).
  split; [exact Hinv|]. split; [apply H1|apply H3].
Defined.

(** ** Reporting a failure for a key that has a group *)

(** C5, as stated, fails: the report replaces the whole group.  A group
    that a failed retry had brought to [retryCount = 1] is back at
    [retryCount = 0] after an ordinary "add" of the same label fails again,
    and it carries the new spelling of the label. *)
Lemma failure_report_resets_retryCount :
  exists g g',
    failedIn demoInstance (storage afterFailedRetry) = VFailed [g]
    /\ fo_retryCount g = 1 /\ fo_labelName g = "Cat"
    /\ failedIn demoInstance (storage (snd (handleAction x3FailsEnv "cat" add afterFailedRetry)))
       = VFailed [g']
    /\ groupKey g' = groupKey g
    /\ fo_retryCount g' = 0 /\ fo_labelName g' = "cat".
Proof.
  eexists _, _. vm_compute. repeat split.
Qed.

(** C5, amended.  A failure reported for a key that has a group replaces the
    group, at its position, by the record reported: the other groups are
    unchanged, the action is the same, the label name is the spelling
    reported (the same up to case), and the identifiers, the time stamp and
    the retry count are those of the report.  The report that [handleAction]
    makes carries a retry count of 0: an action that fails again for a key
    that has a group sets its retry count back to 0. *)
Theorem failure_report_replaces_group
    (env : Env) (inst : string) (w : World) (l : list FailedOperation)
    (i : nat) (g : FailedOperation) :
  getCurrentInstanceId env = inr inst ->
  failureGroupsAre env w l ->
  trackerInvariant l ->
  l !! i = Some g ->
  (forall op,
      groupKey op = groupKey g ->
      failureGroupsAre env (snd (saveFailedOperation env op w)) (<[i := op]> l)
      /\ <[i := op]> l !! i = Some op
      /\ (forall j, j <> i -> <[i := op]> l !! j = l !! j)
      /\ fo_action op = fo_action g
      /\ Js.toLowerCase (fo_labelName op) = Js.toLowerCase (fo_labelName g))
  /\ (forall input data firstUid rest res h recentLabels allLabels,
        Js.truthy (Js.trim input) = true ->
        pageData env = inr data ->
        pd_uids data = firstUid :: rest ->
        Js.toLowerCase (Js.trim input) = Js.toLowerCase (fo_labelName g) ->
        historyIs env w h ->
        getInstanceData env "recentLabels" (VLabels []) w = (Returned (VLabels recentLabels), w) ->
        getInstanceData env "allLabels" (VLabels []) w = (Returned (VLabels allLabels), w) ->
        fst (runBatch env (fo_action g) (Js.trim input) (pd_uids data) firstUid
               (pd_token data) w) = Returned res ->
        failedUids res <> [] ->
        exists w' stamp,
          handleAction env input (fo_action g) w = (Returned tt, w')
          /\ failureGroupsAre env w'
               (<[i := mkFailedOperation (fo_action g) (Js.trim input) (failedUids res)
                         stamp 0]> l)).
Proof.
  intros Hinst Hl [Hnd Hlen] Hg.
  apply (failureGroupsAre_resolved env inst Hinst) in Hl.
  assert (Hrep : forall op, groupKey op = groupKey g -> reported op l = <[i := op]> l).
  { intros op Hk. unfold reported.
    rewrite (findIndex_of_key l i g op Hnd Hg (eq_sym Hk)).
    apply take_ge. now rewrite length_insert. }
  split.
  - intros op Hk. split; [|split; [|split; [|split]]].
    + rewrite (saveFailedOperation_run env inst Hinst op w l Hl).
      apply (failureGroupsAre_resolved env inst Hinst). unfold failedIn. simpl storage.
      rewrite lookup_insert_eq. simpl. now rewrite Hrep.
    + apply list_lookup_insert_eq. now apply lookup_lt_Some in Hg.
    + intros j Hj. apply list_lookup_insert_ne. congruence.
    + now injection Hk.
    + now injection Hk.
  - intros input data firstUid rest res h recentLabels allLabels
      Ht Hpage Hu Hkey Hh Hrec Hall Hres Hne.
    apply (historyIs_resolved env inst Hinst) in Hh.
    rewrite (getInstanceData_resolved env inst _ _ _ Hinst) in Hrec. injection Hrec as Hrec.
    rewrite (getInstanceData_resolved env inst _ _ _ Hinst) in Hall. injection Hall as Hall.
    destruct (netLocal_runBatch env (fo_action g) (Js.trim input) (pd_uids data) firstUid
                (pd_token data) (handleProcessing (length (pd_uids data)) w) w)
      as [Hf _]; [split; reflexivity|].
    pose proof (fun k Hk => runBatch_frame env inst Hinst (fo_action g) (Js.trim input)
                  (pd_uids data) firstUid (pd_token data)
                  (handleProcessing (length (pd_uids data)) w) k Hk) as Hframe.
    destruct (runBatch env (fo_action g) (Js.trim input) (pd_uids data) firstUid
                (pd_token data) (handleProcessing (length (pd_uids data)) w))
      as [o w3] eqn:E3.
    cbn [fst snd] in Hf, Hframe. rewrite Hres in Hf. subst o.
    simpl storage in Hframe.
    destruct (keys_distinct inst) as (Hcr & Hca & Hch & Hcf & _).
    destruct (handleAction_batch_returned env inst Hinst input (fo_action g) w data
                firstUid rest res w3 h l recentLabels allLabels Ht Hpage Hu E3)
      as (w' & entry & Erun & _ & _ & Hfw).
    + unfold historyIn. rewrite Hframe by congruence. exact Hh.
    + unfold failedIn. rewrite Hframe by congruence. exact Hl.
    + unfold recentIn. rewrite Hframe by congruence. exact Hrec.
    + unfold allIn. rewrite Hframe by congruence. exact Hall.
    + exists w', (clock env (S (S (clockReads w3)))). split; [exact Erun|].
      apply (failureGroupsAre_resolved env inst Hinst). rewrite Hfw.
      destruct (failedUids res) as [|u us]; [congruence|].
      rewrite Hrep; [reflexivity|].
      unfold groupKey. simpl. now rewrite Hkey.
Qed.

(** The group of "Cat", retried once in vain, is replaced when "cat" fails
    again, and its retry count is 0. *)
Lemma failure_report_replaces_group_witness :
  failureGroupsAre x3FailsEnv afterFailedRetry (groupsOf afterFailedRetry)
  /\ exists w' stamp,
       handleAction x3FailsEnv "cat" add afterFailedRetry = (Returned tt, w')
       /\ failureGroupsAre x3FailsEnv w' [mkFailedOperation add "cat" ["x3"] stamp 0].
Proof.
  assert (Hl : failureGroupsAre x3FailsEnv afterFailedRetry (groupsOf afterFailedRetry))
    by (vm_compute; reflexivity).
  split; [exact Hl|].
  assert (Hinv : trackerInvariant (groupsOf afterFailedRetry)).
  { split; [|vm_compute; lia].
    change (groupsOf afterFailedRetry)
      with [mkFailedOperation add "Cat" ["x3"] 1007 1].
    apply NoDup_cons. split; [apply not_elem_of_nil|apply NoDup_nil_2]. }
  destruct (failure_report_replaces_group x3FailsEnv demoInstance afterFailedRetry
              (groupsOf afterFailedRetry) 0 (mkFailedOperation add "Cat" ["x3"] 1007 1)
              eq_refl Hl Hinv ltac:(vm_compute; reflexivity)) as [_ H].
  destruct (H "cat" (mkPageData ["x1"; "x2"; "x3"] "tok") "x1" ["x2"; "x3"]
              (mkBatchResult 2 1 ["x3"]) (historyOf afterFailedRetry) ["cat"] ["cat"]
              eq_refl eq_refl eq_refl eq_refl
              ltac:(vm_compute; reflexivity) ltac:(vm_compute; reflexivity)
              ltac:(vm_compute; reflexivity) ltac:(vm_compute; reflexivity)
              ltac:(discriminate))
    as (w' & stamp & Hrun & Hgroups).
  exists w', stamp. split; [exact Hrun|exact Hgroups].
Defined.

(** ** Labels that differ in case *)




(** ** The execution recorder *)

(** C7, as stated, fails on the uniqueness of the identifier: the identifier
    is the clock reading in decimal, so two records saved while the clock
    shows the same millisecond carry the same identifier. *)
Lemma saveExecutionResult_same_millisecond_same_id :
  let w1 := snd (saveExecutionResult frozenClockEnv (someResult "cat") emptyWorld) in
  let w2 := snd (saveExecutionResult frozenClockEnv (someResult "dog") w1) in
  exists e1 e2,
    historyIn demoInstance (storage w2) = VHistory [e2; e1]
    /\ he_result e1 = someResult "cat" /\ he_result e2 = someResult "dog"
    /\ he_id e1 = he_id e2.
Proof.
  eexists _, _. vm_compute. repeat split.
Qed.

(** C7, amended: [saveExecutionResult] gives the record the current clock
    reading, in decimal, as its identifier, so that records saved at
    different readings have different identifiers; it puts the record at the
    head of the log and keeps the first 50 entries.  A log of fewer than 50
    records keeps them all; from a log of 50 records exactly the last one,
    the oldest, is dropped. *)
Theorem saveExecutionResult_prepends_and_truncates
    (env : Env) (inst : string) (r : ExecutionResult) (w : World) (h : list HistoryEntry) :
  getCurrentInstanceId env = inr inst ->
  getInstanceData env "executionHistory" (VHistory []) w = (Returned (VHistory h), w) ->
  let entry := mkHistoryEntry r (pretty (clock env (clockReads w))) in
  exists w',
    saveExecutionResult env r w = (Returned tt, w')
    /\ getInstanceData env "executionHistory" (VHistory []) w'
       = (Returned (VHistory (take 50 (entry :: h))), w')
    /\ (length h < 50 -> take 50 (entry :: h) = entry :: h)
    /\ (length h = 50 ->
        exists kept oldest, h = kept ++ [oldest] /\ take 50 (entry :: h) = entry :: kept)
    /\ (forall r0 w0, clock env (clockReads w0) <> clock env (clockReads w) ->
        he_id (mkHistoryEntry r0 (pretty (clock env (clockReads w0)))) <> he_id entry).
Proof.
  intros Hinst Hh entry.
  rewrite (getInstanceData_resolved env inst _ _ _ Hinst) in Hh.
  injection Hh as Hh. fold (historyKey inst) in Hh. fold (historyIn inst (storage w)) in Hh.
  eexists. split; [apply (saveExecutionResult_run env inst Hinst r w h Hh)|].
  split; [|split; [|split]].
  - rewrite (getInstanceData_resolved env inst _ _ _ Hinst). simpl storage.
    fold (historyKey inst). now rewrite lookup_insert_eq.
  - intros Hlt. apply take_ge. simpl. lia.
  - intros Hlen. now apply take_full_evicts_last.
  - intros r0 w0 Hne Heq. simpl in Heq. apply Hne.
    now apply (inj pretty) in Heq.
Qed.

(** The first record of an empty log, saved at 1700000000000. *)
Lemma saveExecutionResult_prepends_and_truncates_witness :
  exists w',
    saveExecutionResult frozenClockEnv (someResult "cat") emptyWorld = (Returned tt, w')
    /\ getInstanceData frozenClockEnv "executionHistory" (VHistory []) w'
       = (Returned (VHistory [mkHistoryEntry (someResult "cat") "1700000000000"]), w').
Proof.
  destruct (saveExecutionResult_prepends_and_truncates frozenClockEnv demoInstance
              (someResult "cat") emptyWorld [] eq_refl eq_refl)
    as (w' & Hrun & Hget & _).
  exists w'. split; [exact Hrun|exact Hget].
Defined.

(** ** How a call answered 404 is counted *)

(** C8, at the failing input: a [DELETE] answered 404 with a body that is not
    JSON.  The status passes the test of [removeLabel], which ignores 404,
    but [response.json()] rejects, and [batchProcess] counts the call as
    failed. *)
Theorem remove_404_without_json_body_is_counted_failed :
  fst (batchProcess plain404Env ["x1"] (fun uid => removeLabel plain404Env uid (Numeric 7) "tok")
         emptyWorld)
  = Returned (mkBatchResult 0 1 ["x1"]).
Proof. vm_compute. reflexivity. Qed.

(** With a JSON body, as the service itself words its errors, the same status
    is counted as a success. *)
Lemma remove_404_with_json_body_is_counted_success :
  fst (batchProcess json404Env ["x1"] (fun uid => removeLabel json404Env uid (Numeric 7) "tok")
         emptyWorld)
  = Returned (mkBatchResult 1 0 []).
Proof. vm_compute. reflexivity. Qed.

(** ** The store without an instance *)

(** C9, as stated, fails for [get]: with no active tab the instance cannot be
    determined, and [getInstanceData] does not fail; it returns the default it
    was given. *)
Lemma getInstanceData_unresolved_does_not_fail :
  getCurrentInstanceId envNoTab = inl "Could not determine current instance"
  /\ getInstanceData envNoTab "failedOperations" (VFailed []) emptyWorld
     = (Returned (VFailed []), emptyWorld)
  /\ ~ (exists e w', getInstanceData envNoTab "failedOperations" (VFailed []) emptyWorld
                     = (Thrown e, w')).
Proof.
  split; [reflexivity|]. split; [reflexivity|].
  intros (e & w' & H). discriminate H.
Qed.

(** C9, amended: when no active origin can be determined, [setInstanceData]
    fails with the instance-resolution error and writes nothing, whereas
    [getInstanceData] does not fail: it answers with the default value, the
    store untouched. *)
Theorem unresolved_instance_set_fails_get_defaults
    (env : Env) (baseKey : string) (d v : Value) (w : World) (e : string) :
  getCurrentInstanceId env = inl e ->
  (e = "Could not determine current instance" \/ e = "Invalid URL format")
  /\ setInstanceData env baseKey v w = (Thrown e, w)
  /\ getInstanceData env baseKey d w = (Returned d, w).
Proof.
  intros H. split; [|split].
  - eapply getCurrentInstanceId_messages; eauto.
  - now apply setInstanceData_unresolved.
  - now apply getInstanceData_unresolved with (e := e).
Qed.

(** With no active tab: writing the recent labels fails, reading them gives
    the default. *)
Lemma unresolved_instance_set_fails_get_defaults_witness :
  getCurrentInstanceId envNoTab = inl "Could not determine current instance"
  /\ ("Could not determine current instance" = "Could not determine current instance"
      \/ "Could not determine current instance" = "Invalid URL format")
  /\ setInstanceData envNoTab "recentLabels" (VLabels ["cat"]) emptyWorld
     = (Thrown "Could not determine current instance", emptyWorld)
  /\ getInstanceData envNoTab "recentLabels" (VLabels []) emptyWorld
     = (Returned (VLabels []), emptyWorld).
Proof.
  split; [reflexivity|].
  apply (unresolved_instance_set_fails_get_defaults envNoTab "recentLabels"
           (VLabels []) (VLabels ["cat"]) emptyWorld
           "Could not determine current instance" eq_refl).
Defined.

(** ** A retry that fails as a whole *)

(** C10.  A retry that fails as a whole before its batch is run, because the
    page data cannot be had or because the label cannot be resolved, writes
    nothing but the execution log: the failure groups are read back as they
    were (the group keeps its identifiers, its retry count and its time
    stamp), every other key of the store is untouched, no per-item request is
    issued, and the log receives a record with [isRetry] set, no success, no
    failure, and the error. *)
Theorem retry_failing_as_a_whole_only_writes_the_log
    (env : Env) (inst : string) (i : nat) (w : World)
    (l : list FailedOperation) (g : FailedOperation) (firstUid : string) (rest : list string)
    (h : list HistoryEntry) (e : string) :
  getCurrentInstanceId env = inr inst ->
  failureGroupsAre env w l ->
  l !! i = Some g ->
  fo_failedUids g = firstUid :: rest ->
  historyIs env w h ->
  (pageData env = inl e
   \/ exists data,
        pageData env = inr data /\ fo_action g = remove
        /\ fst (getLabelId env (fo_labelName g) firstUid (pd_token data) w) = Thrown e) ->
  exists w' entry,
    retryFailedOperation env i w = (Returned tt, w')
    /\ failureGroupsAre env w' l
    /\ (forall k, k <> historyKey inst -> storage w' !! k = storage w !! k)
    /\ (requests w' = requests w
        \/ exists token, requests w' = requests w ++ [detailRequest inst firstUid token])
    /\ historyIs env w' (take 50 (entry :: h))
    /\ er_isRetry (he_result entry) = true
    /\ er_action (he_result entry) = fo_action g
    /\ er_labelName (he_result entry) = fo_labelName g
    /\ er_successCount (he_result entry) = 0
    /\ er_failedCount (he_result entry) = 0
    /\ er_failedUids (he_result entry) = []
    /\ er_error (he_result entry) = Some e.
Proof.
  intros Hinst Hl Hg Hu Hh Hfail.
  apply (failureGroupsAre_resolved env inst Hinst) in Hl.
  apply (historyIs_resolved env inst Hinst) in Hh.
  destruct (keys_distinct inst) as (_ & _ & _ & _ & _ & _ & _ & _ & _ & Hhf).
  assert (Hattempt : exists w3,
            retryAttempt env g firstUid w = (Thrown e, w3)
            /\ storage w3 = storage w
            /\ (requests w3 = requests w
                \/ exists token, requests w3 = requests w ++ [detailRequest inst firstUid token])).
  { unfold retryAttempt. destruct Hfail as [Hpage|(data & Hpage & Hact & Hget)]; rewrite Hpage.
    - exists (retryStart g w). split; [reflexivity|]. split; [reflexivity|now left].
    - destruct (runBatch_from_retryStart env g (fo_action g) (fo_labelName g)
                  (fo_failedUids g) firstUid (pd_token data) w) as (Hf & _ & _).
      assert (Hw : fst (runBatch env (fo_action g) (fo_labelName g) (fo_failedUids g)
                          firstUid (pd_token data) w) = Thrown e).
      { rewrite Hact.
        pose proof (runBatch_remove env inst Hinst (fo_labelName g) (fo_failedUids g)
                      firstUid (pd_token data) w) as H.
        destruct (getLabelId env (fo_labelName g) firstUid (pd_token data) w)
          as [[labelId|e1|] w1]; simpl in Hget; try discriminate.
        injection Hget as ->. now rewrite H. }
      rewrite Hw in Hf.
      destruct (runBatch env (fo_action g) (fo_labelName g) (fo_failedUids g) firstUid
                  (pd_token data) (retryStart g w)) as [o w3] eqn:E3.
      simpl in Hf. subst o.
      destruct (runBatch_thrown env inst Hinst _ _ _ _ _ _ _ _ E3) as (_ & _ & Hs & Hr).
      exists w3. split; [reflexivity|]. split; [exact Hs|].
      destruct Hr as [Hr|Hr]; [left; exact Hr|right; exists (pd_token data); exact Hr]. }
  destruct Hattempt as (w3 & Eattempt & Hs3 & Hr3).
  rewrite (retryFailedOperation_run env inst Hinst i w l g firstUid rest Hl Hg Hu).
  rewrite Eattempt.
  assert (Hh5 : historyIn inst (storage (withStatus (e, true) w3)) = VHistory h).
  { simpl storage. now rewrite Hs3. }
  rewrite (retryFinally_run env inst Hinst _ _ _ h Hh5).
  eexists.
  exists (mkHistoryEntry
            (withDuration (clock env (clockReads (withStatus (e, true) w3))
                           - clock env (clockReads w))%Z
               (withError e (retryResult0 env g w)))
            (pretty (clock env (S (clockReads (withStatus (e, true) w3)))))).
  split; [reflexivity|]. simpl storage. simpl requests.
  split; [|split; [|split; [exact Hr3|split; [|repeat split]]]].
  - apply (failureGroupsAre_resolved env inst Hinst). unfold failedIn in *. simpl storage.
    rewrite lookup_insert_ne by congruence. now rewrite Hs3.
  - intros k Hk. rewrite lookup_insert_ne by congruence. now rewrite Hs3.
  - apply (historyIs_resolved env inst Hinst). unfold historyIn. simpl storage.
    now rewrite lookup_insert_eq.
Qed.

(** Retrying the group of "x3" when the page does not answer: the group is
    as it was, and the log has the failed retry at its head. *)
Lemma retry_failing_as_a_whole_only_writes_the_log_witness :
  failureGroupsAre disabledEnv afterFirstAdd [x3Group]
  /\ exists w' entry,
       retryFailedOperation disabledEnv 0 afterFirstAdd = (Returned tt, w')
       /\ failureGroupsAre disabledEnv w' [x3Group]
       /\ historyIs disabledEnv w' [entry; firstAddEntry]
       /\ er_isRetry (he_result entry) = true
       /\ er_successCount (he_result entry) = 0
       /\ er_error (he_result entry) = Some "Plugin is disabled for this page".
Proof.
  assert (Hl : failureGroupsAre disabledEnv afterFirstAdd [x3Group])
    by (vm_compute; reflexivity).
  split; [exact Hl|].
  destruct (retry_failing_as_a_whole_only_writes_the_log disabledEnv demoInstance 0
              afterFirstAdd [x3Group] x3Group "x3" [] [firstAddEntry]
              "Plugin is disabled for this page" eq_refl Hl eq_refl eq_refl
              ltac:(vm_compute; reflexivity) (or_introl eq_refl))
    as (w' & entry & Hrun & Hsame & _ & _ & Hh & Hretry & _ & _ & Hs & _ & _ & He).
  exists w', entry. repeat split; assumption.
Defined.

(* ===================================================================== *)
(** * Further properties of the code *)
(* ===================================================================== *)

(** ** The keys of the store *)

Lemma length_append (a b : string) :
  String.length (a +:+ b) = String.length a + String.length b.
Proof. induction a as [|c a IH]; simpl; [reflexivity|now rewrite IH]. Qed.

Lemma append_inv_tail (t a b : string) : a +:+ t = b +:+ t -> a = b.
Proof.
  revert b. induction a as [|c a IH]; intros [|d b] H; simpl in H.
  - reflexivity.
  - exfalso. apply (f_equal String.length) in H. simpl in H.
    rewrite !length_append in H. simpl in H. lia.
  - exfalso. apply (f_equal String.length) in H. simpl in H.
    rewrite !length_append in H. simpl in H. lia.
  - injection H as -> H. f_equal. now apply IH.
Qed.

Lemma replaceNonAlnum_head s :
  match Js.replaceNonAlnum s with
  | EmptyString => s = EmptyString
  | String c r => True
  end.
Proof. now destruct s. Qed.

Lemma key_split (b1 b2 s1 s2 : string) :
  noUnderscore b1 = true -> noUnderscore b2 = true ->
  b1 +:+ "_" +:+ s1 = b2 +:+ "_" +:+ s2 -> b1 = b2 /\ s1 = s2.
Proof.
  revert b2. induction b1 as [|c b1 IH]; intros [|d b2] H1 H2 H; simpl in *.
  - injection H as H. now split.
  - injection H as <- H. simpl in H2. discriminate.
  - injection H as -> H. simpl in H1. discriminate.
  - injection H as -> H.
    apply andb_true_iff in H1 as [_ H1]. apply andb_true_iff in H2 as [_ H2].
    destruct (IH b2 H1 H2 H) as [-> ->]. now split.
Qed.

Lemma createInstanceKey_base_inj k k' inst :
  createInstanceKey k inst = createInstanceKey k' inst -> k = k'.
Proof.
  unfold createInstanceKey. intros H. eapply append_inv_tail. exact H.
Qed.

(** ** The store, read after it is written *)

(** A value written under a base key is read back under that key, whatever
    the default; what is read under any other base key is what was read
    before; and nothing but the store has changed. *)
Theorem stored_value_is_read_back
    (env : Env) (k : string) (v : Value) (w w' : World) :
  setInstanceData env k v w = (Returned tt, w') ->
  (forall d, getInstanceData env k d w' = (Returned v, w'))
  /\ (forall k' d, k' <> k ->
        getInstanceData env k' d w' = (fst (getInstanceData env k' d w), w'))
  /\ w' = withStorage (storage w') w.
Proof.
  intros Hset.
  destruct (getCurrentInstanceId env) as [e|inst] eqn:Hinst.
  - rewrite (setInstanceData_unresolved env e k v w Hinst) in Hset. discriminate.
  - rewrite (setInstanceData_resolved env inst k v w Hinst) in Hset.
    injection Hset as <-. split; [|split].
    + intros d. rewrite (getInstanceData_resolved env inst k d _ Hinst).
      simpl storage. now rewrite lookup_insert_eq.
    + intros k' d Hk. rewrite !(getInstanceData_resolved env inst k' d _ Hinst).
      simpl. rewrite lookup_insert_ne; [reflexivity|].
      intros H. apply Hk. symmetry. eapply createInstanceKey_base_inj. exact H.
    + reflexivity.
Qed.

Lemma stored_value_is_read_back_witness :
  let w' := withStorage {[ "failedOperations_https___demo_photoprism_app" := VFailed [x3Group] ]}
              emptyWorld in
  setInstanceData catEnv "failedOperations" (VFailed [x3Group]) emptyWorld = (Returned tt, w')
  /\ getInstanceData catEnv "failedOperations" (VFailed []) w' = (Returned (VFailed [x3Group]), w')
  /\ getInstanceData catEnv "executionHistory" (VHistory []) w' = (Returned (VHistory []), w').
Proof.
  intros w'.
  assert (Hset : setInstanceData catEnv "failedOperations" (VFailed [x3Group]) emptyWorld
                 = (Returned tt, w')) by reflexivity.
  split; [exact Hset|].
  destruct (stored_value_is_read_back catEnv "failedOperations" (VFailed [x3Group])
              emptyWorld w' Hset) as (H1 & H2 & _).
  split; [apply H1|].
  apply (H2 "executionHistory" (VHistory [])). discriminate.
Defined.

(** ** Instances kept apart *)

Lemma engineKeys_noUnderscore k : k ∈ engineKeys -> noUnderscore k = true.
Proof.
  unfold engineKeys. rewrite !elem_of_cons, elem_of_nil.
  intros [->|[->|[->|[->|[->|[]]]]]]; reflexivity.
Qed.

(** The entries of one instance are kept apart from those of another by the
    sanitized name alone.  Where the sanitized names differ, what is written
    for one instance under a key of the engine leaves every key of the engine
    as it was for the other; where they agree, as for two hosts that differ in
    punctuation, what is written for one instance is read for the other. *)
Theorem instances_kept_apart_by_sanitized_name
    (env1 env2 : Env) (inst1 inst2 : string) :
  getCurrentInstanceId env1 = inr inst1 ->
  getCurrentInstanceId env2 = inr inst2 ->
  (Js.replaceNonAlnum inst1 <> Js.replaceNonAlnum inst2 ->
   forall k k' v d w, k ∈ engineKeys -> k' ∈ engineKeys ->
     fst (getInstanceData env2 k' d (snd (setInstanceData env1 k v w)))
     = fst (getInstanceData env2 k' d w))
  /\ (Js.replaceNonAlnum inst1 = Js.replaceNonAlnum inst2 ->
      forall k v d w,
        fst (getInstanceData env2 k d (snd (setInstanceData env1 k v w))) = Returned v).
Proof.
  intros H1 H2. split.
  - intros Hne k k' v d w Hk Hk'.
    rewrite (setInstanceData_resolved env1 inst1 k v w H1).
    rewrite !(getInstanceData_resolved env2 inst2 k' d _ H2). simpl.
    rewrite lookup_insert_ne; [reflexivity|].
    unfold createInstanceKey. intros H.
    apply key_split in H; [|now apply engineKeys_noUnderscore..].
    destruct H as [_ H]. now apply Hne.
  - intros Heq k v d w.
    rewrite (setInstanceData_resolved env1 inst1 k v w H1).
    rewrite (getInstanceData_resolved env2 inst2 k d _ H2). simpl.
    unfold createInstanceKey. rewrite Heq. now rewrite lookup_insert_eq.
Qed.

Lemma instances_kept_apart_by_sanitized_name_witness :
  getCurrentInstanceId dotEnv = inr dotInstance
  /\ getCurrentInstanceId dashEnv = inr dashInstance
  /\ getCurrentInstanceId catEnv = inr demoInstance
  /\ fst (getInstanceData dashEnv "recentLabels" (VLabels [])
            (snd (setInstanceData dotEnv "recentLabels" (VLabels ["cat"]) emptyWorld)))
     = Returned (VLabels ["cat"])
  /\ fst (getInstanceData catEnv "recentLabels" (VLabels [])
            (snd (setInstanceData dotEnv "recentLabels" (VLabels ["cat"]) emptyWorld)))
     = fst (getInstanceData catEnv "recentLabels" (VLabels []) emptyWorld).
Proof.
  split; [reflexivity|]. split; [reflexivity|]. split; [reflexivity|]. split.
  - apply (instances_kept_apart_by_sanitized_name dotEnv dashEnv dotInstance dashInstance
             eq_refl eq_refl).
    reflexivity.
  - apply (instances_kept_apart_by_sanitized_name dotEnv catEnv dotInstance demoInstance
             eq_refl eq_refl).
    + vm_compute. discriminate.
    + unfold engineKeys. rewrite !elem_of_cons. auto.
    + unfold engineKeys. rewrite !elem_of_cons. auto.
Defined.

(** ** The progress of a batch *)

Lemma withProgress_same w : withProgress (progress w) w = w.
Proof. now destruct w. Qed.

Lemma foldM_onSettled_world total calls order : forall st w,
  snd (foldM (onSettled total calls) order st w)
  = withProgress
      (progress w
       ++ progressReports total (bs_processedCount st)
            (length (List.filter (settledAt calls) order))) w.
Proof.
  unfold progressReports.
  induction order as [|i order IH]; intros st w.
  - simpl. rewrite app_nil_r. now rewrite withProgress_same.
  - change (List.filter (settledAt calls) (i :: order))
      with (if settledAt calls i then i :: List.filter (settledAt calls) order
            else List.filter (settledAt calls) order).
    simpl foldM. unfold bind at 1. unfold onSettled at 1.
    destruct (calls !! i) as [[uid [r|e|]]|] eqn:Ei;
      (assert (Hs : settledAt calls i = _)
         by (unfold settledAt, fulfilledAt, rejectedAt; rewrite Ei; reflexivity));
      rewrite Hs; cbn [fst snd bind updateProgress modify ret].
    + rewrite IH. simpl. now rewrite <- app_assoc.
    + rewrite IH. simpl. now rewrite <- app_assoc.
    + apply IH.
    + apply IH.
Qed.

Lemma filter_length_full {A} (p : A -> bool) (l : list A) :
  length (List.filter p l) = length l <-> forall x, x ∈ l -> p x = true.
Proof.
  induction l as [|x l IH]; simpl.
  - split; [intros _ y Hy; inversion Hy|reflexivity].
  - destruct (p x) eqn:Hx; simpl.
    + split.
      * intros H y Hy. apply elem_of_cons in Hy as [->|Hy]; [exact Hx|].
        apply IH; [lia|exact Hy].
      * intros H. f_equal. apply IH. intros y Hy. apply H. now right.
    + split.
      * intros H. pose proof (length_List_filter p l). lia.
      * intros H. specialize (H x ltac:(left)). congruence.
Qed.

Lemma settled_all_iff (calls : list (string * Outcome Json)) :
  existsb (fun c => isPending (snd c)) calls = false
  <-> forall i, i ∈ seq 0 (length calls) -> settledAt calls i = true.
Proof.
  split.
  - intros Hp i Hi. apply elem_of_seq in Hi. unfold settledAt.
    rewrite (settled_fulfilled_or_rejected calls i Hp) by lia.
    now destruct (rejectedAt calls i).
  - intros H. destruct (existsb _ calls) eqn:E; [|reflexivity].
    apply existsb_exists in E as ([uid o] & Hin & Ho).
    apply list_elem_of_In, list_elem_of_lookup in Hin as [i Hi].
    assert (Hlt : i < length calls) by (eapply lookup_lt_Some; eauto).
    specialize (H i ltac:(apply elem_of_seq; lia)).
    unfold settledAt, fulfilledAt, rejectedAt in H. rewrite Hi in H.
    destruct o; simpl in *; discriminate.
Qed.

Lemma keeps_pending {S V A} (view : S -> V) : keeps view (@pending S A).
Proof. intros s. reflexivity. Qed.

Lemma keeps_settle {S V A} (view : S -> V) (m : M S A) :
  keeps view m -> keeps view (settle m).
Proof. intros H s. unfold settle. specialize (H s). now destruct (m s). Qed.

Lemma keeps_mapM {S V A B} (view : S -> V) (f : A -> M S B) (l : list A) :
  (forall a, keeps view (f a)) -> keeps view (mapM f l).
Proof.
  intros H. induction l as [|x l IH]; simpl; [apply keeps_ret|].
  apply keeps_bind; [apply H|]. intros y.
  apply keeps_bind; [apply IH|]. intros ys. apply keeps_ret.
Qed.

Lemma keeps_foldM {S V A B} (view : S -> V) (f : B -> A -> M S B) (l : list A) :
  (forall b a, keeps view (f b a)) -> forall b, keeps view (foldM f l b).
Proof.
  intros H. induction l as [|x l IH]; intros b; simpl; [apply keeps_ret|].
  apply keeps_bind; [apply H|]. intros b'. apply IH.
Qed.

(** Solves [keeps view m] by following the structure of [m]. *)
Ltac keeps_step :=
  first
    [ apply keeps_ret
    | apply keeps_throw
    | apply keeps_pending
    | apply keeps_bind; [|intros ?]
    | apply keeps_tryCatch; [|intros ?]
    | apply keeps_tryFinally
    | apply keeps_settle
    | apply keeps_mapM; intros ?
    | apply keeps_foldM; intros ? ?
    | match goal with
      | |- keeps _ (match ?x with _ => _ end) => destruct x
      end ].

Section KeepsProgress.

Variable env : Env.

Lemma keeps_progress_currentBaseUrl : keeps progress (currentBaseUrl env).
Proof. unfold currentBaseUrl. repeat keeps_step. Qed.

Lemma keeps_progress_fetch rq : keeps progress (fetch env rq).
Proof. intros w. unfold fetch. now destruct (fetchOracle env _ rq). Qed.

Lemma keeps_progress_awaitJson b : keeps progress (@awaitJson World b).
Proof. unfold awaitJson. repeat keeps_step. Qed.

Lemma keeps_progress_setStatus m e : keeps progress (setStatus m e).
Proof. intros w. reflexivity. Qed.

Lemma keeps_progress_addLabel uid labelName token :
  keeps progress (addLabel env uid labelName token).
Proof.
  unfold addLabel.
  apply keeps_bind; [apply keeps_progress_currentBaseUrl|]. intros baseUrl.
  apply keeps_bind; [|intros; apply keeps_progress_awaitJson].
  apply keeps_tryCatch; [|intros; apply keeps_throw].
  apply keeps_bind; [apply keeps_progress_setStatus|]. intros _.
  apply keeps_bind; [apply keeps_progress_fetch|]. intros r.
  repeat keeps_step.
Qed.

Lemma keeps_progress_removeLabel uid labelId token :
  keeps progress (removeLabel env uid labelId token).
Proof.
  unfold removeLabel.
  apply keeps_bind; [apply keeps_progress_currentBaseUrl|]. intros baseUrl.
  apply keeps_bind; [|intros; apply keeps_progress_awaitJson].
  apply keeps_tryCatch; [|intros; apply keeps_throw].
  apply keeps_bind; [apply keeps_progress_setStatus|]. intros _.
  apply keeps_bind; [apply keeps_progress_fetch|]. intros r.
  repeat keeps_step.
Qed.

End KeepsProgress.

Lemma batchProcess_world env uids apiFn w calls w1 :
  startCalls uids apiFn (withProgress (progress w ++ [(0, length uids)]) w)
  = (Returned calls, w1) ->
  snd (batchProcess env uids apiFn w)
  = withProgress
      (progress w1
       ++ progressReports (length uids) 0
            (length (List.filter (settledAt calls) (seq 0 (length uids))))) w1.
Proof.
  intros Ecalls.
  assert (E : snd (batchProcess env uids apiFn w)
              = snd (foldM (onSettled (length uids) calls) (normalizedOrder env (length uids))
                       (mkBatchState 0 0 0 []) w1)).
  { unfold batchProcess.
    rewrite (bind_Returned _ _ w tt (withProgress (progress w ++ [(0, length uids)]) w))
      by reflexivity.
    rewrite (bind_Returned _ _ _ _ _ Ecalls).
    unfold bind.
    destruct (foldM _ _ _ w1) as [[st|e|] w2]; simpl; try reflexivity.
    now destruct (existsb _ calls). }
  rewrite E, foldM_onSettled_world. simpl bs_processedCount.
  now rewrite (length_filter_Permutation (settledAt calls) _ _
                 (normalizedOrder_Permutation env (length uids))).
Qed.

(** Once its calls are started, a batch reports [(1, n)], [(2, n)], ... one
    report for each call that settles, in this order whatever the order in
    which the calls complete, and changes nothing else.  The last report is
    [(n, n)] exactly when the batch returns.  The calls themselves, those of
    [addLabel] and of [removeLabel] among them, report nothing, so that the
    reports of the whole batch are [(0, n)], [(1, n)], ... *)
Theorem batchProcess_reports_each_completion (env : Env) :
  (forall uid labelName token, keeps progress (addLabel env uid labelName token))
  /\ (forall uid labelId token, keeps progress (removeLabel env uid labelId token))
  /\ forall uids apiFn w,
       exists calls w1,
         startCalls uids apiFn (withProgress (progress w ++ [(0, length uids)]) w)
         = (Returned calls, w1)
         /\ let m := length (List.filter (settledAt calls) (seq 0 (length uids))) in
            snd (batchProcess env uids apiFn w)
            = withProgress (progress w1 ++ progressReports (length uids) 0 m) w1
            /\ m <= length uids
            /\ (m = length uids
                <-> exists res, fst (batchProcess env uids apiFn w) = Returned res)
            /\ ((forall uid, keeps progress (apiFn uid)) ->
                progress w1 = progress w ++ [(0, length uids)]).
Proof.
  split; [apply keeps_progress_addLabel|]. split; [apply keeps_progress_removeLabel|].
  intros uids apiFn w.
  destruct (batchProcess_cases env uids apiFn w) as (calls & w1 & Ecalls & Hfst & Hcases).
  exists calls, w1. split; [exact Ecalls|]. cbv zeta.
  assert (Hlen : length calls = length uids) by (rewrite <- Hfst; now rewrite length_map).
  split; [now apply batchProcess_world|]. split; [|split].
  - pose proof (length_List_filter (settledAt calls) (seq 0 (length uids))) as H.
    now rewrite length_seq in H.
  - pose proof (filter_length_full (settledAt calls) (seq 0 (length uids))) as Hfull.
    rewrite length_seq in Hfull. rewrite Hfull, <- Hlen, <- settled_all_iff.
    destruct Hcases as [(Hp & w' & E)|(Hp & res & w' & E & _)]; rewrite Hp, E; simpl.
    + split; [discriminate|]. intros (res & Hres). discriminate.
    + split; [|reflexivity]. intros _. now exists res.
  - intros Hk.
    assert (Hs : keeps progress (startCalls uids apiFn)).
    { unfold startCalls. apply keeps_mapM. intros uid.
      apply keeps_bind; [apply keeps_settle, Hk|]. intros r. apply keeps_ret. }
    specialize (Hs (withProgress (progress w ++ [(0, length uids)]) w)).
    now rewrite Ecalls in Hs.
Qed.

(** ** The order of completion *)

Lemma list_difference_nil {A} `{EqDecision A} (l : list A) : list_difference l [] = l.
Proof.
  induction l as [|x l IH]; simpl; [reflexivity|].
  destruct (decide_rel elem_of x []) as [H|H]; [inversion H|now rewrite IH].
Qed.

Lemma normalizedOrder_in_order env total :
  completionOrder env = [] -> normalizedOrder env total = seq 0 total.
Proof.
  intros H. unfold normalizedOrder. rewrite H. simpl. apply list_difference_nil.
Qed.

(** The order in which the calls of a batch complete shows in one place only:
    the order of [failedUids].  Two runs of the same calls that differ in the
    order of completion leave the same world, both return or both never do,
    and when they return the counts are equal and the identifiers that failed
    are the same up to their order.  When the calls complete in the order in
    which they were started, the identifiers that failed are listed in the
    order of the batch. *)
Theorem batchProcess_order_of_completion
    (env1 env2 : Env) (uids : list string) (apiFn : string -> M World Json) (w : World) :
  snd (batchProcess env1 uids apiFn w) = snd (batchProcess env2 uids apiFn w)
  /\ match fst (batchProcess env1 uids apiFn w), fst (batchProcess env2 uids apiFn w) with
     | Returned res1, Returned res2 =>
         successCount res1 = successCount res2
         /\ failedCount res1 = failedCount res2
         /\ failedUids res1 ≡ₚ failedUids res2
     | Pending, Pending => True
     | _, _ => False
     end
  /\ (completionOrder env1 = [] ->
      exists calls w1,
        startCalls uids apiFn (withProgress (progress w ++ [(0, length uids)]) w)
        = (Returned calls, w1)
        /\ forall res, fst (batchProcess env1 uids apiFn w) = Returned res ->
             failedUids res = omap (rejectedUid calls) (seq 0 (length uids))).
Proof.
  destruct (batchProcess_cases env1 uids apiFn w) as (calls & w1 & Ecalls & Hfst & Hcases1).
  destruct (batchProcess_cases env2 uids apiFn w) as (calls2 & w2 & Ecalls2 & _ & Hcases2).
  rewrite Ecalls in Ecalls2. injection Ecalls2 as <- <-.
  split; [|split].
  - now rewrite (batchProcess_world env1 uids apiFn w calls w1 Ecalls),
      (batchProcess_world env2 uids apiFn w calls w1 Ecalls).
  - destruct Hcases1 as [(Hp1 & w1' & E1)|(Hp1 & res1 & w1' & E1 & Hsum1 & Hlen1 & Hs1 & Hu1)];
      destruct Hcases2 as [(Hp2 & w2' & E2)|(Hp2 & res2 & w2' & E2 & Hsum2 & Hlen2 & Hs2 & Hu2)];
      try congruence; rewrite E1, E2; simpl; [exact I|].
    assert (Hperm : failedUids res1 ≡ₚ failedUids res2).
    { rewrite Hu1, Hu2. apply omap_Permutation.
      rewrite (normalizedOrder_Permutation env1), (normalizedOrder_Permutation env2).
      reflexivity. }
    split; [congruence|]. split; [|exact Hperm].
    rewrite <- Hlen1, <- Hlen2. now apply Permutation_length.
  - intros Horder. exists calls, w1. split; [exact Ecalls|].
    intros res Hres.
    destruct Hcases1 as [(Hp1 & w1' & E1)|(Hp1 & res1 & w1' & E1 & _ & _ & _ & Hu1)];
      rewrite E1 in Hres; simpl in Hres; [discriminate|].
    injection Hres as <-. rewrite Hu1. now rewrite normalizedOrder_in_order.
Qed.

(** ** Views that the transport and the store do not move *)

Lemma keeps_liftW_view {L V A} (view : World -> V) (m : M World A) :
  keeps view m -> keeps (fun s : L * World => view (snd s)) (liftW m).
Proof.
  intros Hm [r w]. unfold liftW. simpl. specialize (Hm w). now destruct (m w).
Qed.

Lemma keeps_setLocal_view {L V} (view : World -> V) (g : L -> L) :
  keeps (fun s : L * World => view (snd s)) (setLocal g).
Proof. intros [r w]. reflexivity. Qed.

Lemma keeps_getLocal_view {L V} (view : World -> V) :
  keeps (fun s : L * World => view (snd s)) (@getLocal L).
Proof. intros [r w]. reflexivity. Qed.

Section KeepsView.

Variable env : Env.
Context {V : Type}.
Variable view : World -> V.

Hypothesis view_storage : forall s w, view (withStorage s w) = view w.
Hypothesis view_requests : forall r w, view (withRequests r w) = view w.
Hypothesis view_clockReads : forall n w, view (withClockReads n w) = view w.
Hypothesis view_progress : forall p w, view (withProgress p w) = view w.
Hypothesis view_status : forall s w, view (withStatus s w) = view w.

Lemma kv_getInstanceData k d : keeps view (getInstanceData env k d).
Proof.
  intros w. unfold getInstanceData, tryCatch, bind, gets, ret, throw.
  now destruct (getCurrentInstanceId env).
Qed.

Lemma kv_setInstanceData k v : keeps view (setInstanceData env k v).
Proof.
  intros w. unfold setInstanceData, tryCatch, bind, modify, ret, throw.
  destruct (getCurrentInstanceId env); simpl; [reflexivity|apply view_storage].
Qed.

Lemma kv_setStatus m e : keeps view (setStatus m e).
Proof. intros w. apply view_status. Qed.

Lemma kv_updateProgress p t : keeps view (updateProgress p t).
Proof. intros w. apply view_progress. Qed.

Lemma kv_dateNow : keeps view (dateNow env).
Proof. intros w. apply view_clockReads. Qed.

Lemma kv_fetch rq : keeps view (fetch env rq).
Proof.
  intros w. unfold fetch. destruct (fetchOracle env _ rq); simpl; apply view_requests.
Qed.

Lemma kv_awaitJson b : keeps view (@awaitJson World b).
Proof. unfold awaitJson. repeat keeps_step. Qed.

Lemma kv_currentBaseUrl : keeps view (currentBaseUrl env).
Proof. unfold currentBaseUrl. repeat keeps_step. Qed.

Lemma kv_getPhotoPrismData : keeps view (getPhotoPrismData env).
Proof. unfold getPhotoPrismData. repeat keeps_step. Qed.

Lemma kv_as_shapes v :
  keeps view (@asLabelCache World v) /\ keeps view (@asLabels World v)
  /\ keeps view (@asHistory World v) /\ keeps view (@asFailed World v).
Proof. repeat split; destruct v; first [apply keeps_ret|apply keeps_throw]. Qed.

Lemma kv_addLabel uid labelName token : keeps view (addLabel env uid labelName token).
Proof.
  unfold addLabel.
  apply keeps_bind; [apply kv_currentBaseUrl|]. intros baseUrl.
  apply keeps_bind; [|intros; apply kv_awaitJson].
  apply keeps_tryCatch; [|intros; apply keeps_throw].
  apply keeps_bind; [apply kv_setStatus|]. intros _.
  apply keeps_bind; [apply kv_fetch|]. intros r.
  repeat keeps_step.
Qed.

Lemma kv_removeLabel uid labelId token : keeps view (removeLabel env uid labelId token).
Proof.
  unfold removeLabel.
  apply keeps_bind; [apply kv_currentBaseUrl|]. intros baseUrl.
  apply keeps_bind; [|intros; apply kv_awaitJson].
  apply keeps_tryCatch; [|intros; apply keeps_throw].
  apply keeps_bind; [apply kv_setStatus|]. intros _.
  apply keeps_bind; [apply kv_fetch|]. intros r.
  repeat keeps_step.
Qed.

Lemma kv_getLabelId labelName firstUid token :
  keeps view (getLabelId env labelName firstUid token).
Proof.
  unfold getLabelId.
  apply keeps_bind; [apply kv_getInstanceData|]. intros v.
  apply keeps_bind; [apply kv_as_shapes|]. intros cache.
  destruct (cachedId cache labelName); [apply keeps_ret|].
  apply keeps_bind; [apply kv_setStatus|]. intros _.
  apply keeps_bind; [apply kv_currentBaseUrl|]. intros baseUrl.
  apply keeps_tryCatch; [|intros; apply keeps_throw].
  apply keeps_bind; [apply kv_fetch|]. intros r.
  destruct (negb (rs_ok r)); [apply keeps_throw|].
  apply keeps_bind; [apply kv_awaitJson|]. intros j.
  match goal with |- keeps _ (match ?x with _ => _ end) => destruct x end;
    [|apply keeps_throw].
  apply keeps_bind; [apply kv_setInstanceData|]. intros _. apply keeps_ret.
Qed.

Lemma kv_onSettled total calls st i : keeps view (onSettled total calls st i).
Proof.
  unfold onSettled.
  destruct (calls !! i) as [[uid [r|e|]]|]; try apply keeps_ret;
    (apply keeps_bind; [apply kv_updateProgress|intros; apply keeps_ret]).
Qed.

Lemma kv_batchProcess uids apiFn :
  (forall uid, keeps view (apiFn uid)) -> keeps view (batchProcess env uids apiFn).
Proof.
  intros H. unfold batchProcess.
  apply keeps_bind; [apply kv_updateProgress|]. intros _.
  apply keeps_bind.
  { unfold startCalls. apply keeps_mapM. intros uid.
    apply keeps_bind; [apply keeps_settle, H|]. intros r. apply keeps_ret. }
  intros calls.
  apply keeps_bind; [apply keeps_foldM; intros; apply kv_onSettled|]. intros st.
  destruct (existsb _ calls); [apply keeps_pending|apply keeps_ret].
Qed.

Lemma kv_runBatch action labelName uids firstUid token :
  keeps view (runBatch env action labelName uids firstUid token).
Proof.
  unfold runBatch. destruct action.
  - apply kv_batchProcess. intros uid. apply kv_addLabel.
  - apply keeps_bind; [apply kv_getLabelId|]. intros labelId.
    apply kv_batchProcess. intros uid. apply kv_removeLabel.
Qed.

Lemma kv_refreshExecutionHistory : keeps view (refreshExecutionHistory env).
Proof.
  unfold refreshExecutionHistory.
  apply keeps_tryCatch; [|intros; apply keeps_ret].
  apply keeps_bind; [apply kv_getInstanceData|]. intros v.
  apply keeps_bind; [apply kv_as_shapes|intros; apply keeps_ret].
Qed.

Lemma kv_refreshFailedOperations : keeps view (refreshFailedOperations env).
Proof.
  unfold refreshFailedOperations.
  apply keeps_tryCatch; [|intros; apply keeps_ret].
  apply keeps_bind; [apply kv_getInstanceData|]. intros v.
  apply keeps_bind; [apply kv_as_shapes|intros; apply keeps_ret].
Qed.

Lemma kv_saveExecutionResult r : keeps view (saveExecutionResult env r).
Proof.
  unfold saveExecutionResult.
  apply keeps_bind; [apply kv_dateNow|]. intros now.
  apply keeps_bind; [apply kv_getInstanceData|]. intros v.
  apply keeps_bind; [apply kv_as_shapes|]. intros h.
  apply keeps_bind; [apply kv_setInstanceData|]. intros _.
  apply kv_refreshExecutionHistory.
Qed.

Lemma kv_saveFailedOperation op : keeps view (saveFailedOperation env op).
Proof.
  unfold saveFailedOperation.
  apply keeps_bind; [apply kv_getInstanceData|]. intros v.
  apply keeps_bind; [apply kv_as_shapes|]. intros l.
  apply keeps_bind; [apply kv_setInstanceData|]. intros _.
  apply kv_refreshFailedOperations.
Qed.

Lemma kv_removeFailedOperation action labelName :
  keeps view (removeFailedOperation env action labelName).
Proof.
  unfold removeFailedOperation.
  apply keeps_bind; [apply kv_getInstanceData|]. intros v.
  apply keeps_bind; [apply kv_as_shapes|]. intros l.
  apply keeps_bind; [apply kv_setInstanceData|]. intros _.
  apply kv_refreshFailedOperations.
Qed.

Lemma kv_addToRecentLabels labelName : keeps view (addToRecentLabels env labelName).
Proof.
  unfold addToRecentLabels. destruct (negb _); [apply keeps_ret|].
  apply keeps_bind; [apply kv_getInstanceData|]. intros v.
  apply keeps_bind; [apply kv_as_shapes|]. intros l.
  apply keeps_bind; [apply kv_getInstanceData|]. intros v'.
  apply keeps_bind; [apply kv_as_shapes|]. intros l'.
  apply keeps_bind; [apply kv_setInstanceData|]. intros _.
  apply kv_setInstanceData.
Qed.

(** What [handleAction] runs between the two calls of [setUIProcessingState]. *)
Lemma kv_handleAction_try action labelName startTime :
  keeps (fun s : ExecutionResult * World => view (snd s))
    (tryCatch
       (data <- liftW (getPhotoPrismData env) ;;
        let uids := pd_uids data in
        let token := pd_token data in
        match uids with
        | [] => throw "No photos selected. Please select photos in PhotoPrism first."
        | firstUid :: _ =>
            setLocal (withTotalCount (length uids)) ;;
            liftW (setStatus ("Processing " +:+ pretty (length uids) +:+ " photos...") false) ;;
            result <- liftW (runBatch env action labelName uids firstUid token) ;;
            setLocal (withBatchResult result) ;;
            now <- liftW (dateNow env) ;;
            setLocal (withDuration (now - startTime)%Z) ;;
            executionResult <- getLocal ;;
            liftW (saveExecutionResult env executionResult) ;;
            match er_failedUids executionResult with
            | _ :: _ =>
                stamp <- liftW (dateNow env) ;;
                liftW (saveFailedOperation env
                         (mkFailedOperation action labelName
                            (er_failedUids executionResult) stamp 0))
            | [] => liftW (removeFailedOperation env action (Js.toLowerCase labelName))
            end ;;
            liftW (addToRecentLabels env labelName) ;;
            liftW (setStatus (finalMessage executionResult)
                     (0 <? er_failedCount executionResult))
        end)
       (fun error =>
          setLocal (withError error) ;;
          now <- liftW (dateNow env) ;;
          setLocal (withDuration (now - startTime)%Z) ;;
          executionResult <- getLocal ;;
          liftW (saveExecutionResult env executionResult) ;;
          liftW (setStatus error true) ;;
          liftW (refreshFailedOperations env))).
Proof.
  apply keeps_tryCatch.
  - apply keeps_bind; [apply keeps_liftW_view, kv_getPhotoPrismData|]. intros data.
    cbv zeta. destruct (pd_uids data) as [|firstUid rest]; [apply keeps_throw|].
    apply keeps_bind; [apply keeps_setLocal_view|]. intros _.
    apply keeps_bind; [apply keeps_liftW_view, kv_setStatus|]. intros _.
    apply keeps_bind; [apply keeps_liftW_view, kv_runBatch|]. intros res.
    apply keeps_bind; [apply keeps_setLocal_view|]. intros _.
    apply keeps_bind; [apply keeps_liftW_view, kv_dateNow|]. intros now.
    apply keeps_bind; [apply keeps_setLocal_view|]. intros _.
    apply keeps_bind; [apply keeps_getLocal_view|]. intros r.
    apply keeps_bind; [apply keeps_liftW_view, kv_saveExecutionResult|]. intros _.
    apply keeps_bind.
    + destruct (er_failedUids r).
      * apply keeps_liftW_view, kv_removeFailedOperation.
      * apply keeps_bind; [apply keeps_liftW_view, kv_dateNow|]. intros stamp.
        apply keeps_liftW_view, kv_saveFailedOperation.
    + intros _.
      apply keeps_bind; [apply keeps_liftW_view, kv_addToRecentLabels|]. intros _.
      apply keeps_liftW_view, kv_setStatus.
  - intros e.
    apply keeps_bind; [apply keeps_setLocal_view|]. intros _.
    apply keeps_bind; [apply keeps_liftW_view, kv_dateNow|]. intros now.
    apply keeps_bind; [apply keeps_setLocal_view|]. intros _.
    apply keeps_bind; [apply keeps_getLocal_view|]. intros r.
    apply keeps_bind; [apply keeps_liftW_view, kv_saveExecutionResult|]. intros _.
    apply keeps_bind; [apply keeps_liftW_view, kv_setStatus|]. intros _.
    apply keeps_liftW_view, kv_refreshFailedOperations.
Qed.

End KeepsView.

(** ** A label made of white space *)

Lemma trimEnd_empty s : Js.trimEnd s = EmptyString <-> allWhite s = true.
Proof.
  induction s as [|c s IH]; simpl; [tauto|].
  destruct (Js.trimEnd s) eqn:E.
  - destruct (Js.isWhite c); simpl.
    + split; [intros _; now apply IH|reflexivity].
    + split; discriminate.
  - split; [discriminate|]. intros H. apply andb_true_iff in H as [_ H].
    apply IH in H. discriminate.
Qed.

Lemma trimStart_allWhite s : allWhite s = true -> Js.trimStart s = EmptyString.
Proof.
  induction s as [|c s IH]; simpl; [reflexivity|].
  intros H. apply andb_true_iff in H as [-> H]. now apply IH.
Qed.

Lemma trimStart_shape s :
  Js.trimStart s = EmptyString /\ allWhite s = true
  \/ exists c r, Js.trimStart s = String c r /\ Js.isWhite c = false.
Proof.
  induction s as [|c s IH]; simpl; [now left|].
  destruct (Js.isWhite c) eqn:Hc; simpl.
  - exact IH.
  - right. now exists c, s.
Qed.

Lemma trim_blank s : Js.truthy (Js.trim s) = false <-> allWhite s = true.
Proof.
  unfold Js.trim. split.
  - intros H.
    assert (E : Js.trimEnd (Js.trimStart s) = EmptyString)
      by (destruct (Js.trimEnd _); [reflexivity|discriminate]).
    apply trimEnd_empty in E.
    destruct (trimStart_shape s) as [[_ Hs]|(c & r & Hs & Hc)]; [exact Hs|].
    rewrite Hs in E. simpl in E. rewrite Hc in E. discriminate.
  - intros H. now rewrite (trimStart_allWhite s H).
Qed.

(** A label that is empty or made of white space only is refused on the
    spot: the status line asks for a label name, and nothing else happens. *)
Theorem blank_label_is_refused
    (env : Env) (input : string) (action : Action) (w : World) :
  allWhite input = true ->
  handleAction env input action w
  = (Returned tt, withStatus ("Please enter a label name.", true) w).
Proof.
  intros H. apply trim_blank in H. unfold handleAction. now rewrite H.
Qed.

Lemma blank_label_is_refused_witness :
  allWhite "   " = true
  /\ handleAction allFineEnv "   " add emptyWorld
     = (Returned tt, withStatus ("Please enter a label name.", true) emptyWorld).
Proof.
  split; [reflexivity|].
  apply (blank_label_is_refused allFineEnv "   " add emptyWorld). reflexivity.
Defined.

(** ** The page while an action runs *)

(** With a label to act on, [handleAction] disables the page at once and
    enables it again when, and only when, the action settles: the page is
    enabled after an action that returned or failed, and stays disabled after
    an action one of whose calls never settles. *)
Theorem handleAction_enables_the_page_when_it_settles
    (env : Env) (input : string) (action : Action) (w : World) :
  allWhite input = false ->
  match fst (handleAction env input action w) with
  | Pending => processing (snd (handleAction env input action w)) = true
  | _ => processing (snd (handleAction env input action w)) = false
  end.
Proof.
  intros H.
  assert (Ht : Js.truthy (Js.trim input) = true).
  { destruct (Js.truthy (Js.trim input)) eqn:E; [reflexivity|].
    apply trim_blank in E. congruence. }
  cut (forall p, p = handleAction env input action w ->
         match fst p with
         | Pending => processing (snd p) = true
         | _ => processing (snd p) = false
         end); [intros Hc; now apply Hc|].
  intros p Hp. unfold handleAction in Hp. rewrite Ht in Hp. cbn [negb] in Hp.
  unfold setUIProcessingState at 1, setStatus at 1, updateProgress at 1 in Hp.
  rewrite !bind_modify, !bind_dateNow in Hp.
  unfold runLocal, tryFinally in Hp.
  match type of Hp with context [tryCatch ?b ?h ?s] =>
    assert (Hk : processing (snd (snd (tryCatch b h s))) = processing (snd s))
      by (apply (kv_handleAction_try env processing); reflexivity);
    destruct (tryCatch b h s) as [[u|e|] [r1 w1]]
  end; subst p; simpl in Hk |- *; try exact Hk; reflexivity.
Qed.

Lemma handleAction_enables_the_page_when_it_settles_witness :
  allWhite "Cat" = false
  /\ fst (handleAction x3FailsEnv "Cat" add emptyWorld) = Returned tt
  /\ processing (snd (handleAction x3FailsEnv "Cat" add emptyWorld)) = false.
Proof.
  split; [reflexivity|].
  pose proof (handleAction_enables_the_page_when_it_settles x3FailsEnv "Cat" add emptyWorld
                eq_refl) as H.
  assert (E : fst (handleAction x3FailsEnv "Cat" add emptyWorld) = Returned tt)
    by (vm_compute; reflexivity).
  rewrite E in H. split; [exact E|exact H].
Defined.

(** ** An action with no active tab *)

Lemma truthy_trim_of_not_blank input : allWhite input = false -> Js.truthy (Js.trim input) = true.
Proof.
  intros H. destruct (Js.truthy (Js.trim input)) eqn:E; [reflexivity|].
  apply trim_blank in E. congruence.
Qed.

(** With no active tab an action fails with the error of the store, "Could
    not determine current instance".  The error of the page data, "Could not
    find active tab.", is neither shown nor recorded: the status line still
    announces the request for the page data, nothing is stored and no request
    is issued; the clock has been read four times and the page is enabled
    again. *)
Theorem handleAction_without_active_tab
    (env : Env) (input : string) (action : Action) (w : World) :
  activeTab env = None ->
  allWhite input = false ->
  handleAction env input action w
  = (Thrown "Could not determine current instance",
     withProcessing false
       (withClockReads (4 + clockReads w)
          (withProgress (progress w ++ [(0, 0)])
             (withStatus ("Requesting data from PhotoPrism...", false) w)))).
Proof.
  intros Htab H. pose proof (truthy_trim_of_not_blank input H) as Ht.
  assert (Hinst : getCurrentInstanceId env = inl "Could not determine current instance")
    by (unfold getCurrentInstanceId; now rewrite Htab).
  unfold handleAction. rewrite Ht. cbn [negb].
  unfold setUIProcessingState at 1, setStatus at 1, updateProgress at 1.
  rewrite !bind_modify, !bind_dateNow.
  unfold runLocal, tryFinally, tryCatch.
  rewrite bind_liftW. unfold getPhotoPrismData at 1. rewrite Htab. unfold throw at 1.
  rewrite bind_setLocal, bind_liftW. unfold dateNow at 1. cbv beta iota.
  rewrite bind_setLocal, bind_getLocal, bind_liftW.
  unfold saveExecutionResult at 1. rewrite bind_dateNow.
  erewrite (bind_Returned (getInstanceData env _ _))
    by (apply (getInstanceData_unresolved env _ _ _ _ Hinst)).
  unfold asHistory at 1. erewrite (bind_Returned (ret _)) by reflexivity.
  erewrite (bind_Thrown (setInstanceData env _ _))
    by (apply (setInstanceData_unresolved env _ _ _ _ Hinst)).
  unfold liftW, setUIProcessingState, modify. simpl.
  now destruct w.
Qed.

Lemma handleAction_without_active_tab_witness :
  activeTab envNoTab = None
  /\ allWhite "cat" = false
  /\ handleAction envNoTab "cat" add emptyWorld
     = (Thrown "Could not determine current instance",
        mkWorld ∅ [] 4 [(0, 0)] ("Requesting data from PhotoPrism...", false) false).
Proof.
  split; [reflexivity|]. split; [reflexivity|].
  apply (handleAction_without_active_tab envNoTab "cat" add emptyWorld eq_refl eq_refl).
Defined.

(** ** An action that cannot start *)

Lemma handleAction_not_started
    (env : Env) (inst : string) (input : string) (action : Action) (w : World)
    (h : list HistoryEntry) (e : string) :
  getCurrentInstanceId env = inr inst ->
  allWhite input = false ->
  historyIs env w h ->
  (pageData env = inl e
   \/ exists token, pageData env = inr (mkPageData [] token) /\ e = noPhotosError) ->
  exists w' entry,
    handleAction env input action w = (Returned tt, w')
    /\ requests w' = requests w
    /\ status w' = (e, true)
    /\ processing w' = false
    /\ historyIs env w' (take 50 (entry :: h))
    /\ (forall k, k <> historyKey inst -> storage w' !! k = storage w !! k)
    /\ he_result entry
       = mkExecutionResult action (Js.trim input) 0 0 0 []
           (clock env (S (clockReads w)))
           (clock env (S (S (clockReads w))) - clock env (clockReads w))%Z
           (Some e) false.
Proof.
  intros Hinst H Hh Hpage. pose proof (truthy_trim_of_not_blank input H) as Ht.
  apply (historyIs_resolved env inst Hinst) in Hh.
  unfold handleAction. rewrite Ht. cbn [negb].
  unfold setUIProcessingState at 1, setStatus at 1, updateProgress at 1.
  rewrite !bind_modify, !bind_dateNow.
  unfold runLocal, tryFinally, tryCatch.
  rewrite bind_liftW, (getPhotoPrismData_resolved env inst Hinst).
  set (w0 := withClockReads _ (withClockReads _ _)).
  assert (Hh0 : historyIn inst (storage w0) = VHistory h) by exact Hh.
  destruct Hpage as [Hp|(token & Hp & ->)]; rewrite Hp; cbn [pd_uids];
    unfold noPhotosError; try unfold throw at 1.
  all: rewrite bind_setLocal, bind_liftW; unfold dateNow at 1; cbv beta iota.
  all: rewrite bind_setLocal, bind_getLocal, bind_liftW.
  all: rewrite (saveExecutionResult_run env inst Hinst _
                  (withClockReads (S (clockReads w0)) w0) h Hh0).
  all: rewrite bind_liftW; unfold setStatus at 1, modify at 1.
  all: unfold liftW at 1; cbn [snd fst].
  all: rewrite (refreshFailedOperations_run env inst Hinst).
  all: unfold liftW at 1; cbn [snd fst]; unfold setUIProcessingState, modify.
  all: eexists; eexists (mkHistoryEntry _ _).
  all: (split; [reflexivity|]); simpl.
  all: repeat split.
  all: try (apply (historyIs_resolved env inst Hinst); unfold historyIn; simpl;
            now rewrite lookup_insert_eq).
  all: intros k Hk; now rewrite lookup_insert_ne by congruence.
Qed.

(** An action that cannot start, because the page data cannot be had or
    because no photo is selected, ends normally with the error on the status
    line and the page enabled.  It issues no request and writes nothing but
    the execution log, which receives a record of the action and of the
    label with all counts at 0 and the error. *)
Theorem action_that_cannot_start_is_recorded
    (env : Env) (inst : string) (input : string) (action : Action) (w : World)
    (h : list HistoryEntry) (e : string) :
  getCurrentInstanceId env = inr inst ->
  allWhite input = false ->
  historyIs env w h ->
  (pageData env = inl e
   \/ exists token, pageData env = inr (mkPageData [] token) /\ e = noPhotosError) ->
  exists w' entry,
    handleAction env input action w = (Returned tt, w')
    /\ requests w' = requests w
    /\ status w' = (e, true)
    /\ processing w' = false
    /\ historyIs env w' (take 50 (entry :: h))
    /\ (forall k, k <> historyKey inst -> storage w' !! k = storage w !! k)
    /\ he_result entry
       = mkExecutionResult action (Js.trim input) 0 0 0 []
           (clock env (S (clockReads w)))
           (clock env (S (S (clockReads w))) - clock env (clockReads w))%Z
           (Some e) false.
Proof. apply handleAction_not_started. Qed.

Lemma action_that_cannot_start_is_recorded_witness :
  getCurrentInstanceId nothingSelectedEnv = inr demoInstance
  /\ allWhite "cat" = false
  /\ historyIs nothingSelectedEnv emptyWorld []
  /\ exists w',
       handleAction nothingSelectedEnv "cat" add emptyWorld = (Returned tt, w')
       /\ requests w' = []
       /\ status w' = (noPhotosError, true)
       /\ historyIs nothingSelectedEnv w'
            [mkHistoryEntry
               (mkExecutionResult add "cat" 0 0 0 [] 1001 2 (Some noPhotosError) false)
               "1003"].
Proof.
  split; [reflexivity|]. split; [reflexivity|]. split; [reflexivity|].
  destruct (action_that_cannot_start_is_recorded nothingSelectedEnv demoInstance "cat" add
              emptyWorld [] noPhotosError eq_refl eq_refl eq_refl
              (or_intror (ex_intro _ "tok" (conj eq_refl eq_refl))))
    as (w' & entry & Hrun & Hrq & Hst & _ & Hh & _ & He).
  exists w'. split; [exact Hrun|]. split; [exact Hrq|]. split; [exact Hst|].
  replace w' with (snd (handleAction nothingSelectedEnv "cat" add emptyWorld))
    by (now rewrite Hrun).
  vm_compute. reflexivity.
Defined.

(** ** A retry of nothing *)

(** A retry at an index that names no group, or of a group that lists no
    identifier, does nothing at all. *)
Theorem retry_of_nothing_does_nothing
    (env : Env) (i : nat) (w : World) (l : list FailedOperation) :
  failureGroupsAre env w l ->
  (l !! i = None \/ exists g, l !! i = Some g /\ fo_failedUids g = []) ->
  retryFailedOperation env i w = (Returned tt, w).
Proof.
  intros Hl Hi. unfold retryFailedOperation.
  rewrite (bind_Returned _ _ _ _ _ Hl).
  unfold asFailed. rewrite (bind_Returned (ret l) _ w l w eq_refl).
  destruct Hi as [->|(g & -> & ->)]; reflexivity.
Qed.

Lemma retry_of_nothing_does_nothing_witness :
  failureGroupsAre x3FailsEnv afterFirstAdd [x3Group]
  /\ [x3Group] !! 1 = None
  /\ retryFailedOperation x3FailsEnv 1 afterFirstAdd = (Returned tt, afterFirstAdd).
Proof.
  assert (Hl : failureGroupsAre x3FailsEnv afterFirstAdd [x3Group])
    by (vm_compute; reflexivity).
  split; [exact Hl|]. split; [reflexivity|].
  apply (retry_of_nothing_does_nothing x3FailsEnv 1 afterFirstAdd [x3Group] Hl).
  left. reflexivity.
Defined.

(** ** The requests of an "add" *)

(** An "add" issues one [POST] for each photo selected, in the order of the
    selection, with the label as typed, trimmed, and the token of the page,
    and no other request; when the page data cannot be had it issues none.
    This holds however the calls settle, and whether or not they do. *)
Theorem add_issues_one_post_per_photo
    (env : Env) (inst : string) (input : string) (w : World) :
  getCurrentInstanceId env = inr inst ->
  allWhite input = false ->
  requests (snd (handleAction env input add w))
  = requests w
    ++ match pageData env with
       | inl _ => []
       | inr data => map (addRequest inst (Js.trim input) (pd_token data)) (pd_uids data)
       end.
Proof.
  intros Hinst H. pose proof (truthy_trim_of_not_blank input H) as Ht.
  rewrite (handleAction_requests env inst Hinst input add w Ht).
  unfold handleAttempted.
  destruct (pageData env) as [e|data]; [simpl; now rewrite app_nil_r|].
  destruct (pd_uids data) as [|firstUid rest] eqn:Eu; [simpl; now rewrite app_nil_r|].
  now destruct (runBatch_add env inst Hinst (Js.trim input) (firstUid :: rest) firstUid
                  (pd_token data) (handleProcessing (length (firstUid :: rest)) w))
    as [-> _].
Qed.

Lemma add_issues_one_post_per_photo_witness :
  getCurrentInstanceId x3FailsEnv = inr demoInstance
  /\ allWhite " Cat " = false
  /\ requests (snd (handleAction x3FailsEnv " Cat " add emptyWorld))
     = [addRequest demoInstance "Cat" "tok" "x1"; addRequest demoInstance "Cat" "tok" "x2";
        addRequest demoInstance "Cat" "tok" "x3"].
Proof.
  split; [reflexivity|]. split; [reflexivity|].
  apply (add_issues_one_post_per_photo x3FailsEnv demoInstance " Cat " emptyWorld
           eq_refl eq_refl).
Defined.

(** ** Trimming twice *)

Lemma trimEnd_idempotent s : Js.trimEnd (Js.trimEnd s) = Js.trimEnd s.
Proof.
  induction s as [|c s IH]; simpl; [reflexivity|].
  destruct (Js.trimEnd s) as [|d r] eqn:E.
  - destruct (Js.isWhite c) eqn:Hc; simpl; [reflexivity|]. now rewrite Hc.
  - simpl. simpl in IH. now rewrite IH.
Qed.

Lemma trimEnd_keeps_head c r :
  Js.isWhite c = false -> exists r', Js.trimEnd (String c r) = String c r'.
Proof.
  intros Hc. simpl. destruct (Js.trimEnd r); [rewrite Hc|]; eauto.
Qed.

Lemma trim_idempotent s : Js.trim (Js.trim s) = Js.trim s.
Proof.
  unfold Js.trim.
  destruct (trimStart_shape s) as [[-> _]|(c & r & -> & Hc)]; [reflexivity|].
  destruct (trimEnd_keeps_head c r Hc) as (r' & E). rewrite E.
  simpl Js.trimStart. rewrite Hc. rewrite <- E. apply trimEnd_idempotent.
Qed.

(** ** An action whose batch returns: the whole world *)

Section HandleWorld.

Variable env : Env.
Variable inst : string.
Hypothesis Hinst : getCurrentInstanceId env = inr inst.

Lemma handleAction_returned_world input action w data firstUid rest res w3 h l
    recentLabels allLabels :
  Js.truthy (Js.trim input) = true ->
  pageData env = inr data ->
  pd_uids data = firstUid :: rest ->
  runBatch env action (Js.trim input) (pd_uids data) firstUid (pd_token data)
    (handleProcessing (length (pd_uids data)) w) = (Returned res, w3) ->
  historyIn inst (storage w3) = VHistory h ->
  failedIn inst (storage w3) = VFailed l ->
  recentIn inst (storage w3) = VLabels recentLabels ->
  allIn inst (storage w3) = VLabels allLabels ->
  let r := withDuration (clock env (clockReads w3) - clock env (clockReads w))%Z
             (withBatchResult res
                (withTotalCount (length (pd_uids data))
                   (executionResult0 env action (Js.trim input) w))) in
  exists w',
    handleAction env input action w = (Returned tt, w')
    /\ storage w'
       = <[allKey inst := VLabels (allAfter (Js.trim input) allLabels)]>
           (<[recentKey inst := VLabels (recentAfter (Js.trim input) recentLabels)]>
              (<[failedKey inst :=
                   VFailed
                     (match failedUids res with
                      | [] => cleared action (Js.toLowerCase (Js.trim input)) l
                      | _ :: _ =>
                          reported
                            (mkFailedOperation action (Js.trim input) (failedUids res)
                               (clock env (S (S (clockReads w3)))) 0) l
                      end)]>
                 (<[historyKey inst :=
                      VHistory (take 50 (mkHistoryEntry r
                                           (pretty (clock env (S (clockReads w3)))) :: h))]>
                    (storage w3))))
    /\ requests w' = requests w3
    /\ progress w' = progress w3
    /\ status w' = (finalMessage r, 0 <? failedCount res)
    /\ processing w' = false.
Proof.
  intros Ht Hpage Hu Hrun Hh Hl Hrec Hall r.
  destruct (keys_distinct inst)
    as (_ & _ & _ & _ & _ & Hrh & Hrf & Hah & Haf & Hhf).
  unfold handleAction. rewrite Ht. cbn [negb].
  unfold setUIProcessingState at 1, setStatus at 1, updateProgress at 1.
  rewrite !bind_modify, !bind_dateNow.
  unfold runLocal, tryFinally, tryCatch.
  rewrite bind_liftW, (getPhotoPrismData_resolved env inst Hinst), Hpage.
  unfold handleProcessing, handleStart in Hrun. subst r. rewrite Hu in *.
  rewrite bind_setLocal, bind_liftW.
  unfold setStatus at 1, modify at 1.
  rewrite bind_liftW.
  match goal with |- context [runBatch env ?a ?n ?u ?f ?t ?v] =>
    match type of Hrun with runBatch _ _ _ _ _ _ ?v0 = _ => change v with v0 end end.
  rewrite Hrun.
  rewrite bind_setLocal, bind_liftW. unfold dateNow at 1. cbv beta iota.
  rewrite bind_setLocal, bind_getLocal, bind_liftW.
  rewrite (saveExecutionResult_run env inst Hinst _ (withClockReads (S (clockReads w3)) w3)
             h Hh).
  cbn [er_failedUids er_failedCount withDuration withBatchResult].
  set (w3b := withStorage _ (withClockReads (S (clockReads (withClockReads _ w3))) _)).
  assert (Hl3 : failedIn inst (storage w3b) = VFailed l).
  { unfold failedIn, w3b. simpl storage. now rewrite lookup_insert_ne by congruence. }
  assert (Hrec3 : recentIn inst (storage w3b) = VLabels recentLabels).
  { unfold recentIn, w3b. simpl storage. now rewrite lookup_insert_ne by congruence. }
  assert (Hall3 : allIn inst (storage w3b) = VLabels allLabels).
  { unfold allIn, w3b. simpl storage. now rewrite lookup_insert_ne by congruence. }
  assert (Ht2 : Js.truthy (Js.trim (Js.trim input)) = true) by now rewrite trim_idempotent.
  destruct (failedUids res) as [|u us] eqn:Efu.
  - rewrite bind_liftW.
    rewrite (removeFailedOperation_run env inst Hinst _ _ w3b l Hl3).
    rewrite bind_liftW.
    erewrite (addToRecentLabels_run env inst Hinst (Js.trim input) _ recentLabels allLabels Ht2).
    2: { unfold recentIn. simpl storage. now rewrite lookup_insert_ne by congruence. }
    2: { unfold allIn. simpl storage. now rewrite lookup_insert_ne by congruence. }
    unfold liftW at 1, setStatus at 1, modify at 1. cbn [snd fst].
    unfold liftW at 1, setUIProcessingState, modify. cbn [snd fst].
    eexists. split; [reflexivity|]. repeat split.
  - rewrite bind_assoc, bind_liftW. unfold dateNow at 1. cbv beta iota.
    rewrite bind_liftW.
    rewrite (saveFailedOperation_run env inst Hinst _
               (withClockReads (S (clockReads w3b)) w3b) l Hl3).
    rewrite bind_liftW.
    erewrite (addToRecentLabels_run env inst Hinst (Js.trim input) _ recentLabels allLabels Ht2).
    2: { unfold recentIn. simpl storage. now rewrite lookup_insert_ne by congruence. }
    2: { unfold allIn. simpl storage. now rewrite lookup_insert_ne by congruence. }
    unfold liftW at 1, setStatus at 1, modify at 1. cbn [snd fst].
    unfold liftW at 1, setUIProcessingState, modify. cbn [snd fst].
    eexists. split; [reflexivity|]. repeat split.
Qed.

(** An action whose batch never settles. *)
Lemma handleAction_pending_world input action w data firstUid rest w3 :
  Js.truthy (Js.trim input) = true ->
  pageData env = inr data ->
  pd_uids data = firstUid :: rest ->
  runBatch env action (Js.trim input) (pd_uids data) firstUid (pd_token data)
    (handleProcessing (length (pd_uids data)) w) = (Pending, w3) ->
  handleAction env input action w = (Pending, w3).
Proof.
  intros Ht Hpage Hu Hrun.
  unfold handleAction. rewrite Ht. cbn [negb].
  unfold setUIProcessingState at 1, setStatus at 1, updateProgress at 1.
  rewrite !bind_modify, !bind_dateNow.
  unfold runLocal, tryFinally, tryCatch.
  rewrite bind_liftW, (getPhotoPrismData_resolved env inst Hinst), Hpage.
  unfold handleProcessing, handleStart in Hrun. rewrite Hu in *.
  rewrite bind_setLocal, bind_liftW.
  unfold setStatus at 1, modify at 1.
  rewrite bind_liftW.
  match goal with |- context [runBatch env ?a ?n ?u ?f ?t ?v] =>
    match type of Hrun with runBatch _ _ _ _ _ _ ?v0 = _ => change v with v0 end end.
  rewrite Hrun. reflexivity.
Qed.

End HandleWorld.

(** ** A store whose entries have the shape of their key *)

Section Shaped.

Variable env : Env.
Variable inst : string.
Hypothesis Hinst : getCurrentInstanceId env = inr inst.

Lemma storeShaped_resolved w : storeShaped env w <-> shapedStore inst (storage w).
Proof.
  unfold storeShaped, shapedStore, labelCacheIs, recentLabelsAre, allLabelsAre,
    historyIs, failureGroupsAre.
  unfold cacheIn, recentIn, allIn, historyIn, failedIn, cacheKey, recentKey, allKey,
    historyKey, failedKey.
  split; intros ([c Hc] & [r Hr] & [a Ha] & [h Hh] & [l Hl]).
  - rewrite (getInstanceData_resolved env inst _ _ _ Hinst) in Hc.
    rewrite (getInstanceData_resolved env inst _ _ _ Hinst) in Hr.
    rewrite (getInstanceData_resolved env inst _ _ _ Hinst) in Ha.
    rewrite (getInstanceData_resolved env inst _ _ _ Hinst) in Hh.
    rewrite (getInstanceData_resolved env inst _ _ _ Hinst) in Hl.
    injection Hc as Hc. injection Hr as Hr. injection Ha as Ha. injection Hh as Hh.
    injection Hl as Hl. repeat split; eauto.
  - rewrite !(getInstanceData_resolved env inst _ _ _ Hinst).
    rewrite Hc, Hr, Ha, Hh, Hl. repeat split; eauto.
Qed.

Lemma getLabelId_cache_shaped labelName firstUid token w cache :
  cacheIn inst (storage w) = VLabelCache cache ->
  exists cache',
    cacheIn inst (storage (snd (getLabelId env labelName firstUid token w)))
    = VLabelCache cache'.
Proof.
  intros Hc.
  pose proof (getLabelId_cases env inst Hinst labelName firstUid token w) as H.
  simpl in H.
  destruct (getLabelId env labelName firstUid token w) as [[labelId|e|] w']; simpl.
  - destruct H as (c & _ & [[_ ->]|(_ & l & _ & _ & _ & ->)]); [eauto|].
    eexists. unfold cacheIn. now rewrite lookup_insert_eq.
  - destruct H as [-> _]. eauto.
  - destruct H as [-> _]. eauto.
Qed.

Lemma runBatch_cache_shaped action labelName uids firstUid token w cache :
  cacheIn inst (storage w) = VLabelCache cache ->
  exists cache',
    cacheIn inst (storage (snd (runBatch env action labelName uids firstUid token w)))
    = VLabelCache cache'.
Proof.
  intros Hc. destruct action.
  - destruct (runBatch_add env inst Hinst labelName uids firstUid token w) as (_ & -> & _).
    eauto.
  - pose proof (runBatch_remove env inst Hinst labelName uids firstUid token w) as H.
    destruct (getLabelId_cache_shaped labelName firstUid token w cache Hc) as [c' Hc'].
    destruct (getLabelId env labelName firstUid token w) as [[labelId|e1|] w1]; simpl in Hc'.
    + destruct H as (_ & _ & ->). eauto.
    + rewrite H. eauto.
    + rewrite H. eauto.
Qed.

Lemma runBatch_shaped action labelName uids firstUid token w :
  shapedStore inst (storage w) ->
  shapedStore inst (storage (snd (runBatch env action labelName uids firstUid token w))).
Proof.
  intros ([c Hc] & Hr & Ha & Hh & Hf).
  destruct (keys_distinct inst) as (Hcr & Hca & Hch & Hcf & _).
  split; [now apply runBatch_cache_shaped with (cache := c)|].
  unfold recentIn, allIn, historyIn, failedIn in *.
  rewrite !(runBatch_frame env inst Hinst) by congruence. tauto.
Qed.

Lemma shapedStore_insert_history s h :
  shapedStore inst s -> shapedStore inst (<[historyKey inst := VHistory h]> s).
Proof.
  intros (Hc & Hr & Ha & Hh & Hf).
  destruct (keys_distinct inst) as (Hcr & Hca & Hch & Hcf & Hra & Hrh & Hrf & Hah & Haf & Hhf).
  unfold shapedStore, cacheIn, recentIn, allIn, historyIn, failedIn in *.
  rewrite lookup_insert_eq, !lookup_insert_ne by congruence. simpl.
  repeat split; eauto.
Qed.

Lemma shapedStore_insert_failed s l :
  shapedStore inst s -> shapedStore inst (<[failedKey inst := VFailed l]> s).
Proof.
  intros (Hc & Hr & Ha & Hh & Hf).
  destruct (keys_distinct inst) as (Hcr & Hca & Hch & Hcf & Hra & Hrh & Hrf & Hah & Haf & Hhf).
  unfold shapedStore, cacheIn, recentIn, allIn, historyIn, failedIn in *.
  rewrite lookup_insert_eq, !lookup_insert_ne by congruence. simpl.
  repeat split; eauto.
Qed.

Lemma shapedStore_insert_recent s l :
  shapedStore inst s -> shapedStore inst (<[recentKey inst := VLabels l]> s).
Proof.
  intros (Hc & Hr & Ha & Hh & Hf).
  destruct (keys_distinct inst) as (Hcr & Hca & Hch & Hcf & Hra & Hrh & Hrf & Hah & Haf & Hhf).
  unfold shapedStore, cacheIn, recentIn, allIn, historyIn, failedIn in *.
  rewrite lookup_insert_eq, !lookup_insert_ne by congruence. simpl.
  repeat split; eauto.
Qed.

Lemma shapedStore_insert_all s l :
  shapedStore inst s -> shapedStore inst (<[allKey inst := VLabels l]> s).
Proof.
  intros (Hc & Hr & Ha & Hh & Hf).
  destruct (keys_distinct inst) as (Hcr & Hca & Hch & Hcf & Hra & Hrh & Hrf & Hah & Haf & Hhf).
  unfold shapedStore, cacheIn, recentIn, allIn, historyIn, failedIn in *.
  rewrite lookup_insert_eq, !lookup_insert_ne by congruence. simpl.
  repeat split; eauto.
Qed.

End Shaped.

(** ** Calls that settle *)

Lemma startCalls_settled uids (apiFn : string -> M World Json) :
  (forall uid w, fst (apiFn uid w) <> Pending) ->
  forall w calls w',
    startCalls uids apiFn w = (Returned calls, w') ->
    existsb (fun c => isPending (snd c)) calls = false.
Proof.
  intros Hs. unfold startCalls.
  induction uids as [|uid uids IH]; intros w calls w' E.
  - simpl in E. injection E as <- <-. reflexivity.
  - simpl in E. unfold bind at 1 in E. unfold bind at 1, settle at 1 in E.
    specialize (Hs uid w).
    destruct (apiFn uid w) as [o w1]. simpl in E, Hs.
    unfold bind at 1 in E.
    destruct (mapM _ uids w1) as [[calls1|e|] w2] eqn:E1; simpl in E; try discriminate.
    injection E as <- <-. simpl.
    rewrite (IH w1 calls1 w2 E1). now destruct o.
Qed.

Section Settles.

Variable env : Env.
Variable inst : string.
Hypothesis Hinst : getCurrentInstanceId env = inr inst.
Hypothesis Hsettles : forall n rq, fetchOracle env n rq <> NeverSettles.

Lemma runBatch_settles action labelName uids firstUid token w :
  fst (runBatch env action labelName uids firstUid token w) <> Pending.
Proof.
  assert (Hbatch : forall apiFn w0,
            (forall uid w1, fst (apiFn uid w1) <> Pending) ->
            fst (batchProcess env uids apiFn w0) <> Pending).
  { intros apiFn w0 Hs.
    destruct (batchProcess_cases env uids apiFn w0)
      as (calls & w1 & Ecalls & _ & [(Hp & _)|(_ & res & w' & -> & _)]);
      [|discriminate].
    now rewrite (startCalls_settled uids apiFn Hs _ _ _ Ecalls) in Hp. }
  destruct action.
  - unfold runBatch. apply Hbatch. intros uid w1.
    rewrite (addLabel_run env inst Hinst). simpl.
    specialize (Hsettles (length (requests w1)) (addRequest inst labelName token uid)).
    destruct (fetchOracle env _ _) as [r| |]; simpl; try congruence.
    destruct (rs_ok r); [destruct (rs_json r)|]; discriminate.
  - pose proof (runBatch_remove env inst Hinst labelName uids firstUid token w) as H.
    pose proof (getLabelId_cases env inst Hinst labelName firstUid token w) as Hc.
    simpl in Hc.
    destruct (getLabelId env labelName firstUid token w) as [[labelId|e1|] w1].
    + destruct H as (-> & _). apply Hbatch. intros uid w2.
      rewrite (removeLabel_run env inst Hinst). simpl.
      specialize (Hsettles (length (requests w2)) (removeRequest inst labelId token uid)).
      destruct (fetchOracle env _ _) as [r| |]; simpl; try congruence.
      destruct (rs_ok r || _); [destruct (rs_json r)|]; discriminate.
    + rewrite H. discriminate.
    + destruct Hc as (_ & _ & Hn & _). now apply Hsettles in Hn.
Qed.

End Settles.

(** ** An action never fails *)

Section HandleSummary.

Variable env : Env.
Variable inst : string.
Hypothesis Hinst : getCurrentInstanceId env = inr inst.

(** The batch of an action, seen from the world in which the action starts. *)
Lemma runBatch_from_start action labelName uids firstUid token n w :
  fst (runBatch env action labelName uids firstUid token (handleProcessing n w))
  = fst (runBatch env action labelName uids firstUid token w).
Proof.
  now destruct (netLocal_runBatch env action labelName uids firstUid token
                  (handleProcessing n w) w) as [Hf _]; [split; reflexivity|].
Qed.

Lemma handleAction_summary input action w :
  shapedStore inst (storage w) ->
  (forall e, fst (handleAction env input action w) <> Thrown e)
  /\ shapedStore inst (storage (snd (handleAction env input action w)))
  /\ (fst (handleAction env input action w) = Pending ->
      exists data firstUid rest,
        pageData env = inr data /\ pd_uids data = firstUid :: rest
        /\ fst (runBatch env action (Js.trim input) (pd_uids data) firstUid (pd_token data) w)
           = Pending).
Proof.
  intros Hs.
  destruct (Js.truthy (Js.trim input)) eqn:Ht.
  2: { unfold handleAction. rewrite Ht. simpl. split; [discriminate|]. split; [exact Hs|discriminate]. }
  assert (Hb : allWhite input = false).
  { destruct (allWhite input) eqn:E; [|reflexivity]. apply trim_blank in E. congruence. }
  pose proof Hs as (_ & _ & _ & [h Hh] & _).
  assert (Hfail : forall e,
            (pageData env = inl e
             \/ exists token, pageData env = inr (mkPageData [] token) /\ e = noPhotosError) ->
            (forall e', fst (handleAction env input action w) <> Thrown e')
            /\ shapedStore inst (storage (snd (handleAction env input action w)))
            /\ fst (handleAction env input action w) <> Pending).
  { intros e He.
    destruct (handleAction_not_started env inst input action w h e Hinst Hb
                (proj2 (historyIs_resolved env inst Hinst w h) Hh) He)
      as (w' & entry & -> & _ & _ & _ & Hh' & Hframe & _).
    simpl. split; [discriminate|]. split; [|discriminate].
    apply (historyIs_resolved env inst Hinst) in Hh'.
    destruct Hs as ([c Hc] & [r Hr] & [a Ha] & _ & [l Hl]).
    destruct (keys_distinct inst) as (Hcr & Hca & Hch & Hcf & Hra & Hrh & Hrf & Hah & Haf & Hhf).
    unfold shapedStore, cacheIn, recentIn, allIn, historyIn, failedIn in *.
    rewrite (Hframe (cacheKey inst)), (Hframe (recentKey inst)), (Hframe (allKey inst)),
      (Hframe (failedKey inst)) by congruence.
    repeat split; eauto. }
  destruct (pageData env) as [e|data] eqn:Hpage.
  { destruct (Hfail e (or_introl eq_refl)) as (H1 & H2 & H3).
    split; [exact H1|]. split; [exact H2|]. intros Hp. now destruct (H3 Hp). }
  destruct (pd_uids data) as [|firstUid rest] eqn:Hu.
  { destruct data as [uids token]. simpl in Hu. subst uids.
    destruct (Hfail noPhotosError (or_intror (ex_intro _ token (conj eq_refl eq_refl))))
      as (H1 & H2 & H3).
    split; [exact H1|]. split; [exact H2|]. intros Hp. now destruct (H3 Hp). }
  clear Hfail.
  pose proof (runBatch_shaped env inst Hinst action (Js.trim input) (pd_uids data) firstUid
                (pd_token data) (handleProcessing (length (pd_uids data)) w) Hs) as Hs3.
  pose proof (runBatch_from_start action (Js.trim input) (pd_uids data) firstUid
                (pd_token data) (length (pd_uids data)) w) as Hfst.
  destruct (runBatch env action (Js.trim input) (pd_uids data) firstUid (pd_token data)
              (handleProcessing (length (pd_uids data)) w)) as [[res|e|] w3] eqn:E3;
    cbn [fst snd] in Hs3, Hfst.
  - pose proof Hs3 as (_ & [r Hr] & [a Ha] & [h3 Hh3] & [l3 Hl3]).
    destruct (handleAction_returned_world env inst Hinst input action w data firstUid rest
                res w3 h3 l3 r a Ht Hpage Hu E3 Hh3 Hl3 Hr Ha)
      as (w' & -> & Hst & _).
    simpl. split; [discriminate|]. split; [|discriminate].
    rewrite Hst.
    now apply shapedStore_insert_all, shapedStore_insert_recent, shapedStore_insert_failed,
      shapedStore_insert_history.
  - pose proof Hs3 as (_ & _ & _ & [h3 Hh3] & _).
    destruct (handleAction_batch_thrown env inst Hinst input action w data firstUid rest
                e w3 h3 Ht Hpage Hu E3 Hh3) as (w' & -> & _ & Hst).
    simpl. split; [discriminate|]. split; [|discriminate].
    rewrite Hst. now apply shapedStore_insert_history.
  - rewrite (handleAction_pending_world env inst Hinst input action w data firstUid rest
               w3 Ht Hpage Hu E3).
    simpl. split; [discriminate|]. split; [exact Hs3|].
    intros _. exists data, firstUid, rest. split; [reflexivity|]. split; [exact Hu|].
    symmetry. exact Hfst.
Qed.

End HandleSummary.

(** With the instance resolved and the store in shape, an action never
    fails: whatever goes wrong with the page data, with the resolver or with
    the calls is caught, and the action returns unless a request never
    settles.  The store is in shape afterwards. *)
Theorem handleAction_catches_every_failure
    (env : Env) (inst : string) (input : string) (action : Action) (w : World) :
  getCurrentInstanceId env = inr inst ->
  storeShaped env w ->
  (forall e, fst (handleAction env input action w) <> Thrown e)
  /\ storeShaped env (snd (handleAction env input action w))
  /\ ((forall n rq, fetchOracle env n rq <> NeverSettles) ->
      fst (handleAction env input action w) = Returned tt).
Proof.
  intros Hinst Hs. apply (storeShaped_resolved env inst Hinst) in Hs.
  destruct (handleAction_summary env inst Hinst input action w Hs) as (H1 & H2 & H3).
  split; [exact H1|]. split; [now apply (storeShaped_resolved env inst Hinst)|].
  intros Hsettles.
  destruct (fst (handleAction env input action w)) as [[]|e|] eqn:E; [reflexivity| |].
  - now destruct (H1 e).
  - destruct (H3 eq_refl) as (data & firstUid & rest & _ & _ & Hp).
    now apply (runBatch_settles env inst Hinst Hsettles) in Hp.
Qed.

Lemma handleAction_catches_every_failure_witness :
  getCurrentInstanceId noDogEnv = inr demoInstance
  /\ storeShaped noDogEnv emptyWorld
  /\ fst (handleAction noDogEnv "dog" remove emptyWorld) = Returned tt
  /\ storeShaped noDogEnv (snd (handleAction noDogEnv "dog" remove emptyWorld)).
Proof.
  assert (Hs : storeShaped noDogEnv emptyWorld).
  { repeat split; eexists; reflexivity. }
  split; [reflexivity|]. split; [exact Hs|].
  destruct (handleAction_catches_every_failure noDogEnv demoInstance "dog" remove emptyWorld
              eq_refl Hs) as (_ & H2 & H3).
  split; [|exact H2]. apply H3. intros n rq. discriminate.
Defined.

(** ** The record and the report of a completed action *)

(** An action whose batch returns ends normally.  It is recorded at the head
    of the log with the action, the label as typed, trimmed, the number of
    photos, the counts of the batch and the identifiers that failed, with no
    error and not as a retry.  The status line reads "Operation complete.
    Success: s." when no call failed; otherwise it adds the number of
    failures and the hint to retry, and is shown as an error. *)
Theorem completed_action_is_recorded_and_reported
    (env : Env) (inst : string) (input : string) (action : Action) (w : World)
    (data : PageData) (firstUid : string) (rest : list string) (res : BatchResult)
    (h : list HistoryEntry) :
  getCurrentInstanceId env = inr inst ->
  storeShaped env w ->
  historyIs env w h ->
  allWhite input = false ->
  pageData env = inr data ->
  pd_uids data = firstUid :: rest ->
  fst (runBatch env action (Js.trim input) (pd_uids data) firstUid (pd_token data) w)
  = Returned res ->
  exists w' entry,
    handleAction env input action w = (Returned tt, w')
    /\ historyIs env w' (take 50 (entry :: h))
    /\ er_action (he_result entry) = action
    /\ er_labelName (he_result entry) = Js.trim input
    /\ er_totalCount (he_result entry) = length (pd_uids data)
    /\ er_successCount (he_result entry) = successCount res
    /\ er_failedCount (he_result entry) = failedCount res
    /\ er_failedUids (he_result entry) = failedUids res
    /\ er_error (he_result entry) = None
    /\ er_isRetry (he_result entry) = false
    /\ status w'
       = (("Operation complete. Success: " +:+ pretty (successCount res))
          +:+ (if 0 <? failedCount res
               then ", Failed: " +:+ pretty (failedCount res)
                    +:+ ". Click 'Retry Failed' to retry."
               else "."),
          0 <? failedCount res)
    /\ processing w' = false.
Proof.
  intros Hinst Hs Hh Hb Hpage Hu Hres.
  pose proof (truthy_trim_of_not_blank input Hb) as Ht.
  apply (storeShaped_resolved env inst Hinst) in Hs.
  apply (historyIs_resolved env inst Hinst) in Hh.
  pose proof (runBatch_shaped env inst Hinst action (Js.trim input) (pd_uids data) firstUid
                (pd_token data) (handleProcessing (length (pd_uids data)) w) Hs) as Hs3.
  pose proof (runBatch_from_start env action (Js.trim input) (pd_uids data) firstUid
                (pd_token data) (length (pd_uids data)) w) as Hfst.
  pose proof (runBatch_frame env inst Hinst action (Js.trim input) (pd_uids data) firstUid
                (pd_token data) (handleProcessing (length (pd_uids data)) w)
                (historyKey inst)) as Hframe.
  destruct (runBatch env action (Js.trim input) (pd_uids data) firstUid (pd_token data)
              (handleProcessing (length (pd_uids data)) w)) as [o w3] eqn:E3.
  cbn [fst snd] in Hs3, Hfst, Hframe. rewrite Hres in Hfst. subst o.
  destruct (keys_distinct inst) as (_ & _ & Hch & _).
  assert (Hh3 : historyIn inst (storage w3) = VHistory h).
  { unfold historyIn. rewrite Hframe by congruence. exact Hh. }
  pose proof Hs3 as (_ & [r Hr] & [a Ha] & _ & [l3 Hl3]).
  destruct (handleAction_returned_world env inst Hinst input action w data firstUid rest
              res w3 h l3 r a Ht Hpage Hu E3 Hh3 Hl3 Hr Ha)
    as (w' & Erun & Hst & _ & _ & Hstatus & Hproc).
  eexists w', (mkHistoryEntry _ _). split; [exact Erun|]. split.
  { apply (historyIs_resolved env inst Hinst). rewrite Hst.
    destruct (keys_distinct inst) as (_ & _ & _ & _ & _ & Hrh & _ & Hah & _ & Hhf).
    unfold historyIn. rewrite !lookup_insert_ne by congruence.
    rewrite lookup_insert_eq. reflexivity. }
  simpl. repeat split; try reflexivity; [|exact Hproc].
  rewrite Hstatus. f_equal. unfold finalMessage. simpl.
  now destruct (0 <? failedCount res).
Qed.

Lemma completed_action_is_recorded_and_reported_witness :
  getCurrentInstanceId x3FailsEnv = inr demoInstance
  /\ storeShaped x3FailsEnv emptyWorld
  /\ historyIs x3FailsEnv emptyWorld []
  /\ fst (runBatch x3FailsEnv add "Cat" ["x1"; "x2"; "x3"] "x1" "tok" emptyWorld)
     = Returned (mkBatchResult 2 1 ["x3"])
  /\ exists w',
       handleAction x3FailsEnv "Cat" add emptyWorld = (Returned tt, w')
       /\ status w'
          = ("Operation complete. Success: 2, Failed: 1. Click 'Retry Failed' to retry.", true)
       /\ historyIs x3FailsEnv w' [firstAddEntry].
Proof.
  assert (Hs : storeShaped x3FailsEnv emptyWorld).
  { repeat split; eexists; reflexivity. }
  assert (Hres : fst (runBatch x3FailsEnv add "Cat" ["x1"; "x2"; "x3"] "x1" "tok" emptyWorld)
                 = Returned (mkBatchResult 2 1 ["x3"])) by (vm_compute; reflexivity).
  split; [reflexivity|]. split; [exact Hs|]. split; [reflexivity|]. split; [exact Hres|].
  destruct (completed_action_is_recorded_and_reported x3FailsEnv demoInstance "Cat" add
              emptyWorld (mkPageData ["x1"; "x2"; "x3"] "tok") "x1" ["x2"; "x3"]
              (mkBatchResult 2 1 ["x3"]) [] eq_refl Hs eq_refl eq_refl eq_refl eq_refl Hres)
    as (w' & entry & Hrun & _ & _ & _ & _ & _ & _ & _ & _ & _ & Hstatus & _).
  exists w'. split; [exact Hrun|]. split; [exact Hstatus|].
  replace w' with (snd (handleAction x3FailsEnv "Cat" add emptyWorld))
    by (now rewrite Hrun).
  vm_compute. reflexivity.
Defined.

(** ** The lists of labels *)

Lemma insertSorted_Permutation x l : Js.insertSorted x l ≡ₚ x :: l.
Proof.
  induction l as [|y l IH]; simpl; [reflexivity|].
  destruct (String.leb x y); [reflexivity|].
  rewrite IH. apply perm_swap.
Qed.

Lemma sort_Permutation l : Js.sort l ≡ₚ l.
Proof.
  unfold Js.sort. induction l as [|x l IH]; simpl; [reflexivity|].
  now rewrite insertSorted_Permutation, IH.
Qed.

Lemma insertSorted_sorted x l : sortedLabels l -> sortedLabels (Js.insertSorted x l).
Proof.
  unfold sortedLabels. induction l as [|y l IH]; intros Hs; simpl.
  - repeat constructor.
  - destruct (String.leb x y) eqn:E.
    + constructor; [exact Hs|]. now constructor.
    + apply Sorted_inv in Hs as [Hs Hd]. constructor; [now apply IH|].
      assert (Hyx : String.leb y x = true).
      { destruct (String.leb_total x y) as [H|H]; [congruence|exact H]. }
      destruct l as [|z l]; simpl; [now constructor|].
      destruct (String.leb x z); constructor; [exact Hyx|].
      now inversion Hd.
Qed.

Lemma sort_sorted l : sortedLabels (Js.sort l).
Proof.
  unfold Js.sort. induction l as [|x l IH]; simpl; [constructor|].
  now apply insertSorted_sorted.
Qed.

Lemma NoDup_fmap_List_filter {A B} (f : A -> B) (p : A -> bool) (l : list A) :
  NoDup (f <$> l) -> NoDup (f <$> List.filter p l).
Proof.
  induction l as [|x l IH]; simpl; [auto|].
  intros H. apply NoDup_cons in H as [Hx Hl].
  destruct (p x); simpl; [|auto].
  apply NoDup_cons. split; [|auto].
  intros Hin. apply Hx. apply list_elem_of_fmap in Hin as (y & -> & Hy).
  apply list_elem_of_fmap. exists y. split; [reflexivity|].
  apply elem_of_List_filter in Hy. tauto.
Qed.

Lemma normalized_lower a : Js.toLowerCase (normalized a) = normalized a.
Proof. apply toLowerCase_idempotent. Qed.

Lemma recentAfter_distinct a recentLabels :
  distinctLabels recentLabels -> distinctLabels (recentAfter a recentLabels).
Proof.
  unfold distinctLabels, recentAfter. intros H.
  eapply sublist_NoDup; [|apply fmap_sublist, sublist_take].
  rewrite fmap_cons, normalized_lower. apply NoDup_cons. split.
  - intros Hin. apply list_elem_of_fmap in Hin as (y & Hy & Hin).
    apply elem_of_List_filter in Hin as [_ Hp].
    apply negb_true_iff, String.eqb_neq in Hp. congruence.
  - now apply NoDup_fmap_List_filter.
Qed.

Lemma existsb_false_forall {A} (p : A -> bool) (l : list A) :
  existsb p l = false <-> forall x, x ∈ l -> p x = false.
Proof.
  induction l as [|y l IH]; simpl.
  - split; [intros _ x Hx; inversion Hx|reflexivity].
  - rewrite orb_false_iff, IH. split.
    + intros [Hy Hl] x Hx. apply elem_of_cons in Hx as [->|Hx]; auto.
    + intros H. split; [apply H; now left|]. intros x Hx. apply H. now right.
Qed.

Lemma allAfter_distinct a allLabels :
  distinctLabels allLabels -> distinctLabels (allAfter a allLabels).
Proof.
  unfold distinctLabels, allAfter. intros H.
  destruct (existsb _ allLabels) eqn:E; [exact H|].
  rewrite sort_Permutation, fmap_app. simpl. rewrite normalized_lower.
  apply NoDup_app. split; [exact H|]. split; [|apply NoDup_singleton].
  intros x Hx Hn. apply list_elem_of_singleton in Hn. subst x.
  apply list_elem_of_fmap in Hx as (y & Hy & Hin).
  pose proof (proj1 (existsb_false_forall _ _) E y Hin) as Hp.
  apply String.eqb_neq in Hp. congruence.
Qed.

Lemma allAfter_sorted a allLabels :
  sortedLabels allLabels -> sortedLabels (allAfter a allLabels).
Proof.
  unfold allAfter. intros H.
  destruct (existsb _ allLabels); [exact H|apply sort_sorted].
Qed.

Section Labels.

Variable env : Env.
Variable inst : string.
Hypothesis Hinst : getCurrentInstanceId env = inr inst.

Lemma addToRecentLabels_lists labelName w recentLabels allLabels :
  allWhite labelName = false ->
  recentLabelsAre env w recentLabels ->
  allLabelsAre env w allLabels ->
  exists w',
    addToRecentLabels env labelName w = (Returned tt, w')
    /\ recentLabelsAre env w' (recentAfter labelName recentLabels)
    /\ allLabelsAre env w' (allAfter labelName allLabels).
Proof.
  intros Hb Hr Ha. pose proof (truthy_trim_of_not_blank labelName Hb) as Ht.
  unfold recentLabelsAre, allLabelsAre in *.
  rewrite (getInstanceData_resolved env inst _ _ _ Hinst) in Hr. injection Hr as Hr.
  rewrite (getInstanceData_resolved env inst _ _ _ Hinst) in Ha. injection Ha as Ha.
  rewrite (addToRecentLabels_run env inst Hinst labelName w recentLabels allLabels Ht Hr Ha).
  eexists. split; [reflexivity|].
  destruct (keys_distinct inst) as (_ & _ & _ & _ & Hra & _).
  rewrite !(getInstanceData_resolved env inst _ _ _ Hinst). simpl storage.
  fold (recentKey inst) (allKey inst).
  rewrite lookup_insert_ne, !lookup_insert_eq by congruence. now split.
Qed.

End Labels.

(** Recording a label puts it, trimmed and in lower case, at the head of the
    recent list, which never holds more than 20 labels and never two labels
    equal up to case once it holds none.  Every label of the new list is the
    label recorded or was in the list before, and while the list holds fewer
    than 20 labels none is lost. *)
Theorem recent_labels_most_recent_first
    (env : Env) (inst : string) (labelName : string) (w : World)
    (recentLabels allLabels : list string) :
  getCurrentInstanceId env = inr inst ->
  allWhite labelName = false ->
  recentLabelsAre env w recentLabels ->
  allLabelsAre env w allLabels ->
  exists w' recentLabels',
    addToRecentLabels env labelName w = (Returned tt, w')
    /\ recentLabelsAre env w' recentLabels'
    /\ head recentLabels' = Some (normalized labelName)
    /\ length recentLabels' <= 20
    /\ (distinctLabels recentLabels -> distinctLabels recentLabels')
    /\ (forall x, x ∈ recentLabels' -> x = normalized labelName \/ x ∈ recentLabels)
    /\ (length recentLabels < 20 ->
        forall x, x ∈ recentLabels -> Js.toLowerCase x <> normalized labelName ->
                  x ∈ recentLabels').
Proof.
  intros Hinst Hb Hr Ha.
  destruct (addToRecentLabels_lists env inst Hinst labelName w recentLabels allLabels Hb Hr Ha)
    as (w' & Erun & Hr' & _).
  exists w', (recentAfter labelName recentLabels).
  split; [exact Erun|]. split; [exact Hr'|]. split; [reflexivity|].
  split; [unfold recentAfter; rewrite length_take; lia|].
  split; [apply recentAfter_distinct|]. split.
  - intros x Hx. unfold recentAfter in Hx.
    apply (fun H => elem_of_sublist _ _ _ H (sublist_take _ _)) in Hx.
    apply elem_of_cons in Hx as [->|Hx]; [now left|].
    apply elem_of_List_filter in Hx. tauto.
  - intros Hlen x Hx Hne. unfold recentAfter.
    rewrite take_ge.
    + right. apply elem_of_List_filter. split; [exact Hx|].
      now apply negb_true_iff, String.eqb_neq.
    + simpl. pose proof (length_List_filter
                           (fun label => negb (Js.toLowerCase label =? normalized labelName)%string)
                           recentLabels). lia.
Qed.

Lemma recent_labels_most_recent_first_witness :
  let w := withStorage {[ "recentLabels_https___demo_photoprism_app" := VLabels ["dog"; "cat"] ]}
             emptyWorld in
  getCurrentInstanceId catEnv = inr demoInstance
  /\ allWhite " Cat " = false
  /\ recentLabelsAre catEnv w ["dog"; "cat"]
  /\ allLabelsAre catEnv w []
  /\ exists w',
       addToRecentLabels catEnv " Cat " w = (Returned tt, w')
       /\ recentLabelsAre catEnv w' ["cat"; "dog"].
Proof.
  intros w.
  split; [reflexivity|]. split; [reflexivity|]. split; [reflexivity|]. split; [reflexivity|].
  destruct (recent_labels_most_recent_first catEnv demoInstance " Cat " w ["dog"; "cat"] []
              eq_refl eq_refl eq_refl eq_refl) as (w' & l' & Hrun & _).
  exists w'. split; [exact Hrun|].
  replace w' with (snd (addToRecentLabels catEnv " Cat " w)) by (now rewrite Hrun).
  vm_compute. reflexivity.
Defined.

(** The list of all labels gains the label recorded, trimmed and in lower
    case, unless it holds it already up to case, in which case it is left as
    it is.  When it gains the label it is sorted anew, so that it is in
    ascending order afterwards whatever it was before; a list in ascending
    order stays so, and so does a list whose labels are distinct up to case. *)
Theorem all_labels_sorted_and_distinct
    (env : Env) (inst : string) (labelName : string) (w : World)
    (recentLabels allLabels : list string) :
  getCurrentInstanceId env = inr inst ->
  allWhite labelName = false ->
  recentLabelsAre env w recentLabels ->
  allLabelsAre env w allLabels ->
  exists w' allLabels',
    addToRecentLabels env labelName w = (Returned tt, w')
    /\ allLabelsAre env w' allLabels'
    /\ ((exists x, x ∈ allLabels /\ Js.toLowerCase x = normalized labelName) ->
        allLabels' = allLabels)
    /\ ((forall x, x ∈ allLabels -> Js.toLowerCase x <> normalized labelName) ->
        allLabels' ≡ₚ normalized labelName :: allLabels /\ sortedLabels allLabels')
    /\ (sortedLabels allLabels -> sortedLabels allLabels')
    /\ (distinctLabels allLabels -> distinctLabels allLabels').
Proof.
  intros Hinst Hb Hr Ha.
  destruct (addToRecentLabels_lists env inst Hinst labelName w recentLabels allLabels Hb Hr Ha)
    as (w' & Erun & _ & Ha').
  exists w', (allAfter labelName allLabels).
  split; [exact Erun|]. split; [exact Ha'|]. split; [|split; [|split]].
  - intros (x & Hx & Hl). unfold allAfter.
    destruct (existsb _ allLabels) eqn:E; [reflexivity|].
    pose proof (proj1 (existsb_false_forall _ _) E x Hx) as Hp.
    apply String.eqb_neq in Hp. congruence.
  - intros Hnone. unfold allAfter.
    destruct (existsb _ allLabels) eqn:E.
    + apply existsb_exists in E as (x & Hx & Hp).
      apply String.eqb_eq in Hp. apply list_elem_of_In in Hx. now destruct (Hnone x Hx).
    + split; [|apply sort_sorted].
      rewrite sort_Permutation. symmetry. apply Permutation_cons_append.
  - apply allAfter_sorted.
  - apply allAfter_distinct.
Qed.

Lemma all_labels_sorted_and_distinct_witness :
  let w := withStorage {[ "allLabels_https___demo_photoprism_app" := VLabels ["cat"; "dog"] ]}
             emptyWorld in
  getCurrentInstanceId catEnv = inr demoInstance
  /\ allWhite "Bird" = false
  /\ recentLabelsAre catEnv w []
  /\ allLabelsAre catEnv w ["cat"; "dog"]
  /\ exists w',
       addToRecentLabels catEnv "Bird" w = (Returned tt, w')
       /\ allLabelsAre catEnv w' ["bird"; "cat"; "dog"].
Proof.
  intros w.
  split; [reflexivity|]. split; [reflexivity|]. split; [reflexivity|]. split; [reflexivity|].
  destruct (all_labels_sorted_and_distinct catEnv demoInstance "Bird" w [] ["cat"; "dog"]
              eq_refl eq_refl eq_refl eq_refl) as (w' & l' & Hrun & _).
  exists w'. split; [exact Hrun|].
  replace w' with (snd (addToRecentLabels catEnv "Bird" w)) by (now rewrite Hrun).
  vm_compute. reflexivity.
Defined.

(** ** Clearing the caches from the popup *)

Section Clear.

Variable env : Env.
Variable inst : string.
Hypothesis Hinst : getCurrentInstanceId env = inr inst.

Lemma clearLabelCache_run input w :
  clearLabelCache env (input, w)
  = (Returned tt,
     (EmptyString,
      withStatus ("All caches cleared.", false)
        (withStorage
           (delete (cacheKey inst)
              (delete (recentKey inst)
                 (delete (allKey inst)
                    (delete (historyKey inst)
                       (delete (failedKey inst) (storage w))))))
           w))).
Proof.
  unfold clearLabelCache.
  assert (E : forall w0, awaitCurrentInstanceId env w0 = (Returned inst, w0)).
  { intros w0. unfold awaitCurrentInstanceId. now rewrite Hinst. }
  rewrite !bind_liftW, !E. rewrite bind_liftW, E. rewrite bind_liftW, E.
  rewrite bind_liftW, E. rewrite bind_liftW, E.
  rewrite bind_liftW. unfold storageRemove, modify. rewrite bind_setLocal.
  reflexivity.
Qed.

End Clear.

(** [clearLabelCache] removes the five entries of the instance of the active
    tab, and those only: each of them is read back as its default afterwards,
    every other entry of the store is as before, the label input is emptied
    and the status line says so.  When the instance cannot be determined it
    fails and changes nothing. *)
Theorem clearLabelCache_clears_the_active_instance
    (env : Env) (input : string) (w : World) :
  match getCurrentInstanceId env with
  | inr inst =>
      exists w',
        clearLabelCache env (input, w) = (Returned tt, (EmptyString, w'))
        /\ labelCacheIs env w' ∅
        /\ recentLabelsAre env w' []
        /\ allLabelsAre env w' []
        /\ historyIs env w' []
        /\ failureGroupsAre env w' []
        /\ (forall k, k ∉ [cacheKey inst; recentKey inst; allKey inst; historyKey inst;
                          failedKey inst] ->
                      storage w' !! k = storage w !! k)
        /\ status w' = ("All caches cleared.", false)
        /\ requests w' = requests w
  | inl e => clearLabelCache env (input, w) = (Thrown e, (input, w))
  end.
Proof.
  destruct (getCurrentInstanceId env) as [e|inst] eqn:Hinst.
  - unfold clearLabelCache. rewrite bind_liftW. unfold awaitCurrentInstanceId.
    now rewrite Hinst.
  - eexists. split; [apply (clearLabelCache_run env inst Hinst)|].
    destruct (keys_distinct inst) as (Hcr & Hca & Hch & Hcf & Hra & Hrh & Hrf & Hah & Haf & Hhf).
    unfold labelCacheIs, recentLabelsAre, allLabelsAre, historyIs, failureGroupsAre.
    rewrite !(getInstanceData_resolved env inst _ _ _ Hinst). simpl storage.
    fold (cacheKey inst) (recentKey inst) (allKey inst) (historyKey inst) (failedKey inst).
    repeat split.
    + now rewrite lookup_delete_eq.
    + now rewrite lookup_delete_ne, lookup_delete_eq by congruence.
    + now rewrite !lookup_delete_ne, lookup_delete_eq by congruence.
    + rewrite (lookup_delete_ne _ (cacheKey inst)), (lookup_delete_ne _ (recentKey inst)),
        (lookup_delete_ne _ (allKey inst)), lookup_delete_eq by congruence. reflexivity.
    + rewrite (lookup_delete_ne _ (cacheKey inst)), (lookup_delete_ne _ (recentKey inst)),
        (lookup_delete_ne _ (allKey inst)), (lookup_delete_ne _ (historyKey inst)),
        lookup_delete_eq by congruence. reflexivity.
    + intros k Hk. rewrite !not_elem_of_cons in Hk.
      destruct Hk as (H1 & H2 & H3 & H4 & H5 & _).
      now rewrite !lookup_delete_ne by congruence.
Qed.

(** ** The label the popup proposes *)

Lemma loadRecentLabels_run env old w recentLabels allLabels :
  recentLabelsAre env w recentLabels ->
  allLabelsAre env w allLabels ->
  loadRecentLabels env (old, w) = (Returned tt, (default old (head recentLabels), w)).
Proof.
  intros Hr Ha. unfold loadRecentLabels.
  rewrite bind_liftW, Hr. rewrite bind_liftW, Ha.
  now destruct recentLabels.
Qed.

(** A popup opened after an action whose batch returned proposes the label
    of that action, trimmed and in lower case: [loadRecentLabels] writes it
    into the label input, whatever the input held.  A popup opened on a store
    with no recent label leaves the input as it is. *)
Theorem reopened_popup_proposes_the_last_label
    (env : Env) (inst : string) (input : string) (action : Action) (w : World)
    (data : PageData) (firstUid : string) (rest : list string) (res : BatchResult) :
  getCurrentInstanceId env = inr inst ->
  storeShaped env w ->
  allWhite input = false ->
  pageData env = inr data ->
  pd_uids data = firstUid :: rest ->
  fst (runBatch env action (Js.trim input) (pd_uids data) firstUid (pd_token data) w)
  = Returned res ->
  (exists w',
     handleAction env input action w = (Returned tt, w')
     /\ forall old,
          loadRecentLabels env (old, w')
          = (Returned tt, (Js.toLowerCase (Js.trim input), w')))
  /\ (recentLabelsAre env w [] ->
      forall old, loadRecentLabels env (old, w) = (Returned tt, (old, w))).
Proof.
  intros Hinst Hs Hb Hpage Hu Hres.
  pose proof (truthy_trim_of_not_blank input Hb) as Ht.
  split.
  2: { intros Hr old. destruct Hs as (_ & _ & [a Ha] & _).
       now rewrite (loadRecentLabels_run env old w [] a Hr Ha). }
  apply (storeShaped_resolved env inst Hinst) in Hs.
  pose proof (runBatch_shaped env inst Hinst action (Js.trim input) (pd_uids data) firstUid
                (pd_token data) (handleProcessing (length (pd_uids data)) w) Hs) as Hs3.
  pose proof (runBatch_from_start env action (Js.trim input) (pd_uids data) firstUid
                (pd_token data) (length (pd_uids data)) w) as Hfst.
  destruct (runBatch env action (Js.trim input) (pd_uids data) firstUid (pd_token data)
              (handleProcessing (length (pd_uids data)) w)) as [o w3] eqn:E3.
  cbn [fst snd] in Hs3, Hfst. rewrite Hres in Hfst. subst o.
  pose proof Hs3 as (_ & [r Hr] & [a Ha] & [h3 Hh3] & [l3 Hl3]).
  destruct (handleAction_returned_world env inst Hinst input action w data firstUid rest
              res w3 h3 l3 r a Ht Hpage Hu E3 Hh3 Hl3 Hr Ha)
    as (w' & Erun & Hst & _).
  exists w'. split; [exact Erun|]. intros old.
  destruct (keys_distinct inst) as (_ & _ & _ & _ & Hra & _).
  rewrite (loadRecentLabels_run env old w' (recentAfter (Js.trim input) r)
             (allAfter (Js.trim input) a)).
  - unfold recentAfter, normalized. simpl. now rewrite trim_idempotent.
  - unfold recentLabelsAre. rewrite (getInstanceData_resolved env inst _ _ _ Hinst), Hst.
    fold (recentKey inst). now rewrite lookup_insert_ne, lookup_insert_eq by congruence.
  - unfold allLabelsAre. rewrite (getInstanceData_resolved env inst _ _ _ Hinst), Hst.
    fold (allKey inst). now rewrite lookup_insert_eq.
Qed.

Lemma reopened_popup_proposes_the_last_label_witness :
  getCurrentInstanceId x3FailsEnv = inr demoInstance
  /\ storeShaped x3FailsEnv emptyWorld
  /\ allWhite " Cat" = false
  /\ fst (runBatch x3FailsEnv add "Cat" ["x1"; "x2"; "x3"] "x1" "tok" emptyWorld)
     = Returned (mkBatchResult 2 1 ["x3"])
  /\ exists w',
       handleAction x3FailsEnv " Cat" add emptyWorld = (Returned tt, w')
       /\ loadRecentLabels x3FailsEnv (EmptyString, w') = (Returned tt, ("cat", w')).
Proof.
  assert (Hs : storeShaped x3FailsEnv emptyWorld).
  { repeat split; eexists; reflexivity. }
  assert (Hres : fst (runBatch x3FailsEnv add "Cat" ["x1"; "x2"; "x3"] "x1" "tok" emptyWorld)
                 = Returned (mkBatchResult 2 1 ["x3"])) by (vm_compute; reflexivity).
  split; [reflexivity|]. split; [exact Hs|]. split; [reflexivity|]. split; [exact Hres|].
  destruct (reopened_popup_proposes_the_last_label x3FailsEnv demoInstance " Cat" add
              emptyWorld (mkPageData ["x1"; "x2"; "x3"] "tok") "x1" ["x2"; "x3"]
              (mkBatchResult 2 1 ["x3"]) eq_refl Hs eq_refl eq_refl eq_refl Hres)
    as [(w' & Hrun & Hload) _].
  exists w'. split; [exact Hrun|]. apply Hload.
Defined.

(** ** A label named like a member of [Object.prototype] *)

Lemma inherited_name_as_typed name :
  In name Js.objectPrototype -> Js.trim name = name /\ Js.truthy name = true.
Proof.
  intros H. unfold Js.objectPrototype in H. simpl in H.
  repeat (destruct H as [<-|H]; [split; reflexivity|]). destruct H.
Qed.

(** A "remove" under a name of [Object.prototype] for which the cache has no
    entry never asks the service for the identifier of the label: it issues
    no request for the detail of a photo, and one [DELETE] for each photo
    selected, with the text of the inherited member where the identifier of
    the label belongs. *)
Theorem remove_under_an_inherited_name_asks_for_no_identifier
    (env : Env) (inst : string) (labelName : string) (w : World)
    (cache : gmap string Z) (data : PageData) :
  getCurrentInstanceId env = inr inst ->
  In labelName Js.objectPrototype ->
  labelCacheIs env w cache ->
  cache !! labelName = None ->
  pageData env = inr data ->
  requests (snd (handleAction env labelName remove w))
  = requests w
    ++ map (removeRequest inst (Inherited labelName) (pd_token data)) (pd_uids data).
Proof.
  intros Hinst Hin Hc Hm Hpage.
  destruct (inherited_name_as_typed labelName Hin) as [Htrim Ht].
  unfold labelCacheIs in Hc.
  rewrite (getInstanceData_resolved env inst _ _ _ Hinst) in Hc. injection Hc as Hc.
  rewrite (handleAction_requests env inst Hinst labelName remove w) by now rewrite Htrim.
  unfold handleAttempted. rewrite Hpage, Htrim.
  destruct (pd_uids data) as [|firstUid rest] eqn:Hu; [simpl; now rewrite app_nil_r|].
  pose proof (runBatch_remove env inst Hinst labelName (firstUid :: rest) firstUid
                (pd_token data) (handleProcessing (length (firstUid :: rest)) w)) as H.
  rewrite (getLabelId_hit env inst Hinst labelName firstUid (pd_token data)
             (handleProcessing (length (firstUid :: rest)) w) cache (Inherited labelName))
    in H.
  - destruct H as (_ & -> & _). reflexivity.
  - exact Hc.
  - unfold cachedId. rewrite Hm. apply inherited_In in Hin. now rewrite Hin.
Qed.

Lemma remove_under_an_inherited_name_asks_for_no_identifier_witness :
  getCurrentInstanceId catEnv = inr demoInstance
  /\ In "constructor" Js.objectPrototype
  /\ labelCacheIs catEnv emptyWorld ∅
  /\ requests (snd (handleAction catEnv "constructor" remove emptyWorld))
     = [mkRequest DELETE
          "https://demo.photoprism.app/api/v1/photos/x1/label/function Object() { [native code] }"
          "tok" None].
Proof.
  split; [reflexivity|]. split; [now left|]. split; [reflexivity|].
  apply (remove_under_an_inherited_name_asks_for_no_identifier catEnv demoInstance
           "constructor" emptyWorld ∅ (mkPageData ["x1"] "tok") eq_refl);
    [now left|reflexivity|reflexivity|reflexivity].
Defined.

(** ** The content script *)

Section ContentScript.

Variable page : PageEnv.

Lemma some_no_throw {A} (p : A -> bool) (l : list A) :
  Content.some (fun x => Some (p x)) l = Some (existsb p l).
Proof.
  induction l as [|x l IH]; simpl; [reflexivity|].
  destruct (p x); [reflexivity|exact IH].
Qed.

Lemma some_ext {A} (f g : A -> option bool) (l : list A) :
  (forall x, x ∈ l -> f x = g x) -> Content.some f l = Content.some g l.
Proof.
  induction l as [|x l IH]; intros H; simpl; [reflexivity|].
  rewrite (H x) by now left.
  destruct (g x) as [[]|]; try reflexivity.
  apply IH. intros y Hy. apply H. now right.
Qed.

Lemma some_true {A} (f : A -> option bool) (l : list A) :
  Content.some f l = Some true
  <-> exists i x, l !! i = Some x /\ f x = Some true
                  /\ forall j y, j < i -> l !! j = Some y -> f y = Some false.
Proof.
  induction l as [|x l IH]; simpl.
  - split; [discriminate|]. intros (i & y & H & _). discriminate.
  - destruct (f x) as [[]|] eqn:E.
    + split; [|reflexivity]. intros _. exists 0, x. repeat split; auto.
      intros j y Hj. lia.
    + rewrite IH. split.
      * intros (i & y & Hi & Hy & Hbefore). exists (S i), y. repeat split; auto.
        intros [|j] z Hj Hz; [simpl in Hz; congruence|].
        apply (Hbefore j z); [lia|exact Hz].
      * intros ([|i] & y & Hi & Hy & Hbefore); [simpl in Hi; congruence|].
        exists i, y. repeat split; auto.
        intros j z Hj Hz. apply (Hbefore (S j) z); [lia|exact Hz].
    + split; [discriminate|].
      intros ([|i] & y & Hi & Hy & Hbefore); [simpl in Hi; congruence|].
      specialize (Hbefore 0 x ltac:(lia) eq_refl). congruence.
Qed.

Lemma isUrlAllowed_some url domains :
  Content.isUrlAllowed page url (Some domains) = true
  <-> exists urlObj,
        newURL page url = Some urlObj
        /\ Content.some
             (Content.domainAllows page (url_protocol urlObj +:+ "//" +:+ url_host urlObj))
             domains = Some true.
Proof.
  unfold Content.isUrlAllowed.
  destruct domains as [|d domains].
  - split; [discriminate|]. intros (u & _ & H). simpl in H. discriminate.
  - destruct (newURL page url) as [u|].
    + split.
      * intros H. exists u. split; [reflexivity|].
        destruct (Content.some _ _) as [[]|]; simpl in H; congruence.
      * intros (u' & [= <-] & ->). reflexivity.
    + split; [discriminate|]. intros (u & H & _). discriminate.
Qed.

End ContentScript.

(** A page is allowed when its address can be parsed and the first domain of
    the list that does not say no says yes: a domain says yes when it is the
    origin of the page, protocol and host, or holds a star and matches as a
    pattern, and it says no otherwise, unless it holds a star and cannot be
    built into a pattern.  In particular, with no star in the list a page is
    allowed exactly when its origin is in the list; and no page is allowed by
    a list that is absent or empty. *)
Theorem isUrlAllowed_first_domain_that_answers
    (page : PageEnv) (url : string) (domains : list string) :
  (Content.isUrlAllowed page url (Some domains) = true
   <-> exists urlObj i domain,
         newURL page url = Some urlObj
         /\ domains !! i = Some domain
         /\ Content.domainAllows page
              (url_protocol urlObj +:+ "//" +:+ url_host urlObj) domain = Some true
         /\ forall j domain', j < i -> domains !! j = Some domain' ->
              Content.domainAllows page
                (url_protocol urlObj +:+ "//" +:+ url_host urlObj) domain' = Some false)
  /\ ((forall domain, domain ∈ domains -> Content.includesStar domain = false) ->
      (Content.isUrlAllowed page url (Some domains) = true
       <-> exists urlObj,
             newURL page url = Some urlObj
             /\ (url_protocol urlObj +:+ "//" +:+ url_host urlObj) ∈ domains))
  /\ Content.isUrlAllowed page url None = false
  /\ Content.isUrlAllowed page url (Some []) = false.
Proof.
  split; [|split; [|split; reflexivity]].
  - rewrite isUrlAllowed_some. split.
    + intros (u & Hu & Hs). apply some_true in Hs as (i & d & Hi & Hd & Hb).
      exists u, i, d. auto.
    + intros (u & i & d & Hu & Hi & Hd & Hb). exists u. split; [exact Hu|].
      apply some_true. exists i, d. auto.
  - intros Hstar. rewrite isUrlAllowed_some. split.
    + intros (u & Hu & Hs). exists u. split; [exact Hu|].
      rewrite (some_ext _ (fun d => Some (d =? url_protocol u +:+ "//" +:+ url_host u)%string))
        in Hs.
      * rewrite some_no_throw in Hs. injection Hs as Hs.
        apply existsb_exists in Hs as (d & Hd & He).
        apply String.eqb_eq in He. subst d. now apply list_elem_of_In.
      * intros d Hd. unfold Content.domainAllows. rewrite (Hstar d Hd).
        now destruct (d =? _)%string.
    + intros (u & Hu & Hin). exists u. split; [exact Hu|].
      rewrite (some_ext _ (fun d => Some (d =? url_protocol u +:+ "//" +:+ url_host u)%string)).
      * rewrite some_no_throw. f_equal. apply existsb_exists.
        exists (url_protocol u +:+ "//" +:+ url_host u).
        split; [now apply list_elem_of_In|apply String.eqb_refl].
      * intros d Hd. unfold Content.domainAllows. rewrite (Hstar d Hd).
        now destruct (d =? _)%string.
Qed.

(** A domain with a star that cannot be built into a pattern hides every
    domain listed after it: a page that none of the domains before it allows
    is not allowed, even if its own origin comes later in the list. *)
Theorem pattern_that_cannot_be_built_hides_later_domains
    (page : PageEnv) (url : string) (urlObj : Url)
    (before : list string) (bad : string) (after : list string) :
  newURL page url = Some urlObj ->
  (forall domain, domain ∈ before ->
     Content.domainAllows page (url_protocol urlObj +:+ "//" +:+ url_host urlObj) domain
     = Some false) ->
  Content.domainAllows page (url_protocol urlObj +:+ "//" +:+ url_host urlObj) bad = None ->
  Content.isUrlAllowed page url (Some (before ++ bad :: after)) = false.
Proof.
  intros Hu Hbefore Hbad.
  destruct (Content.isUrlAllowed page url (Some (before ++ bad :: after))) eqn:E;
    [|reflexivity].
  apply isUrlAllowed_some in E as (u & Hu' & Hs).
  rewrite Hu in Hu'. injection Hu' as <-.
  apply some_true in Hs as (i & d & Hi & Hd & Hb).
  destruct (Nat.lt_trichotomy i (length before)) as [Hlt|[->|Hgt]].
  - rewrite lookup_app_l in Hi by exact Hlt.
    rewrite (Hbefore d) in Hd; [discriminate|].
    eapply list_elem_of_lookup_2; eauto.
  - rewrite list_lookup_middle in Hi by reflexivity. injection Hi as <-. congruence.
  - specialize (Hb (length before) bad Hgt).
    rewrite list_lookup_middle in Hb by reflexivity.
    specialize (Hb eq_refl). congruence.
Qed.

Lemma pattern_that_cannot_be_built_hides_later_domains_witness :
  newURL demoPage "https://demo.photoprism.app/library/browse"
  = Some (mkUrl "https:" "demo.photoprism.app")
  /\ Content.domainAllows demoPage "https://demo.photoprism.app" "https://*(.example.com" = None
  /\ Content.isUrlAllowed demoPage "https://demo.photoprism.app/library/browse"
       (Some ["https://*(.example.com"; "https://demo.photoprism.app"]) = false
  /\ Content.isUrlAllowed demoPage "https://demo.photoprism.app/library/browse"
       (Some ["https://demo.photoprism.app"; "https://*(.example.com"]) = true.
Proof.
  split; [reflexivity|]. split; [reflexivity|]. split; [|reflexivity].
  apply (pattern_that_cannot_be_built_hides_later_domains demoPage
           "https://demo.photoprism.app/library/browse" (mkUrl "https:" "demo.photoprism.app")
           [] "https://*(.example.com" ["https://demo.photoprism.app"] eq_refl).
  - intros d Hd. inversion Hd.
  - reflexivity.
Defined.

(** ** From the content script to the popup *)

(** When the content script answers, the promise of [getPhotoPrismData]
    settles.  It is resolved, with the identifiers parsed from the clipboard
    and the token of the session, exactly when the plugin is enabled for the
    page, the clipboard and the token can be read, and the token is not
    empty.  When the plugin is disabled for the page, and when no token is
    stored, it is rejected with the sentence of the content script, word for
    word; when local storage cannot be read it is rejected with a message
    that ends with the error of the page. *)
Theorem popup_settles_on_the_answer_of_the_content_script
    (page : PageEnv) (pluginConfig : option Config) :
  let outcome :=
    onPhotoPrismDataResponse None (Some (Content.handleGetPhotoPrismData page pluginConfig)) in
  outcome <> Pending
  /\ (forall data,
        outcome = Returned data
        <-> Content.isPluginEnabled page pluginConfig = true
            /\ Content.readLocalStorage page = inr (pd_uids data, Some (pd_token data))
            /\ Js.truthy (pd_token data) = true)
  /\ (Content.isPluginEnabled page pluginConfig = false ->
      outcome = Thrown "Plugin is disabled for this page")
  /\ (forall uids token,
        Content.isPluginEnabled page pluginConfig = true ->
        Content.readLocalStorage page = inr (uids, token) ->
        token = None \/ token = Some EmptyString ->
        outcome = Thrown "Authentication token not found. Please log in to PhotoPrism.")
  /\ (forall e,
        Content.isPluginEnabled page pluginConfig = true ->
        Content.readLocalStorage page = inl e ->
        exists details, outcome = Thrown (details +:+ e)).
Proof.
  cbv zeta. unfold Content.handleGetPhotoPrismData.
  destruct (Content.isPluginEnabled page pluginConfig) eqn:He; cbn [negb].
  2: { split; [discriminate|]. split; [|split; [reflexivity|split; discriminate]].
       intros data. split; [discriminate|]. intros (H & _). discriminate. }
  destruct (Content.readLocalStorage page) as [e|[uids [token|]]] eqn:Er.
  - (* local storage cannot be read *)
    assert (Hout : exists details,
              onPhotoPrismDataResponse None
                (Some (ReplyError ("Failed to read data from localStorage. Error: " +:+ e)))
              = Thrown (details +:+ e)).
    { unfold onPhotoPrismDataResponse.
      assert (Ht : Js.truthy ("Failed to read data from localStorage. Error: " +:+ e) = true)
        by reflexivity.
      rewrite Ht.
      match goal with |- context [if ?c then _ else _] => destruct c end.
      - exists ("Authorization error. Please check:" +:+ nl +:+ nl +:+
                "1. You're logged into PhotoPrism" +:+ nl +:+
                "2. Your session hasn't expired" +:+ nl +:+
                "3. The extension has permission for this site" +:+ nl +:+
                "4. This PhotoPrism instance is added to extension settings" +:+ nl +:+ nl +:+
                "Details: " +:+ "Failed to read data from localStorage. Error: ").
        reflexivity.
      - exists "Failed to read data from localStorage. Error: ". reflexivity. }
    destruct Hout as (details & Hout). rewrite Hout.
    split; [discriminate|]. split; [|split; [discriminate|split; [discriminate|]]].
    + intros data. split; [discriminate|]. intros (_ & H & _). discriminate.
    + intros e' _ [= <-]. now exists details.
  - destruct (Js.truthy token) eqn:Ht.
    + (* the data *)
      split; [discriminate|]. split; [|split; [discriminate|split]].
      * intros [uids' token']. simpl. split.
        -- intros [= <- <-]. auto.
        -- intros (_ & [= <- <-] & _). reflexivity.
      * intros uids' token' _ Heq [H|H]; subst token'; [discriminate|].
        injection Heq as _ Htok. subst token. discriminate.
      * discriminate.
    + (* an empty token *)
      assert (Hout : onPhotoPrismDataResponse None
                       (Some (ReplyError
                                "Authentication token not found. Please log in to PhotoPrism."))
                     = Thrown "Authentication token not found. Please log in to PhotoPrism.")
        by (vm_compute; reflexivity).
      rewrite Hout.
      split; [discriminate|]. split; [|split; [discriminate|split; [reflexivity|discriminate]]].
      intros data. split; [discriminate|]. intros (_ & Heq & H).
      injection Heq as _ Htok. rewrite <- Htok in H. congruence.
  - (* no token *)
    assert (Hout : onPhotoPrismDataResponse None
                     (Some (ReplyError
                              "Authentication token not found. Please log in to PhotoPrism."))
                   = Thrown "Authentication token not found. Please log in to PhotoPrism.")
      by (vm_compute; reflexivity).
    rewrite Hout.
    split; [discriminate|]. split; [|split; [discriminate|split; [reflexivity|discriminate]]].
    intros data. split; [discriminate|]. intros (_ & H & _). discriminate.
Qed.

(** [getPhotoPrismData] leaves its promise unsettled in one case only: when
    no error is reported and no response has come.  With an error reported
    it rejects with a message that opens with "Could not communicate with
    PhotoPrism page. " and closes with the error, whatever the response; with
    none it resolves exactly on a response that carries data. *)
Theorem getPhotoPrismData_settles_unless_no_response
    (lastError : option (option string)) (response : option Reply) :
  (onPhotoPrismDataResponse lastError response = Pending
   <-> lastError = None /\ response = None)
  /\ (forall message,
        lastError = Some message ->
        exists hint,
          onPhotoPrismDataResponse lastError response
          = Thrown ("Could not communicate with PhotoPrism page. " +:+ hint
                    +:+ match message with
                        | Some m => if Js.truthy m then m else "Unknown error"
                        | None => "Unknown error"
                        end))
  /\ (forall data,
        onPhotoPrismDataResponse lastError response = Returned data
        <-> lastError = None
            /\ response = Some (ReplyData (pd_uids data) (pd_token data))).
Proof.
  split; [|split].
  - unfold onPhotoPrismDataResponse.
    destruct lastError as [message|]; [split; [discriminate|intros [? _]; discriminate]|].
    destruct response as [[uids token|error]|].
    + split; [discriminate|intros [_ ?]; discriminate].
    + split; [|intros [_ ?]; discriminate].
      destruct (includes "not authorized" _ || includes "permission" _); discriminate.
    + split; auto.
  - intros message ->. unfold onPhotoPrismDataResponse.
    set (errorMessage := match message with
                         | Some m => if Js.truthy m then m else "Unknown error"
                         | None => "Unknown error"
                         end).
    destruct (includes "Receiving end does not exist" errorMessage);
      [|destruct (includes "Could not establish connection" errorMessage)].
    + exists ("This usually means:" +:+ nl +:+ nl +:+
              "1. You're not on a PhotoPrism page - please navigate to your PhotoPrism instance" +:+ nl +:+
              "2. This PhotoPrism instance hasn't been added to the extension - please:" +:+ nl +:+
              "   • Click the settings button below" +:+ nl +:+
              "   • Add your PhotoPrism URL to the allowed instances" +:+ nl +:+
              "   • Refresh the PhotoPrism page and try again" +:+ nl +:+ nl +:+
              "Error: ").
      reflexivity.
    + exists ("This might be a permission issue. Please:" +:+ nl +:+ nl +:+
              "1. Ensure you're on a PhotoPrism page" +:+ nl +:+
              "2. Check if the extension has permission for this site" +:+ nl +:+
              "3. Add this URL to allowed instances in settings" +:+ nl +:+
              "4. Refresh the page and try again" +:+ nl +:+ nl +:+
              "Error: ").
      reflexivity.
    + exists "Please ensure you are on a PhotoPrism page and refresh if needed. Error: ".
      reflexivity.
  - intros [uids token]. unfold onPhotoPrismDataResponse. simpl.
    destruct lastError as [message|]; [split; [discriminate|intros [? _]; discriminate]|].
    destruct response as [[uids' token'|error]|].
    + split; [intros [= -> ->]; auto|intros [_ [= -> ->]]; reflexivity].
    + split; [|intros [_ ?]; discriminate].
      destruct (includes "not authorized" _ || includes "permission" _); discriminate.
    + split; [discriminate|intros [_ ?]; discriminate].
Qed.

(** The demo page answers with its two photos and its token; once the
    session has ended it answers that no token was found; and a page that the
    configuration does not list answers that the plugin is disabled. *)
Example content_script_on_the_demo_page :
  Content.handleGetPhotoPrismData demoPage None = ReplyData ["x1"; "x2"] "tok"
  /\ Content.handleGetPhotoPrismData loggedOutPage None
     = ReplyError "Authentication token not found. Please log in to PhotoPrism."
  /\ Content.handleGetPhotoPrismData demoPage
       (Some (mkConfig (Some ["https://photos.example.com"]) None None))
     = ReplyError "Plugin is disabled for this page".
Proof. repeat split. Qed.

(** ** The configuration page *)

Section ConfigProperties.

Variable newURL : string -> option Url.

Lemma domainsInclude_true domains d :
  ConfigPage.domainsInclude domains d = true <-> d ∈ domains.
Proof.
  unfold ConfigPage.domainsInclude. rewrite existsb_exists. split.
  - intros (x & Hx & He). apply String.eqb_eq in He. subst. now apply list_elem_of_In.
  - intros H. exists d. split; [now apply list_elem_of_In|apply String.eqb_refl].
Qed.

Lemma domainsInclude_false domains d :
  ConfigPage.domainsInclude domains d = false <-> d ∉ domains.
Proof.
  rewrite <- domainsInclude_true. now destruct (ConfigPage.domainsInclude domains d).
Qed.

Lemma isValidUrl_true url :
  ConfigPage.isValidUrl newURL url = true
  <-> exists urlObj, newURL url = Some urlObj
                     /\ (url_protocol urlObj = "http:" \/ url_protocol urlObj = "https:").
Proof.
  unfold ConfigPage.isValidUrl. destruct (newURL url) as [u|].
  - rewrite orb_true_iff, !String.eqb_eq. split.
    + intros H. now exists u.
    + now intros (u' & [= <-] & H).
  - split; [discriminate|]. now intros (u & H & _).
Qed.

(** The run of [addDomain] on an address that is accepted. *)
Lemma addDomain_accepted s urlObj :
  newURL (Js.trim (ConfigPage.newDomain_value s)) = Some urlObj ->
  Js.truthy (Js.trim (ConfigPage.newDomain_value s)) = true ->
  (url_protocol urlObj = "http:" \/ url_protocol urlObj = "https:") ->
  origin urlObj ∉ domainsOf s ->
  let newConfig :=
    ConfigPage.withAllowedDomains (domainsOf s ++ [origin urlObj]) (ConfigPage.currentConfig s) in
  exists s',
    ConfigPage.addDomain newURL s = (Returned tt, s')
    /\ ConfigPage.pluginConfig s' = Some newConfig
    /\ ConfigPage.domain_rows s' = domainsOf s ++ [origin urlObj]
    /\ ConfigPage.newDomain_value s' = EmptyString
    /\ ConfigPage.validation_shown s' = false
    /\ ConfigPage.status_line s' = Some ("Instance added successfully", false)
    /\ ConfigPage.sent s' = ConfigPage.sent s ++ [newConfig]
    /\ ConfigPage.debugCheckbox s' = ConfigPage.debugCheckbox s.
Proof.
  intros Hu Ht Hp Hnew newConfig.
  assert (Hv : ConfigPage.isValidUrl newURL (Js.trim (ConfigPage.newDomain_value s)) = true)
    by (apply isValidUrl_true; eauto).
  assert (Hn : ConfigPage.normalizeUrl newURL (Js.trim (ConfigPage.newDomain_value s))
               = origin urlObj)
    by (unfold ConfigPage.normalizeUrl; now rewrite Hu).
  apply domainsInclude_false in Hnew.
  unfold ConfigPage.addDomain, gets. unfold bind at 1. cbv beta iota.
  rewrite Ht, Hv. cbn [negb]. rewrite Hn.
  unfold bind at 1. cbv beta iota. unfold bind at 1. cbv beta iota.
  fold (domainsOf s). rewrite Hnew.
  subst newConfig. unfold domainsOf, ConfigPage.currentConfig in *.
  destruct (ConfigPage.pluginConfig s) as [c|] eqn:Es; simpl.
  - eexists. split; [reflexivity|]. simpl. repeat split.
  - destruct (allowedDomains (ConfigPage.DEFAULT_CONFIG s)) eqn:Ea; simpl;
      (eexists; split; [reflexivity|]); simpl; rewrite ?Ea; repeat split.
Qed.

(** The run of [addDomain] on an address that is refused. *)
Lemma addDomain_refused s :
  Js.truthy (Js.trim (ConfigPage.newDomain_value s)) = false
  \/ ConfigPage.isValidUrl newURL (Js.trim (ConfigPage.newDomain_value s)) = false
  \/ ConfigPage.normalizeUrl newURL (Js.trim (ConfigPage.newDomain_value s)) ∈ domainsOf s ->
  exists message,
    ConfigPage.addDomain newURL s = (Returned tt, ConfigPage.withValidation message true s).
Proof.
  intros H. unfold ConfigPage.addDomain, gets. unfold bind at 1. cbv beta iota.
  destruct (Js.truthy (Js.trim (ConfigPage.newDomain_value s))) eqn:Ht; cbn [negb];
    [|eexists; reflexivity].
  destruct (ConfigPage.isValidUrl newURL _) eqn:Hv; cbn [negb]; [|eexists; reflexivity].
  destruct H as [H|[H|H]]; try discriminate.
  apply domainsInclude_true in H.
  unfold bind at 1. cbv beta iota. unfold bind at 1. cbv beta iota.
  fold (domainsOf s). rewrite H. eexists; reflexivity.
Qed.

End ConfigProperties.

Lemma addDomain_cases
    (newURL : string -> option Url) (s : ConfigPage.State) :
  let s' := snd (ConfigPage.addDomain newURL s) in
  fst (ConfigPage.addDomain newURL s) = Returned tt
  /\ ((exists message, s' = ConfigPage.withValidation message true s)
      \/ (exists urlObj,
            newURL (Js.trim (ConfigPage.newDomain_value s)) = Some urlObj
            /\ (url_protocol urlObj = "http:" \/ url_protocol urlObj = "https:")
            /\ (origin urlObj ∉ domainsOf s)
            /\ domainsOf s' = domainsOf s ++ [origin urlObj]
            /\ ConfigPage.pluginConfig s'
               = Some (ConfigPage.withAllowedDomains (domainsOf s ++ [origin urlObj])
                         (ConfigPage.currentConfig s))
            /\ ConfigPage.domain_rows s' = domainsOf s'
            /\ ConfigPage.newDomain_value s' = EmptyString
            /\ ConfigPage.sent s'
               = ConfigPage.sent s
                 ++ [ConfigPage.withAllowedDomains (domainsOf s ++ [origin urlObj])
                       (ConfigPage.currentConfig s)]))
  /\ (NoDup (domainsOf s) -> NoDup (domainsOf s')).
Proof.
  cbv zeta.
  destruct (Js.truthy (Js.trim (ConfigPage.newDomain_value s))) eqn:Ht.
  2: { destruct (addDomain_refused newURL s (or_introl Ht)) as [m ->]. simpl.
       split; [reflexivity|]. split; [left; eauto|auto]. }
  destruct (ConfigPage.isValidUrl newURL (Js.trim (ConfigPage.newDomain_value s))) eqn:Hv.
  2: { destruct (addDomain_refused newURL s (or_intror (or_introl Hv))) as [m ->]. simpl.
       split; [reflexivity|]. split; [left; eauto|auto]. }
  apply isValidUrl_true in Hv as (u & Hu & Hp).
  destruct (ConfigPage.domainsInclude (domainsOf s) (origin u)) eqn:Hin.
  { apply domainsInclude_true in Hin.
    destruct (addDomain_refused newURL s) as [m ->].
    { right. right. unfold ConfigPage.normalizeUrl. now rewrite Hu. }
    simpl. split; [reflexivity|]. split; [left; eauto|auto]. }
  apply domainsInclude_false in Hin.
  destruct (addDomain_accepted newURL s u Hu Ht Hp Hin)
    as (s' & -> & Hc & Hrows & Hval & _ & _ & Hsent & _).
  simpl.
  assert (Hd : domainsOf s' = domainsOf s ++ [origin u]).
  { unfold domainsOf at 1, ConfigPage.currentConfig. now rewrite Hc. }
  split; [reflexivity|]. split.
  - right. exists u. rewrite Hd. repeat split; auto.
  - intros Hnd. rewrite Hd. apply NoDup_app. split; [exact Hnd|]. split.
    + intros x Hx Hx'. apply list_elem_of_singleton in Hx'. now subst.
    + apply NoDup_singleton.
Qed.


Lemma removeDomain_cases
    (newURL : string -> option Url) (s : ConfigPage.State) (index : Z) :
  let s' := snd (ConfigPage.removeDomain index s) in
  fst (ConfigPage.removeDomain index s) = Returned tt
  /\ (forall removed,
        (0 <= index)%Z -> domainsOf s !! Z.to_nat index = Some removed ->
        domainsOf s' = delete (Z.to_nat index) (domainsOf s)
        /\ ConfigPage.pluginConfig s'
           = Some (ConfigPage.withAllowedDomains (domainsOf s') (ConfigPage.currentConfig s))
        /\ ConfigPage.domain_rows s' = domainsOf s'
        /\ ConfigPage.status_line s' = Some ("Removed " +:+ removed, false)
        /\ ConfigPage.sent s'
           = ConfigPage.sent s
             ++ [ConfigPage.withAllowedDomains (domainsOf s') (ConfigPage.currentConfig s)])
  /\ ((index < 0)%Z \/ (Z.of_nat (length (domainsOf s)) <= index)%Z -> s' = s)
  /\ (forall added,
        domainsOf (snd (ConfigPage.addDomain newURL s)) = domainsOf s ++ [added] ->
        domainsOf (snd (ConfigPage.removeDomain (Z.of_nat (length (domainsOf s)))
                          (snd (ConfigPage.addDomain newURL s))))
        = domainsOf s).
Proof.
  assert (Hin : forall (t : ConfigPage.State) (i : Z) d,
            (0 <= i)%Z -> domainsOf t !! Z.to_nat i = Some d ->
            ConfigPage.removeDomain i t
            = (Returned tt,
               ConfigPage.withSent
                 (ConfigPage.sent t
                  ++ [ConfigPage.withAllowedDomains (delete (Z.to_nat i) (domainsOf t))
                        (ConfigPage.currentConfig t)])
                 (ConfigPage.withStatusLine (Some ("Removed " +:+ d, false))
                    (ConfigPage.withRows (delete (Z.to_nat i) (domainsOf t))
                       (ConfigPage.withPluginConfig
                          (Some (ConfigPage.withAllowedDomains
                                   (delete (Z.to_nat i) (domainsOf t))
                                   (ConfigPage.currentConfig t))) t))))).
  { intros t i d Hi Hd. unfold ConfigPage.removeDomain, gets. unfold bind at 1.
    cbv beta iota. fold (domainsOf t).
    assert (Hlt : (i <? Z.of_nat (length (domainsOf t)))%Z = true).
    { apply Z.ltb_lt. apply lookup_lt_Some in Hd. lia. }
    rewrite Hlt, (proj2 (Z.leb_le 0 i) Hi), Hd. reflexivity. }
  assert (Hout : forall (t : ConfigPage.State) (i : Z),
            (i < 0)%Z \/ (Z.of_nat (length (domainsOf t)) <= i)%Z ->
            ConfigPage.removeDomain i t = (Returned tt, t)).
  { intros t i Hi. unfold ConfigPage.removeDomain, gets. unfold bind at 1.
    cbv beta iota. fold (domainsOf t).
    destruct Hi as [Hi|Hi].
    - now rewrite (proj2 (Z.leb_gt 0 i) Hi).
    - rewrite (proj2 (Z.ltb_ge i _) Hi). now rewrite andb_false_r. }
  cbv zeta. split; [|split; [|split]].
  - destruct (Z.le_gt_cases 0 index) as [H0|H0].
    + destruct (domainsOf s !! Z.to_nat index) as [d|] eqn:Hd.
      * now rewrite (Hin s index d H0 Hd).
      * rewrite Hout; [reflexivity|]. right. apply lookup_ge_None in Hd. lia.
    + rewrite Hout; [reflexivity|]. left. lia.
  - intros removed H0 Hd. rewrite (Hin s index removed H0 Hd). simpl.
    unfold domainsOf at 1 2 3 4, ConfigPage.currentConfig at 1 2 3 4. simpl.
    repeat split.
  - intros Hi. now rewrite Hout.
  - intros added Hadd.
    set (t := snd (ConfigPage.addDomain newURL s)) in *.
    rewrite (Hin t (Z.of_nat (length (domainsOf s))) added ltac:(lia)).
    + simpl. unfold domainsOf at 1, ConfigPage.currentConfig at 1. simpl.
      rewrite Hadd, Nat2Z.id.
      rewrite delete_middle. apply app_nil_r.
    + rewrite Hadd, Nat2Z.id. now rewrite list_lookup_middle.
Qed.

(** [removeDomain] removes the row at the index it is given and nothing
    else, when the index names a row; given any other index, negative or
    past the end, it does nothing at all.  It undoes [addDomain]: removing
    the last row after an address has been added leaves the list as it was
    before the address was added. *)
Theorem removeDomain_removes_the_row_at_the_index
    (newURL : string -> option Url) (s : ConfigPage.State) (index : Z) :
  let s' := snd (ConfigPage.removeDomain index s) in
  fst (ConfigPage.removeDomain index s) = Returned tt
  /\ (forall removed,
        (0 <= index)%Z -> domainsOf s !! Z.to_nat index = Some removed ->
        domainsOf s' = delete (Z.to_nat index) (domainsOf s)
        /\ ConfigPage.pluginConfig s'
           = Some (ConfigPage.withAllowedDomains (domainsOf s') (ConfigPage.currentConfig s))
        /\ ConfigPage.domain_rows s' = domainsOf s'
        /\ ConfigPage.status_line s' = Some ("Removed " +:+ removed, false)
        /\ ConfigPage.sent s'
           = ConfigPage.sent s
             ++ [ConfigPage.withAllowedDomains (domainsOf s') (ConfigPage.currentConfig s)])
  /\ ((index < 0)%Z \/ (Z.of_nat (length (domainsOf s)) <= index)%Z -> s' = s)
  /\ (forall added,
        domainsOf (snd (ConfigPage.addDomain newURL s)) = domainsOf s ++ [added] ->
        domainsOf (snd (ConfigPage.removeDomain (Z.of_nat (length (domainsOf s)))
                          (snd (ConfigPage.addDomain newURL s))))
        = domainsOf s).
Proof. apply removeDomain_cases. Qed.

(** The debug setting and the list of domains are stored in one object but
    do not disturb each other: [saveDebugSettings] stores the state of the
    check box, unchecked if there is none, and leaves the list of domains as
    it is; [addDomain] and [removeDomain] leave the debug setting as it is.
    What [saveDebugSettings] stores is what [loadDebugSettings] shows. *)
Theorem debug_setting_and_domains_are_independent
    (newURL : string -> option Url) (s : ConfigPage.State) (index : Z) :
  let saved := snd (ConfigPage.saveDebugSettings s) in
  fst (ConfigPage.saveDebugSettings s) = Returned tt
  /\ debugEnabled (ConfigPage.currentConfig saved)
     = Some (default false (ConfigPage.debugCheckbox s))
  /\ allowedDomains (ConfigPage.currentConfig saved)
     = allowedDomains (ConfigPage.currentConfig s)
  /\ ConfigPage.pluginConfig saved = Some (ConfigPage.currentConfig saved)
  /\ ConfigPage.debugCheckbox (snd (ConfigPage.loadDebugSettings saved))
     = ConfigPage.debugCheckbox s
  /\ debugEnabled (ConfigPage.currentConfig (snd (ConfigPage.addDomain newURL s)))
     = debugEnabled (ConfigPage.currentConfig s)
  /\ debugEnabled (ConfigPage.currentConfig (snd (ConfigPage.removeDomain index s)))
     = debugEnabled (ConfigPage.currentConfig s).
Proof.
  cbv zeta.
  assert (Hsave : exists saved,
            ConfigPage.saveDebugSettings s = (Returned tt, saved)
            /\ ConfigPage.pluginConfig saved
               = Some (ConfigPage.withDebugEnabled (default false (ConfigPage.debugCheckbox s))
                         (ConfigPage.currentConfig s))
            /\ ConfigPage.debugCheckbox saved = ConfigPage.debugCheckbox s).
  { unfold ConfigPage.saveDebugSettings, gets. unfold bind at 1. cbv beta iota.
    unfold bind at 1. cbv beta iota. unfold bind at 1. cbv beta iota.
    destruct (ConfigPage.pluginConfig s); eexists; (split; [reflexivity|]); now split. }
  destruct Hsave as (saved & -> & Hc & Hb). simpl.
  split; [reflexivity|].
  unfold ConfigPage.currentConfig at 1 2 4. rewrite Hc. simpl.
  split; [reflexivity|]. split; [reflexivity|]. split; [reflexivity|]. split; [|split].
  - unfold ConfigPage.loadDebugSettings, gets. unfold bind at 1. cbv beta iota.
    unfold bind at 1. cbv beta iota. rewrite Hb.
    destruct (ConfigPage.debugCheckbox s) as [b|] eqn:Eb; simpl; [|exact Hb].
    unfold ConfigPage.currentConfig. now rewrite Hc.
  - destruct (addDomain_cases newURL s) as (_ & [[m ->]|(u & _ & _ & _ & _ & Hp & _)] & _).
    + reflexivity.
    + unfold ConfigPage.currentConfig at 1. now rewrite Hp.
  - destruct (Z.le_gt_cases 0 index) as [H0|H0].
    + destruct (domainsOf s !! Z.to_nat index) as [d|] eqn:Hd.
      * destruct (removeDomain_cases newURL s index)
          as (_ & H & _).
        destruct (H d H0 Hd) as (_ & Hp & _).
        unfold ConfigPage.currentConfig at 1. now rewrite Hp.
      * destruct (removeDomain_cases newURL s index)
          as (_ & _ & H & _).
        rewrite H; [reflexivity|]. right. apply lookup_ge_None in Hd. lia.
    + destruct (removeDomain_cases newURL s index)
        as (_ & _ & H & _).
      rewrite H; [reflexivity|]. left. lia.
Qed.

(** On a page just opened, with nothing stored: an address of a second
    instance is stored as its origin after the domain of the default, which
    the default object itself now lists too; an address with another protocol
    is refused. *)
Example addDomain_on_a_page_just_opened :
  let s := freshConfigPage "  https://photos.example.com/library/browse " in
  let s' := snd (ConfigPage.addDomain twoHosts s) in
  domainsOf s' = ["https://demo.photoprism.app"; "https://photos.example.com"]
  /\ allowedDomains (ConfigPage.DEFAULT_CONFIG s')
     = Some ["https://demo.photoprism.app"; "https://photos.example.com"]
  /\ ConfigPage.sent s'
     = [mkConfig (Some ["https://demo.photoprism.app"; "https://photos.example.com"])
          (Some false) (Some "1.0.0")]
  /\ snd (ConfigPage.addDomain twoHosts (freshConfigPage "ftp://files.example.com"))
     = ConfigPage.withValidation
         "Please enter a valid URL (e.g., https://demo.photoprism.app)" true
         (freshConfigPage "ftp://files.example.com").
Proof. repeat split. Qed.

(** ** The configuration page and the data of the popup *)

Lemma noUnderscore_append a b :
  noUnderscore (a +:+ b) = noUnderscore a && noUnderscore b.
Proof.
  induction a as [|c a IH]; [reflexivity|].
  change (noUnderscore (String c (a +:+ b)) = noUnderscore (String c a) && noUnderscore b).
  simpl. rewrite IH. now rewrite andb_assoc.
Qed.

(** A key of an instance is no bare name. *)
Lemma createInstanceKey_underscore baseKey instanceId :
  noUnderscore (createInstanceKey baseKey instanceId) = false.
Proof.
  unfold createInstanceKey. rewrite noUnderscore_append.
  change ("_" +:+ Js.replaceNonAlnum instanceId) with (String "_" (Js.replaceNonAlnum instanceId)).
  simpl. apply andb_false_r.
Qed.

Lemma lookup_foldr_delete_notin (keys : list string) (m : gmap string Value) k :
  k ∉ keys -> foldr delete m keys !! k = m !! k.
Proof.
  induction keys as [|x keys IH]; intros H; simpl; [reflexivity|].
  apply not_elem_of_cons in H as [Hx Hk].
  rewrite lookup_delete_ne by congruence. now apply IH.
Qed.

Lemma lookup_foldr_delete_in (keys : list string) (m : gmap string Value) k :
  k ∈ keys -> foldr delete m keys !! k = None.
Proof.
  induction keys as [|x keys IH]; intros H; simpl; [inversion H|].
  destruct (decide (k = x)) as [->|Hne]; [apply lookup_delete_eq|].
  rewrite lookup_delete_ne by congruence. apply IH.
  apply elem_of_cons in H as [?|?]; [congruence|assumption].
Qed.

Lemma configPage_clear_run (before after : string) (keys : list string)
    (s : ConfigPage.State) (w : World) :
  (liftL (ConfigPage.showStatus before false) ;;
   liftW (storageRemove keys) ;;
   liftL (ConfigPage.showStatus after false)) (s, w)
  = (Returned tt,
     (ConfigPage.withStatusLine (Some (after, false)) s,
      withStorage (foldr delete (storage w) keys) w)).
Proof. reflexivity. Qed.

(** The buttons of the configuration page that clear the label cache, the
    recent labels, the execution history, the failed operations, or all of
    them, remove the entries stored under these bare names.  The popup
    stores its data under the keys of the instances, none of which is such a
    name: whatever the button, and whatever the instance, the popup reads
    after it what it read before it. *)
Theorem configuration_page_clears_no_instance_data
    (env : Env) (s : ConfigPage.State) (w : World)
    (clear : M (ConfigPage.State * World) unit) :
  clear ∈ [ConfigPage.clearLabelCache; ConfigPage.clearRecentLabels;
           ConfigPage.clearExecutionHistory; ConfigPage.clearFailedOperations;
           ConfigPage.clearAllCache] ->
  exists message keys w',
    clear (s, w) = (Returned tt, (ConfigPage.withStatusLine (Some (message, false)) s, w'))
    /\ keys ⊆ engineKeys
    /\ (forall k, storage w' !! k = if decide (k ∈ keys) then None else storage w !! k)
    /\ forall baseKey d,
         getInstanceData env baseKey d w' = (fst (getInstanceData env baseKey d w), w').
Proof.
  intros Hin.
  assert (Hgen : forall before after keys,
            keys ⊆ engineKeys ->
            exists message keys0 w',
              (liftL (ConfigPage.showStatus before false) ;;
               liftW (storageRemove keys) ;;
               liftL (ConfigPage.showStatus after false)) (s, w)
              = (Returned tt, (ConfigPage.withStatusLine (Some (message, false)) s, w'))
              /\ keys0 ⊆ engineKeys
              /\ (forall k, storage w' !! k
                            = if decide (k ∈ keys0) then None else storage w !! k)
              /\ forall baseKey d,
                   getInstanceData env baseKey d w'
                   = (fst (getInstanceData env baseKey d w), w')).
  { intros before after keys Hsub.
    exists after, keys, (withStorage (foldr delete (storage w) keys) w).
    split; [apply configPage_clear_run|]. split; [exact Hsub|]. split.
    - intros k. simpl. destruct (decide (k ∈ keys)) as [Hk|Hk].
      + now apply lookup_foldr_delete_in.
      + now apply lookup_foldr_delete_notin.
    - intros baseKey d.
      destruct (getCurrentInstanceId env) as [e|inst] eqn:Hinst.
      + now rewrite !(getInstanceData_unresolved env e _ _ _ Hinst).
      + rewrite !(getInstanceData_resolved env inst _ _ _ Hinst). simpl.
        rewrite lookup_foldr_delete_notin; [reflexivity|].
        intros Hk. apply Hsub, engineKeys_noUnderscore in Hk.
        now rewrite createInstanceKey_underscore in Hk. }
  assert (Hsub : forall keys,
            forallb (fun k => bool_decide (k ∈ engineKeys)) keys = true ->
            keys ⊆ engineKeys).
  { intros keys H x Hx. apply list_elem_of_In in Hx.
    apply (proj1 (forallb_forall _ _) H) in Hx. now apply bool_decide_eq_true in Hx. }
  apply elem_of_cons in Hin as [->|Hin]; [apply Hgen, Hsub; reflexivity|].
  apply elem_of_cons in Hin as [->|Hin]; [apply Hgen, Hsub; reflexivity|].
  apply elem_of_cons in Hin as [->|Hin]; [apply Hgen, Hsub; reflexivity|].
  apply elem_of_cons in Hin as [->|Hin]; [apply Hgen, Hsub; reflexivity|].
  apply elem_of_cons in Hin as [->|Hin]; [apply Hgen, Hsub; reflexivity|].
  inversion Hin.
Qed.

Lemma configuration_page_clears_no_instance_data_witness :
  exists message w',
    ConfigPage.clearAllCache (freshConfigPage EmptyString, afterFirstAdd)
    = (Returned tt,
       (ConfigPage.withStatusLine (Some (message, false)) (freshConfigPage EmptyString), w'))
    /\ failureGroupsAre x3FailsEnv w' [x3Group]
    /\ historyIs x3FailsEnv w' [firstAddEntry].
Proof.
  destruct (configuration_page_clears_no_instance_data x3FailsEnv (freshConfigPage EmptyString)
              afterFirstAdd ConfigPage.clearAllCache)
    as (message & keys & w' & Hrun & _ & _ & Hread).
  { do 4 apply list_elem_of_further. apply list_elem_of_here. }
  exists message, w'. split; [exact Hrun|].
  assert (Hf : fst (getInstanceData x3FailsEnv "failedOperations" (VFailed []) afterFirstAdd)
               = Returned (VFailed [x3Group])) by (vm_compute; reflexivity).
  assert (Hh : fst (getInstanceData x3FailsEnv "executionHistory" (VHistory []) afterFirstAdd)
               = Returned (VHistory [firstAddEntry])) by (vm_compute; reflexivity).
  split.
  - unfold failureGroupsAre. rewrite Hread, Hf. reflexivity.
  - unfold historyIs. rewrite Hread, Hh. reflexivity.
Defined.
